(** * Client-side file envelope: [encryptFile] / [decryptFile]

    A shallow embedding of [src/lib/encryption.ts], of its callers in
    [src/App.tsx], and of the connection layer and the key management
    functions in [src/lib/api.ts].

    The two exported functions of [encryption.ts] are embedded statement
    by statement; the browser built-ins they call ([btoa], [atob],
    [JSON.stringify], [JSON.parse], the UTF-8 idiom
    [unescape(encodeURIComponent(_))] and its inverse) are embedded
    after the standards that define them, and the parts of the
    [crypto-js] package that the code calls are either embedded
    ([WordArray.create], hex printing) or kept abstract behind the
    [Host] interface (the AES transform, hex parsing, the random source);
    which lengths of a typed array the engine can allocate is part of
    that interface too.
    The handlers [handleFileUpload], [handleDownload] and
    [handleDownloadFile] are embedded over a trace of what they do, with
    the answers of the backend as a parameter ([Backend]); the retry
    loops [initializeSupabase] and [supabaseQuery] over a clock, with
    the answers of the network as a parameter ([Network]); the four
    functions [createApiKey], [getApiKeys], [deleteApiKey] and
    [getFilesWithApiKey] on top of them, with the answers of the
    database ([Database]) and the UUIDs and the digest ([KeyTools]) as
    parameters.

    Conventions:
    - a JavaScript string is the list of its UTF-16 code units, each an
      integer ([jsstring]);
    - a byte is an integer in [0, 256); a 32-bit word is an integer read
      through [ToInt32] / [ToUint32];
    - effects (random draws, console output, the download, requests,
      toasts, waits) are threaded through a world by a small
      state-and-exception monad: [M] for the library functions, [AppM]
      for the handlers, [NetM] for the connection layer, [KeyM] for the
      key management functions. *)

From Stdlib Require Import String Ascii Decimal DecimalFacts DecimalN.
From Stdlib Require Import ZArith Bool Lia List.
Import ListNotations.
Open Scope Z_scope.

Set Implicit Arguments.
Set Warnings "-register-all".

(* ================================================================= *)
(** ** Strings *)

Definition jsstring := list Z.

(** The code units of an ASCII literal. *)
Definition js (s : string) : jsstring :=
  map (fun a => Z.of_N (N_of_ascii a)) (list_ascii_of_string s).

(** [s.length] *)
Definition len (A : Type) (s : list A) : Z := Z.of_nat (length s).

Definition c_quote : Z := 34.      (* the double quote *)
Definition c_plus : Z := 43.
Definition c_comma : Z := 44.
Definition c_minus : Z := 45.
Definition c_dot : Z := 46.
Definition c_slash : Z := 47.
Definition c_colon : Z := 58.
Definition c_eq : Z := 61.
Definition c_backslash : Z := 92.
Definition c_underscore : Z := 95.

(** [s.replace(/a/g, b)] for a one-character pattern [a] and a
    one-character replacement [b]. *)
Definition replace_all (a b : Z) (s : jsstring) : jsstring :=
  map (fun c => if c =? a then b else c) s.

(** [s.replace(/=+$/, '')]: the maximal run of [=] that ends the string
    is removed. *)
Definition strip_trailing_eq (s : jsstring) : jsstring :=
  fold_right
    (fun c acc =>
       match acc with
       | [] => if c =? c_eq then [] else [c]
       | _ :: _ => c :: acc
       end) [] s.

(** [while (s.length % 4) s += '='].  The loop body runs at most three
    times, so three units of fuel always reach the exit test. *)
Fixpoint pad_loop (fuel : nat) (s : jsstring) : jsstring :=
  match fuel with
  | O => s
  | S fuel' =>
      if len s mod 4 =? 0 then s else pad_loop fuel' (s ++ [c_eq])
  end.

Definition pad4 (s : jsstring) : jsstring := pad_loop 3 s.

(* ================================================================= *)
(** ** Exceptions, the world, and the monad *)

(** What a [throw] can carry.  [Error m] is [new Error(m)], built by the
    source; the others are raised by the engine, whose message text is
    the engine's own. *)
Inductive exn : Type :=
| Error (message : jsstring)
| TypeError_null (property : jsstring)  (* property read on [null] *)
| InvalidCharacterError                 (* [btoa] / [atob] *)
| URIError                              (* malformed URI sequence *)
| SyntaxError                           (* [JSON.parse] *)
| RangeError                            (* invalid typed array length *)
| RangeError_allocation.                (* array buffer allocation failed *)

Definition result (A : Type) : Type := (exn + A)%type.

(** The savable file handed to the browser. *)
Record Blob : Type := {
  blob_bytes : list Z;
  blob_type : jsstring
}.

(** The observable actions of the two functions, in program order. *)
Inductive Event : Type :=
| EvRandom (nBytes : Z)                      (* WordArray.random(nBytes) *)
| EvEncrypt                                  (* CryptoJS.AES.encrypt *)
| EvDecrypt                                  (* CryptoJS.AES.decrypt *)
| EvConsoleError (label : jsstring) (e : exn)
| EvDownload (download : jsstring) (b : Blob) (* a.click() *)
| EvSetTimeout (ms : Z).                     (* deferred cleanup *)

Record World : Type := {
  rng_cursor : nat;        (* how many random words were consumed *)
  events : list Event      (* the trace so far, oldest first *)
}.

Definition M (A : Type) : Type := World -> result A * World.

Definition ret (A : Type) (a : A) : M A := fun w => (inr a, w).

Definition throw (A : Type) (e : exn) : M A := fun w => (inl e, w).
Arguments throw {A} e.

Definition bind (A B : Type) (m : M A) (k : A -> M B) : M B :=
  fun w =>
    match m w with
    | (inl e, w') => (inl e, w')
    | (inr a, w') => k a w'
    end.

(** [try { m } catch (error) { h error }] *)
Definition try_catch (A : Type) (m : M A) (h : exn -> M A) : M A :=
  fun w =>
    match m w with
    | (inl e, w') => h e w'
    | (inr a, w') => (inr a, w')
    end.

(** A built-in that returns or throws without touching the world. *)
Definition lift (A : Type) (r : result A) : M A := fun w => (r, w).

Definition emit (ev : Event) : M unit :=
  fun w => (inr tt, {| rng_cursor := rng_cursor w;
                       events := events w ++ [ev] |}).

Declare Scope js_scope.
Delimit Scope js_scope with js.
Notation "x <- m ;; k" := (bind m (fun x => k))
  (at level 61, m at next level, right associativity) : js_scope.
Notation "m ;;; k" := (bind m (fun _ => k))
  (at level 61, right associativity) : js_scope.
Open Scope js_scope.

(** [console.error(label, error)] *)
Definition console_error (label : string) (e : exn) : M unit :=
  emit (EvConsoleError (js label) e).

(* ================================================================= *)
(** ** Base64: [btoa] and [atob] *)

(** The character of a six-bit value in the standard alphabet. *)
Definition b64_char (n : Z) : Z :=
  if n <? 26 then 65 + n
  else if n <? 52 then 71 + n
  else if n <? 62 then n - 4
  else if n =? 62 then c_plus
  else c_slash.

(** The six-bit value of an alphabet character. *)
Definition b64_val (c : Z) : option Z :=
  if (65 <=? c) && (c <=? 90) then Some (c - 65)
  else if (97 <=? c) && (c <=? 122) then Some (c - 71)
  else if (48 <=? c) && (c <=? 57) then Some (c + 4)
  else if c =? c_plus then Some 62
  else if c =? c_slash then Some 63
  else None.

(** Three octets make four characters; a tail of one or two octets is
    completed with [=]. *)
Fixpoint b64_encode (l : list Z) : jsstring :=
  match l with
  | [] => []
  | [x] => [b64_char (x / 4); b64_char (x mod 4 * 16); c_eq; c_eq]
  | [x; y] =>
      [b64_char (x / 4); b64_char (x mod 4 * 16 + y / 16);
       b64_char (y mod 16 * 4); c_eq]
  | x :: y :: z :: rest =>
      b64_char (x / 4) :: b64_char (x mod 4 * 16 + y / 16)
      :: b64_char (y mod 16 * 4 + z / 64) :: b64_char (z mod 64)
      :: b64_encode rest
  end.

Definition is_latin1 (c : Z) : bool := (0 <=? c) && (c <=? 255).

(** [btoa(s)]: throws when a code unit is above 0xFF. *)
Definition btoa (s : jsstring) : result jsstring :=
  if forallb is_latin1 s then inr (b64_encode s)
  else inl InvalidCharacterError.

(** TAB, LF, FF, CR and SPACE. *)
Definition is_ascii_whitespace (c : Z) : bool :=
  (c =? 9) || (c =? 10) || (c =? 12) || (c =? 13) || (c =? 32).

(** Removes one or two [=] from the end, when they are there. *)
Definition drop_padding (s : jsstring) : jsstring :=
  match rev s with
  | a :: b :: r =>
      if a =? c_eq then
        if b =? c_eq then rev r else rev (b :: r)
      else s
  | [a] => if a =? c_eq then [] else s
  | [] => s
  end.

Fixpoint b64_values (s : jsstring) : option (list Z) :=
  match s with
  | [] => Some []
  | c :: s' =>
      match b64_val c, b64_values s' with
      | Some v, Some vs => Some (v :: vs)
      | _, _ => None
      end
  end.

(** Four six-bit values make three octets; a tail of two values makes
    one octet and a tail of three makes two, the spare low bits being
    discarded. *)
Fixpoint b64_octets (vs : list Z) : list Z :=
  match vs with
  | a :: b :: c :: d :: rest =>
      (a * 4 + b / 16) :: (b mod 16 * 16 + c / 4) :: (c mod 4 * 64 + d)
      :: b64_octets rest
  | [a; b; c] => [a * 4 + b / 16; b mod 16 * 16 + c / 4]
  | [a; b] => [a * 4 + b / 16]
  | _ => []
  end.

(** [atob(data)], the forgiving base64 decoder of the HTML standard:
    ASCII whitespace is ignored, final padding is optional, a length of
    1 modulo 4 or a character outside the alphabet throws. *)
Definition atob (data : jsstring) : result jsstring :=
  let data := filter (fun c => negb (is_ascii_whitespace c)) data in
  let data := if len data mod 4 =? 0 then drop_padding data else data in
  if len data mod 4 =? 1 then inl InvalidCharacterError
  else
    match b64_values data with
    | Some vs => inr (b64_octets vs)
    | None => inl InvalidCharacterError
    end.

(* ================================================================= *)
(** ** UTF-8: [unescape(encodeURIComponent(s))] and
       [decodeURIComponent(escape(s))] *)

Definition is_high_surrogate (c : Z) : bool := (55296 <=? c) && (c <=? 56319).
Definition is_low_surrogate (c : Z) : bool := (56320 <=? c) && (c <=? 57343).

(** [unescape(encodeURIComponent(s))]: the UTF-8 octets of [s], one
    code unit per octet.  [encodeURIComponent] throws a [URIError] on a
    surrogate that has no partner. *)
Fixpoint utf8_encode (s : jsstring) : result jsstring :=
  match s with
  | [] => inr []
  | c :: r =>
      if c <? 128 then
        match utf8_encode r with
        | inr t => inr (c :: t)
        | inl e => inl e
        end
      else if c <? 2048 then
        match utf8_encode r with
        | inr t => inr (192 + c / 64 :: 128 + c mod 64 :: t)
        | inl e => inl e
        end
      else if is_high_surrogate c then
        match r with
        | d :: r' =>
            if is_low_surrogate d then
              let cp := (c - 55296) * 1024 + (d - 56320) + 65536 in
              match utf8_encode r' with
              | inr t =>
                  inr (240 + cp / 262144 :: 128 + cp / 4096 mod 64
                       :: 128 + cp / 64 mod 64 :: 128 + cp mod 64 :: t)
              | inl e => inl e
              end
            else inl URIError
        | [] => inl URIError
        end
      else if is_low_surrogate c then inl URIError
      else
        match utf8_encode r with
        | inr t =>
            inr (224 + c / 4096 :: 128 + c / 64 mod 64 :: 128 + c mod 64 :: t)
        | inl e => inl e
        end
  end.

Definition in_range (lo hi c : Z) : bool := (lo <=? c) && (c <=? hi).

(** [decodeURIComponent(escape(s))]: [s] read as UTF-8 octets.  Every
    octet sequence that is not well-formed UTF-8 (a stray continuation
    octet, an overlong form, an encoded surrogate, a value above
    U+10FFFF, a truncated sequence) and every code unit above 0xFF
    throws a [URIError]. *)
Fixpoint utf8_decode (s : jsstring) : result jsstring :=
  match s with
  | [] => inr []
  | b :: r =>
      if in_range 0 127 b then
        match utf8_decode r with
        | inr t => inr (b :: t)
        | inl e => inl e
        end
      else if in_range 194 223 b then
        match r with
        | c1 :: r1 =>
            if in_range 128 191 c1 then
              match utf8_decode r1 with
              | inr t => inr ((b - 192) * 64 + (c1 - 128) :: t)
              | inl e => inl e
              end
            else inl URIError
        | _ => inl URIError
        end
      else if in_range 224 239 b then
        match r with
        | c1 :: c2 :: r2 =>
            if in_range (if b =? 224 then 160 else 128)
                        (if b =? 237 then 159 else 191) c1
               && in_range 128 191 c2 then
              match utf8_decode r2 with
              | inr t =>
                  inr ((b - 224) * 4096 + (c1 - 128) * 64 + (c2 - 128) :: t)
              | inl e => inl e
              end
            else inl URIError
        | _ => inl URIError
        end
      else if in_range 240 244 b then
        match r with
        | c1 :: c2 :: c3 :: r3 =>
            if in_range (if b =? 240 then 144 else 128)
                        (if b =? 244 then 143 else 191) c1
               && in_range 128 191 c2 && in_range 128 191 c3 then
              let cp := (b - 240) * 262144 + (c1 - 128) * 4096
                        + (c2 - 128) * 64 + (c3 - 128) in
              match utf8_decode r3 with
              | inr t =>
                  inr (55296 + (cp - 65536) / 1024
                       :: 56320 + (cp - 65536) mod 1024 :: t)
              | inl e => inl e
              end
            else inl URIError
        | _ => inl URIError
        end
      else inl URIError
  end.

(* ================================================================= *)
(** ** JSON values *)

(** The values [JSON.parse] can return, and [undefined], which a
    property read can return.  A number keeps the digits of its literal:
    integer part, fraction and exponent. *)
Inductive JsValue : Type :=
| JUndefined
| JNull
| JBool (b : bool)
| JNum (d : Decimal.decimal)
| JStr (s : jsstring)
| JArr (elements : list JsValue)
| JObj (members : list (jsstring * JsValue)).

Definition jsstring_eqb (a b : jsstring) : bool :=
  if list_eq_dec Z.eq_dec a b then true else false.

(** The value a key is bound to; when a key occurs twice the later
    binding wins, as in [JSON.parse]. *)
Fixpoint lookup (name : jsstring) (ms : list (jsstring * JsValue))
  : option JsValue :=
  match ms with
  | [] => None
  | (key, v) :: ms' =>
      match lookup name ms' with
      | Some v' => Some v'
      | None => if jsstring_eqb key name then Some v else None
      end
  end.

(** [value.name] for one of the names [k], [i], [d], [s], which no
    built-in prototype defines.  Reading a property of [null] or
    [undefined] throws; a value without the property gives [undefined]. *)
Definition get_prop (value : JsValue) (name : string) : result JsValue :=
  match value with
  | JNull | JUndefined => inl (TypeError_null (js name))
  | JObj ms =>
      inr (match lookup (js name) ms with
           | Some v => v
           | None => JUndefined
           end)
  | _ => inr JUndefined
  end.

(** *** Numbers *)

Definition uint_of_int (i : Decimal.int) : Decimal.uint :=
  match i with Decimal.Pos u => u | Decimal.Neg u => u end.

Definition int_is_neg (i : Decimal.int) : bool :=
  match i with Decimal.Pos _ => false | Decimal.Neg _ => true end.

(** The literal as sign, mantissa and power of ten:
    its value is [(-1)^neg * mantissa * 10^exp10]. *)
Definition num_neg (d : Decimal.decimal) : bool :=
  match d with
  | Decimal.Decimal i _ => int_is_neg i
  | Decimal.DecimalExp i _ _ => int_is_neg i
  end.

Definition num_mantissa (d : Decimal.decimal) : Z :=
  match d with
  | Decimal.Decimal i f | Decimal.DecimalExp i f _ =>
      Z.of_N (N.of_uint (Decimal.app (uint_of_int i) f))
  end.

Definition num_exp10 (d : Decimal.decimal) : Z :=
  match d with
  | Decimal.Decimal _ f => - Z.of_nat (Decimal.nb_digits f)
  | Decimal.DecimalExp _ f e => Z.of_int e - Z.of_nat (Decimal.nb_digits f)
  end.

(** The Number a literal denotes is zero when its mantissa is zero, or
    when its magnitude is at most [2^-1075], half the least positive
    double, which rounds to zero. *)
Definition num_is_zero (d : Decimal.decimal) : bool :=
  let m := num_mantissa d in
  let e := num_exp10 d in
  (m =? 0) || ((e <? 0) && (m * 2 ^ 1075 <=? 10 ^ (- e))).

(** The exact value of a literal that denotes an integer. *)
Definition num_int_value (d : Decimal.decimal) : option Z :=
  let m := num_mantissa d in
  let e := num_exp10 d in
  let sign := if num_neg d then -1 else 1 in
  if 0 <=? e then Some (sign * (m * 10 ^ e))
  else if m mod 10 ^ (- e) =? 0 then Some (sign * (m / 10 ^ (- e)))
  else None.

(** [!!v]: [undefined], [null], [false], a zero Number and the empty
    string are falsy; every other value is truthy. *)
Definition truthy (v : JsValue) : bool :=
  match v with
  | JUndefined => false
  | JNull => false
  | JBool b => b
  | JNum d => negb (num_is_zero d)
  | JStr s => match s with [] => false | _ :: _ => true end
  | JArr _ => true
  | JObj _ => true
  end.

(* ================================================================= *)
(** ** [JSON.parse] *)

(** JSON white space: SPACE, TAB, LF and CR. *)
Definition is_json_ws (c : Z) : bool :=
  (c =? 32) || (c =? 9) || (c =? 10) || (c =? 13).

Fixpoint skip_ws (s : jsstring) : jsstring :=
  match s with
  | c :: r => if is_json_ws c then skip_ws r else s
  | [] => []
  end.

Definition is_digit (c : Z) : bool := (48 <=? c) && (c <=? 57).

Definition hex_val (c : Z) : option Z :=
  if is_digit c then Some (c - 48)
  else if (97 <=? c) && (c <=? 102) then Some (c - 87)
  else if (65 <=? c) && (c <=? 70) then Some (c - 55)
  else None.

(** The digit [c] put in front of the digits [u]. *)
Definition digit_cons (c : Z) (u : Decimal.uint) : Decimal.uint :=
  if c =? 48 then Decimal.D0 u
  else if c =? 49 then Decimal.D1 u
  else if c =? 50 then Decimal.D2 u
  else if c =? 51 then Decimal.D3 u
  else if c =? 52 then Decimal.D4 u
  else if c =? 53 then Decimal.D5 u
  else if c =? 54 then Decimal.D6 u
  else if c =? 55 then Decimal.D7 u
  else if c =? 56 then Decimal.D8 u
  else Decimal.D9 u.

(** The longest run of digits that starts [s], and what follows it. *)
Fixpoint read_digits (s : jsstring) : Decimal.uint * jsstring :=
  match s with
  | c :: r =>
      if is_digit c then
        let (u, rest) := read_digits r in (digit_cons c u, rest)
      else (Decimal.Nil, s)
  | [] => (Decimal.Nil, [])
  end.

(** One or more digits. *)
Definition read_digits1 (s : jsstring) : option (Decimal.uint * jsstring) :=
  match read_digits s with
  | (Decimal.Nil, _) => None
  | (u, rest) => Some (u, rest)
  end.

(** The integer part: a lone [0], or a nonzero digit and more digits. *)
Definition read_int_part (s : jsstring) : option (Decimal.uint * jsstring) :=
  match s with
  | c :: r =>
      if c =? 48 then Some (Decimal.D0 Decimal.Nil, r)
      else if is_digit c then Some (read_digits s)
      else None
  | [] => None
  end.

(** The optional fraction [.ddd]. *)
Definition read_frac (s : jsstring) : option (Decimal.uint * jsstring) :=
  match s with
  | c :: r => if c =? c_dot then read_digits1 r else Some (Decimal.Nil, s)
  | [] => Some (Decimal.Nil, [])
  end.

(** The optional exponent [e+ddd], [E-ddd], ... *)
Definition read_exp (s : jsstring) : option (option Decimal.int * jsstring) :=
  match s with
  | c :: r =>
      if (c =? 101) || (c =? 69) then
        match r with
        | sg :: r' =>
            if sg =? c_minus then
              match read_digits1 r' with
              | Some (u, rest) => Some (Some (Decimal.Neg u), rest)
              | None => None
              end
            else
              match read_digits1 (if sg =? c_plus then r' else r) with
              | Some (u, rest) => Some (Some (Decimal.Pos u), rest)
              | None => None
              end
        | [] => None
        end
      else Some (None, s)
  | [] => Some (None, [])
  end.

Definition parse_number (s : jsstring) : option (Decimal.decimal * jsstring) :=
  let (neg, s1) :=
    match s with
    | c :: r => if c =? c_minus then (true, r) else (false, s)
    | [] => (false, s)
    end in
  match read_int_part s1 with
  | None => None
  | Some (u, s2) =>
      let i := if neg then Decimal.Neg u else Decimal.Pos u in
      match read_frac s2 with
      | None => None
      | Some (f, s3) =>
          match read_exp s3 with
          | None => None
          | Some (None, s4) => Some (Decimal.Decimal i f, s4)
          | Some (Some e, s4) => Some (Decimal.DecimalExp i f e, s4)
          end
      end
  end.

(** The characters of a string literal after its opening quote, up to
    and including the closing quote.  A raw control character, an
    unknown escape or a missing closing quote is a syntax error. *)
Fixpoint parse_string_body (s : jsstring) : option (jsstring * jsstring) :=
  match s with
  | [] => None
  | c :: r =>
      if c =? c_quote then Some ([], r)
      else if c =? c_backslash then
        match r with
        | [] => None
        | e :: r1 =>
            if e =? 117 then               (* \uXXXX *)
              match r1 with
              | h1 :: h2 :: h3 :: h4 :: r2 =>
                  match hex_val h1, hex_val h2, hex_val h3, hex_val h4 with
                  | Some a, Some b, Some c', Some d =>
                      match parse_string_body r2 with
                      | Some (t, rest) =>
                          Some (a * 4096 + b * 256 + c' * 16 + d :: t, rest)
                      | None => None
                      end
                  | _, _, _, _ => None
                  end
              | _ => None
              end
            else
              let simple :=
                if e =? c_quote then Some c_quote
                else if e =? c_backslash then Some c_backslash
                else if e =? c_slash then Some c_slash
                else if e =? 98 then Some 8
                else if e =? 102 then Some 12
                else if e =? 110 then Some 10
                else if e =? 114 then Some 13
                else if e =? 116 then Some 9
                else None in
              match simple with
              | Some x =>
                  match parse_string_body r1 with
                  | Some (t, rest) => Some (x :: t, rest)
                  | None => None
                  end
              | None => None
              end
        end
      else if c <? 32 then None
      else
        match parse_string_body r with
        | Some (t, rest) => Some (c :: t, rest)
        | None => None
        end
  end.

(** [s] without the prefix [p], when it starts with [p]. *)
Fixpoint strip_prefix (p s : jsstring) : option jsstring :=
  match p, s with
  | [], _ => Some s
  | a :: p', b :: s' => if a =? b then strip_prefix p' s' else None
  | _ :: _, [] => None
  end.

(** The recursive-descent parser.  [parse_value] reads one value after
    optional white space; [parse_elements] reads the elements of a
    non-empty array up to its closing bracket; [parse_members] reads the
    members of a non-empty object up to its closing brace.  Each call
    spends one unit of [fuel]; [JSON_parse] supplies two units for every
    character, which the grammar never exceeds. *)
Fixpoint parse_value (fuel : nat) (s : jsstring)
  : option (JsValue * jsstring) :=
  match fuel with
  | O => None
  | S fuel' =>
      match skip_ws s with
      | [] => None
      | c :: r =>
          if c =? 123 then                       (* { *)
            match skip_ws r with
            | c' :: r' =>
                if c' =? 125 then Some (JObj [], r')
                else
                  match parse_members fuel' r with
                  | Some (ms, rest) => Some (JObj ms, rest)
                  | None => None
                  end
            | [] => None
            end
          else if c =? 91 then                   (* [ *)
            match skip_ws r with
            | c' :: r' =>
                if c' =? 93 then Some (JArr [], r')
                else
                  match parse_elements fuel' r with
                  | Some (vs, rest) => Some (JArr vs, rest)
                  | None => None
                  end
            | [] => None
            end
          else if c =? c_quote then
            match parse_string_body r with
            | Some (str, rest) => Some (JStr str, rest)
            | None => None
            end
          else if (c =? c_minus) || is_digit c then
            match parse_number (c :: r) with
            | Some (d, rest) => Some (JNum d, rest)
            | None => None
            end
          else
            match strip_prefix (js "true") (c :: r) with
            | Some rest => Some (JBool true, rest)
            | None =>
                match strip_prefix (js "false") (c :: r) with
                | Some rest => Some (JBool false, rest)
                | None =>
                    match strip_prefix (js "null") (c :: r) with
                    | Some rest => Some (JNull, rest)
                    | None => None
                    end
                end
            end
      end
  end

with parse_elements (fuel : nat) (s : jsstring)
  : option (list JsValue * jsstring) :=
  match fuel with
  | O => None
  | S fuel' =>
      match parse_value fuel' s with
      | None => None
      | Some (v, s1) =>
          match skip_ws s1 with
          | c :: r =>
              if c =? 93 then Some ([v], r)      (* ] *)
              else if c =? c_comma then
                match parse_elements fuel' r with
                | Some (vs, rest) => Some (v :: vs, rest)
                | None => None
                end
              else None
          | [] => None
          end
      end
  end

with parse_members (fuel : nat) (s : jsstring)
  : option (list (jsstring * JsValue) * jsstring) :=
  match fuel with
  | O => None
  | S fuel' =>
      match skip_ws s with
      | c :: r =>
          if c =? c_quote then
            match parse_string_body r with
            | None => None
            | Some (key, s1) =>
                match skip_ws s1 with
                | c1 :: r1 =>
                    if c1 =? c_colon then
                      match parse_value fuel' r1 with
                      | None => None
                      | Some (v, s2) =>
                          match skip_ws s2 with
                          | c2 :: r2 =>
                              if c2 =? 125 then Some ([(key, v)], r2)  (* } *)
                              else if c2 =? c_comma then
                                match parse_members fuel' r2 with
                                | Some (ms, rest) => Some ((key, v) :: ms, rest)
                                | None => None
                                end
                              else None
                          | [] => None
                          end
                      end
                    else None
                | [] => None
                end
            end
          else None
      | [] => None
      end
  end.

(** [JSON.parse(text)]: one value, white space around it, nothing else. *)
Definition JSON_parse (text : jsstring) : result JsValue :=
  match parse_value (2 * length text + 2) text with
  | Some (v, rest) =>
      match skip_ws rest with
      | [] => inr v
      | _ :: _ => inl SyntaxError
      end
  | None => inl SyntaxError
  end.

(* ================================================================= *)
(** ** [JSON.stringify] of the envelope object *)

Definition hex_digit (n : Z) : Z := if n <? 10 then 48 + n else 87 + n.

(** The escape [\uXXXX] of a code unit, in lower-case hexadecimal. *)
Definition unicode_escape (c : Z) : jsstring :=
  [c_backslash; 117; hex_digit (c / 4096); hex_digit (c / 256 mod 16);
   hex_digit (c / 16 mod 16); hex_digit (c mod 16)].

(** The JSON text of one code unit that is not a surrogate. *)
Definition quote_char (c : Z) : jsstring :=
  if c =? 8 then [c_backslash; 98]
  else if c =? 9 then [c_backslash; 116]
  else if c =? 10 then [c_backslash; 110]
  else if c =? 12 then [c_backslash; 102]
  else if c =? 13 then [c_backslash; 114]
  else if c =? c_quote then [c_backslash; c_quote]
  else if c =? c_backslash then [c_backslash; c_backslash]
  else if c <? 32 then unicode_escape c
  else [c].

(** A surrogate pair is copied; a surrogate without its partner is
    escaped. *)
Fixpoint quote_body (s : jsstring) : jsstring :=
  match s with
  | [] => []
  | c :: r =>
      if is_high_surrogate c then
        match r with
        | d :: r' =>
            if is_low_surrogate d then c :: d :: quote_body r'
            else unicode_escape c ++ quote_body r
        | [] => unicode_escape c
        end
      else if is_low_surrogate c then unicode_escape c ++ quote_body r
      else quote_char c ++ quote_body r
  end.

Definition JSON_quote (s : jsstring) : jsstring :=
  c_quote :: quote_body s ++ [c_quote].

Fixpoint uint_chars (u : Decimal.uint) : jsstring :=
  match u with
  | Decimal.Nil => []
  | Decimal.D0 u' => 48 :: uint_chars u'
  | Decimal.D1 u' => 49 :: uint_chars u'
  | Decimal.D2 u' => 50 :: uint_chars u'
  | Decimal.D3 u' => 51 :: uint_chars u'
  | Decimal.D4 u' => 52 :: uint_chars u'
  | Decimal.D5 u' => 53 :: uint_chars u'
  | Decimal.D6 u' => 54 :: uint_chars u'
  | Decimal.D7 u' => 55 :: uint_chars u'
  | Decimal.D8 u' => 56 :: uint_chars u'
  | Decimal.D9 u' => 57 :: uint_chars u'
  end.

(** The JSON text of an integer Number below [10^21] in magnitude:
    its decimal digits, after [-] when negative. *)
Definition JSON_number (n : Z) : jsstring :=
  if n <? 0 then c_minus :: uint_chars (N.to_uint (Z.to_N (- n)))
  else uint_chars (N.to_uint (Z.to_N n)).

(** The object literal [{ k: ..., i: ..., d: ..., s: ... }] of
    [encryptFile]. *)
Record Combined : Type := {
  k : jsstring;   (* key *)
  i : jsstring;   (* iv *)
  d : jsstring;   (* data *)
  s : Z           (* original size *)
}.

(** [JSON.stringify(combined)]: the members in insertion order, with no
    white space. *)
Definition JSON_stringify (c : Combined) : jsstring :=
  js "{" ++ JSON_quote (js "k") ++ js ":" ++ JSON_quote (k c)
  ++ js "," ++ JSON_quote (js "i") ++ js ":" ++ JSON_quote (i c)
  ++ js "," ++ JSON_quote (js "d") ++ js ":" ++ JSON_quote (d c)
  ++ js "," ++ JSON_quote (js "s") ++ js ":" ++ JSON_number (s c)
  ++ js "}".

(* ================================================================= *)
(** ** 32-bit operators and typed arrays *)

Definition to_uint32 (z : Z) : Z := z mod 2 ^ 32.

Definition to_int32 (z : Z) : Z :=
  let m := z mod 2 ^ 32 in if m <? 2 ^ 31 then m else m - 2 ^ 32.

(** [a << n] *)
Definition js_shl (a n : Z) : Z :=
  to_int32 (Z.shiftl (to_int32 a) (to_uint32 n mod 32)).

(** [a >>> n] *)
Definition js_ushr (a n : Z) : Z :=
  Z.shiftr (to_uint32 a) (to_uint32 n mod 32).

(** [a | b] *)
Definition js_or (a b : Z) : Z := to_int32 (Z.lor (to_int32 a) (to_int32 b)).

(** [a & b] *)
Definition js_and (a b : Z) : Z := to_int32 (Z.land (to_int32 a) (to_int32 b)).

Fixpoint store_nat (u8 : list Z) (n : nat) (x : Z) : list Z :=
  match u8, n with
  | [], _ => []
  | _ :: t, O => x :: t
  | h :: t, S n' => h :: store_nat t n' x
  end.

(** [u8[offset] = x] on a [Uint8Array]: the value is reduced modulo 256;
    a store outside the array is ignored. *)
Definition store (u8 : list Z) (offset x : Z) : list Z :=
  if (0 <=? offset) && (offset <? len u8)
  then store_nat u8 (Z.to_nat offset) (x mod 256)
  else u8.

(* ================================================================= *)
(** ** The [crypto-js] word array *)

Record WordArray : Type := {
  words : list Z;
  sigBytes : Z
}.

(** Octet [j] (0 to 3, most significant first) of a word:
    [(word >>> (24 - j * 8)) & 0xff]. *)
Definition word_byte (word j : Z) : Z :=
  js_and (js_ushr word (24 - j * 8)) 255.

(** The word that the octets [bs] (at most four) fill from its most
    significant end: [word |= b << (24 - j * 8)] for each of them. *)
Fixpoint fill_word (word : Z) (j : Z) (bs : list Z) : Z :=
  match bs with
  | [] => word
  | b :: bs' => fill_word (js_or word (js_shl b (24 - j * 8))) (j + 1) bs'
  end.

(** [CryptoJS.lib.WordArray.create(uint8Array)]: octets are packed four
    to a word, big-endian; [sigBytes] is the number of octets. *)
Fixpoint pack_words (bs : list Z) : list Z :=
  match bs with
  | [] => []
  | [a] => [fill_word 0 0 [a]]
  | [a; b] => [fill_word 0 0 [a; b]]
  | [a; b; c] => [fill_word 0 0 [a; b; c]]
  | a :: b :: c :: d :: rest => fill_word 0 0 [a; b; c; d] :: pack_words rest
  end.

Definition WordArray_create (uint8Array : list Z) : WordArray :=
  {| words := pack_words uint8Array; sigBytes := len uint8Array |}.

(** The octets of a list of words, four for each word. *)
Definition words_bytes (ws : list Z) : list Z :=
  flat_map (fun w => map (word_byte w) [0; 1; 2; 3]) ws.

(** The significant octets of a word array: the first [sigBytes] octets
    of its words; a word that is not there reads as zero. *)
Definition wa_bytes (wa : WordArray) : list Z :=
  let n := Z.to_nat (sigBytes wa) in
  firstn n (words_bytes (words wa) ++ repeat 0 n).

(** [wordArray.toString()], that is [CryptoJS.enc.Hex.stringify]: two
    lower-case hexadecimal digits for each significant octet. *)
Definition Hex_stringify (wa : WordArray) : jsstring :=
  flat_map (fun bite => [hex_digit (js_ushr bite 4); hex_digit (js_and bite 15)])
           (wa_bytes wa).

(* ================================================================= *)
(** ** The host: what the code calls and the repository does not define *)

(** The engine's random source, the cipher and hex parser of
    [crypto-js], the engine's wording of its own exceptions, the lengths
    for which the engine can allocate the buffer of a typed array, and
    the behaviour of [new Uint8Array(v)] and [n < v] for a value [v]
    that is not an integer Number.

    How much memory an engine can give is not fixed by the language: an
    engine throws a RangeError when it cannot allocate the buffer.  The
    one thing expected of every engine here is that it can allocate the
    buffer of a file that [encryptFile] accepts (10 MiB at most). *)
Class Host : Type := {
  (** the words the secure random source yields, in order *)
  random_word : nat -> Z;
  (** [CryptoJS.AES.encrypt(message, key, { iv, mode: CBC, padding: Pkcs7 })] *)
  CipherParams : Type;
  AES_encrypt : WordArray -> WordArray -> WordArray -> CipherParams;
  (** [encrypted.toString()] *)
  CipherParams_toString : CipherParams -> jsstring;
  (** [CryptoJS.enc.Hex.parse(v)] *)
  Hex_parse : JsValue -> result WordArray;
  (** [CryptoJS.AES.decrypt(v, key, { iv, mode: CBC, padding: Pkcs7 })] *)
  AES_decrypt : JsValue -> WordArray -> WordArray -> result WordArray;
  (** whether the engine can allocate the buffer of
      [new Uint8Array(n)], for a length [n >= 0] *)
  Uint8Array_allocates : Z -> bool;
  Uint8Array_allocates_file :
    forall n, 0 <= n <= 10 * 1024 * 1024 -> Uint8Array_allocates n = true;
  (** [new Uint8Array(v)], [v] not a safe integer *)
  Uint8Array_dyn : JsValue -> result (list Z);
  (** [n < v], [v] not a safe integer *)
  lt_dyn : Z -> JsValue -> bool;
  (** [error.message] of an exception the engine raised *)
  engine_message : exn -> jsstring
}.

Section Program.

Context {host : Host}.

(** [error.message] *)
Definition message (error : exn) : jsstring :=
  match error with
  | Error m => m
  | _ => engine_message error
  end.

(** [CryptoJS.lib.WordArray.random(nBytes)]: one random word for every
    four octets asked for. *)
Definition WordArray_random (nBytes : Z) : M WordArray :=
  fun w =>
    let n := Z.to_nat ((nBytes + 3) / 4) in
    (inr {| words := map random_word (seq (rng_cursor w) n);
            sigBytes := nBytes |},
     {| rng_cursor := rng_cursor w + n;
        events := events w ++ [EvRandom nBytes] |}).

Definition encrypt (message key iv : WordArray) : M CipherParams :=
  emit EvEncrypt ;;; ret (AES_encrypt message key iv).

Definition decrypt (ciphertext : JsValue) (key iv : WordArray)
  : M WordArray :=
  emit EvDecrypt ;;; lift (AES_decrypt ciphertext key iv).

(** The integer a value denotes, when it is a Number that is an integer
    of magnitude at most [2^53 - 1]. *)
Definition safe_integer (v : JsValue) : option Z :=
  match v with
  | JNum n =>
      match num_int_value n with
      | Some z => if Z.abs z <=? 2 ^ 53 - 1 then Some z else None
      | None => None
      end
  | _ => None
  end.

(** [new Uint8Array(v)]: a zero-filled array of [v] octets; a
    RangeError for a negative length, and for a length whose buffer the
    engine cannot allocate. *)
Definition new_Uint8Array (v : JsValue) : result (list Z) :=
  match safe_integer v with
  | Some n =>
      if 0 <=? n then
        if Uint8Array_allocates n then inr (repeat 0 (Z.to_nat n))
        else inl RangeError_allocation
      else inl RangeError
  | None => Uint8Array_dyn v
  end.

(** [offset < v] *)
Definition js_lt (offset : Z) (v : JsValue) : bool :=
  match safe_integer v with
  | Some n => offset <? n
  | None => lt_dyn offset v
  end.

(* ----------------------------------------------------------------- *)
(** *** [encryptFile] *)

(** A [File]: its content; [file.size] is the number of its octets and
    [file.arrayBuffer()] yields them. *)
Record File : Type := { file_bytes : list Z }.

Definition size (file : File) : Z := len (file_bytes file).

Definition MAX_FILE_SIZE : Z := 10 * 1024 * 1024.

Definition encryptFile (file : File) : M jsstring :=
  try_catch
    ((* Check file size *)
     if size file >? MAX_FILE_SIZE then
       throw (Error (js "File size exceeds 10MB limit"))
     else
       (* Read file as ArrayBuffer *)
       let uint8Array := file_bytes file in
       (* Convert to WordArray for CryptoJS *)
       let wordArray := WordArray_create uint8Array in
       (* Generate a random key and IV *)
       key <- WordArray_random 32 ;;
       iv <- WordArray_random 16 ;;
       (* Encrypt the file content *)
       encrypted <- encrypt wordArray key iv ;;
       (* Combine the key, IV, and encrypted data *)
       let combined :=
         {| k := Hex_stringify key;
            i := Hex_stringify iv;
            d := CipherParams_toString encrypted;
            s := sigBytes wordArray |} in
       (* Convert to JSON and then to base64 with URL-safe characters *)
       let jsonString := JSON_stringify combined in
       octets <- lift (utf8_encode jsonString) ;;
       base64 <- lift (btoa octets) ;;
       ret (strip_trailing_eq
              (replace_all c_slash c_underscore
                 (replace_all c_plus c_minus base64))))
    (fun error =>
       console_error "Encryption error:" error ;;;
       throw (Error
                (if jsstring_eqb (message error)
                                 (js "File size exceeds 10MB limit")
                 then message error
                 else js "Failed to encrypt file. Please try again with a smaller file.")))
.

(* ----------------------------------------------------------------- *)
(** *** [decryptFile] *)

(** The inner loop: [for (j = 0; j < 4 && offset < sigBytes; j++)],
    run over the values [js] that [j] still has to take. *)
Fixpoint copy_word (sigBytes : JsValue) (word : Z) (js : list Z)
  (st : list Z * Z) : list Z * Z :=
  match js with
  | [] => st
  | j :: js' =>
      let (u8, offset) := st in
      if js_lt offset sigBytes then
        copy_word sigBytes word js'
          (store u8 offset (word_byte word j), offset + 1)
      else st
  end.

(** The outer loop:
    [for (i = 0; i < words.length && offset < sigBytes; i++)],
    run over the words that are left. *)
Fixpoint copy_words (sigBytes : JsValue) (words : list Z)
  (st : list Z * Z) : list Z * Z :=
  match words with
  | [] => st
  | word :: words' =>
      if js_lt (snd st) sigBytes then
        copy_words sigBytes words' (copy_word sigBytes word [0; 1; 2; 3] st)
      else st
  end.

(** [x || fallback] for a string [x] *)
Definition or_default (x : jsstring) (fallback : string) : jsstring :=
  match x with [] => js fallback | _ :: _ => x end.

(** Everything inside the outer [try] of [decryptFile]. *)
Definition decryptFile_body (base64Data fileName mimeType : jsstring)
  : M unit :=
  (* Input validation *)
  match base64Data with
  | [] => throw (Error (js "No data provided for decryption"))
  | _ :: _ =>
      (* Restore base64 padding *)
      let standardBase64 :=
        replace_all c_underscore c_slash
          (replace_all c_minus c_plus base64Data) in
      (* Add padding if necessary *)
      let standardBase64 := pad4 standardBase64 in
      (* Decode base64 to get the JSON string *)
      jsonStr <-
        try_catch
          (decodedData <- lift (atob standardBase64) ;;
           lift (utf8_decode decodedData))
          (fun error =>
             console_error "Base64 decoding error:" error ;;;
             throw (Error (js "Invalid file data format"))) ;;
      (* Parse JSON *)
      decryptionData <-
        try_catch
          (lift (JSON_parse jsonStr))
          (fun error =>
             console_error "JSON parsing error:" error ;;;
             throw (Error (js "Invalid file data structure"))) ;;
      (* Validate required fields *)
      dk <- lift (get_prop decryptionData "k") ;;
      di <- lift (get_prop decryptionData "i") ;;
      dd <- lift (get_prop decryptionData "d") ;;
      ds <- lift (get_prop decryptionData "s") ;;
      if negb (truthy dk) || negb (truthy di) || negb (truthy dd)
         || negb (truthy ds)
      then throw (Error (js "Incomplete file data"))
      else
        (* Convert key and IV from hex strings to WordArrays *)
        key <- lift (Hex_parse dk) ;;
        iv <- lift (Hex_parse di) ;;
        (* Decrypt the data *)
        decrypted <- decrypt dd key iv ;;
        (* Convert to Uint8Array *)
        let words := words decrypted in
        let sigBytes := ds in
        u8 <- lift (new_Uint8Array sigBytes) ;;
        let (u8, _) := copy_words sigBytes words (u8, 0) in
        (* Create and download the file *)
        emit (EvDownload (or_default fileName "downloaded-file")
                {| blob_bytes := u8;
                   blob_type := or_default mimeType "application/octet-stream" |}) ;;;
        (* Cleanup *)
        emit (EvSetTimeout 100)
  end.

Definition decryptFile (base64Data fileName mimeType : jsstring) : M unit :=
  try_catch
    (decryptFile_body base64Data fileName mimeType)
    (fun error =>
       console_error "Decryption error:" error ;;;
       throw (Error (js "Failed to decrypt file: " ++ message error))).

End Program.

(* ================================================================= *)
(** ** The callers in [App.tsx]

    [handleFileUpload] and [handleDownload] of the component [App] and
    [handleDownloadFile] of the component [AdminPanel] are the callers
    of [encryptFile] and [decryptFile].  They are embedded statement by
    statement over a trace of what they do: the events of the two
    library functions, the requests to the backend, the toasts, the
    console output and the state setters of React.  What the backend
    answers is not defined by the repository and is a parameter. *)

(** The code units of a literal of the source, which is written in
    UTF-8. *)
Definition js_utf8 (literal : string) : jsstring :=
  match utf8_decode (js literal) with
  | inr t => t
  | inl _ => []
  end.

(** What a [catch] of a handler can receive: an exception thrown by the
    two library functions or by the handler itself, or the [error]
    object of a backend response, of which the handlers read
    [message]. *)
Inductive Thrown : Type :=
| Exn (e : exn)
| PostgrestError (message : jsstring).

(** The [File] that the user picked: [file.name], [file.type] and the
    content, of which [file.size] is the length. *)
Record InputFile : Type := {
  file_name : jsstring;
  file_type : jsstring;
  file_content : File
}.

(** The [profile] of the component state; [handleFileUpload] reads
    [profile.id]. *)
Record Profile : Type := {
  profile_id : jsstring;
  profile_email : jsstring;
  profile_is_admin : bool
}.

(** The record that [handleFileUpload] inserts. *)
Record FileRow : Type := {
  row_name : jsstring;
  row_content : jsstring;
  row_size : Z;
  row_mime_type : jsstring;
  row_user_id : jsstring
}.

(** A file of the list, of which the download handlers read [id],
    [name], [mime_type] and [content]. *)
Record StoredFile : Type := {
  stored_id : jsstring;
  stored_name : jsstring;
  stored_mime_type : jsstring;
  stored_content : jsstring
}.

(** The answer to [select('content').eq('id', id).single()]: [error],
    given by its message when there is one, and [data?.content]. *)
Record SelectResponse : Type := {
  select_error : option jsstring;
  select_content : option jsstring
}.

(** The backend: the answer to the [n]-th request. *)
Class Backend : Type := {
  (** [error] of [supabase.from('files').insert(row)], by its message *)
  insert_response : nat -> FileRow -> option jsstring;
  select_response : nat -> jsstring -> SelectResponse
}.

Inductive AppEvent : Type :=
| Lib (ev : Event)                     (* inside encryptFile / decryptFile *)
| SetUploadLoading (b : bool)
| Insert (row : FileRow)
| SelectContent (id : jsstring)
| ToastSuccess (msg : jsstring)
| ToastError (msg : jsstring)
| ConsoleError (label : jsstring) (error : Thrown)
| FetchFiles.                          (* fetchFiles(), not awaited *)

Record AppWorld : Type := {
  rng : nat;                 (* random words consumed *)
  requests : nat;            (* requests sent to the backend *)
  trace : list AppEvent      (* oldest first *)
}.

Definition AppM (A : Type) : Type := AppWorld -> (Thrown + A) * AppWorld.

Definition app_ret (A : Type) (a : A) : AppM A := fun aw => (inr a, aw).

Definition app_throw (A : Type) (t : Thrown) : AppM A := fun aw => (inl t, aw).
Arguments app_throw {A} t.

Definition app_bind (A B : Type) (m : AppM A) (k : A -> AppM B) : AppM B :=
  fun aw =>
    match m aw with
    | (inl t, aw') => (inl t, aw')
    | (inr a, aw') => k a aw'
    end.

(** [try { m } catch (error) { h error }] *)
Definition app_try_catch (A : Type) (m : AppM A) (h : Thrown -> AppM A)
  : AppM A :=
  fun aw =>
    match m aw with
    | (inl t, aw') => h t aw'
    | (inr a, aw') => (inr a, aw')
    end.

(** [try { m } finally { f }], for an [f] that does not throw. *)
Definition app_finally (A : Type) (m : AppM A) (f : AppM unit) : AppM A :=
  fun aw =>
    match m aw with
    | (r, aw') =>
        match f aw' with
        | (inl t, aw'') => (inl t, aw'')
        | (inr _, aw'') => (r, aw'')
        end
    end.

Definition app_emit (ev : AppEvent) : AppM unit :=
  fun aw => (inr tt, {| rng := rng aw; requests := requests aw;
                        trace := trace aw ++ [ev] |}).

(** [await m] for one of the two library functions: its events join the
    trace, its exception is thrown on. *)
Definition lib (A : Type) (m : M A) : AppM A :=
  fun aw =>
    match m {| rng_cursor := rng aw; events := [] |} with
    | (r, w') =>
        (match r with inl e => inl (Exn e) | inr a => inr a end,
         {| rng := rng_cursor w'; requests := requests aw;
            trace := trace aw ++ map Lib (events w') |})
    end.

Declare Scope app_scope.
Delimit Scope app_scope with app.
Notation "x <- m ;; k" := (app_bind m (fun x => k))
  (at level 61, m at next level, right associativity) : app_scope.
Notation "m ;;; k" := (app_bind m (fun _ => k))
  (at level 61, right associativity) : app_scope.

Section Handlers.

Context {host : Host} {backend : Backend}.

Local Open Scope app_scope.

(** [error.message] *)
Definition thrown_message (error : Thrown) : jsstring :=
  match error with
  | Exn e => message e
  | PostgrestError m => m
  end.

(** [await supabase.from('files').insert(row)], of which the handler
    keeps [error]. *)
Definition files_insert (row : FileRow) : AppM (option jsstring) :=
  fun aw =>
    (inr (insert_response (requests aw) row),
     {| rng := rng aw; requests := S (requests aw);
        trace := trace aw ++ [Insert row] |}).

(** [await supabase.from('files').select('content').eq('id', id).single()] *)
Definition files_select_content (id : jsstring) : AppM SelectResponse :=
  fun aw =>
    (inr (select_response (requests aw) id),
     {| rng := rng aw; requests := S (requests aw);
        trace := trace aw ++ [SelectContent id] |}).

(** [x || fallback] for a string [x] and a literal of the source *)
Definition or_literal (x : jsstring) (fallback : string) : jsstring :=
  match x with [] => js_utf8 fallback | _ :: _ => x end.

(** [handleFileUpload] of [App]; [file] is [event.target.files?.[0]]. *)
Definition handleFileUpload (file : option InputFile)
  (profile : option Profile) : AppM unit :=
  match file, profile with
  | Some file, Some profile =>
      app_finally
        (app_try_catch
           (app_emit (SetUploadLoading true) ;;;
            encryptedContent <- lib (encryptFile (file_content file)) ;;
            error <- files_insert
                       {| row_name := file_name file;
                          row_content := encryptedContent;
                          row_size := size (file_content file);
                          row_mime_type := file_type file;
                          row_user_id := profile_id profile |} ;;
            match error with
            | Some m => app_throw (PostgrestError m)
            | None =>
                app_emit (ToastSuccess (js_utf8 "Файл успешно загружен")) ;;;
                app_emit FetchFiles
            end)
           (fun error =>
              app_emit (ConsoleError (js "Error uploading file:") error) ;;;
              app_emit (ToastError
                          (or_literal (thrown_message error)
                             "Ошибка загрузки файла"))))
        (app_emit (SetUploadLoading false))
  | _, _ => app_ret tt
  end.

(** [handleDownload] of [App]. *)
Definition handleDownload (file : StoredFile) : AppM unit :=
  app_try_catch
    (response <- files_select_content (stored_id file) ;;
     match select_error response with
     | Some m => app_throw (PostgrestError m)
     | None =>
         match select_content response with
         | None | Some [] =>
             app_throw (Exn (Error (js "File content not found")))
         | Some content =>
             lib (decryptFile content (stored_name file)
                    (stored_mime_type file)) ;;;
             app_emit (ToastSuccess (js_utf8 "Файл успешно скачан"))
         end
     end)
    (fun error =>
       app_emit (ConsoleError (js "Error downloading file:") error) ;;;
       app_emit (ToastError (js_utf8 "Ошибка при скачивании файла"))).

(** [handleDownloadFile] of [AdminPanel]. *)
Definition handleDownloadFile (file : StoredFile) : AppM unit :=
  app_try_catch
    (lib (decryptFile (stored_content file) (stored_name file)
            (stored_mime_type file)) ;;;
     app_emit (ToastSuccess (js_utf8 "Файл успешно скачан")))
    (fun error =>
       app_emit (ToastError (js_utf8 "Ошибка при скачивании файла"))).

End Handlers.

(* ================================================================= *)
(** ** The connection layer: [supabase.ts]

    The second half of [lib/api.ts] is the module [./supabase]: the
    connection state, the back-off delay, the timeout wrapper and the
    two retry loops [initializeSupabase] and [supabaseQuery].  They are
    embedded over a clock in milliseconds.  A promise is given by the
    time it takes to settle and by what it settles as; what the network
    answers is a parameter.

    A call is run from its start to its end.  The connection state is
    one object that all calls share, and a call gives way to the others
    at each [await]; what other calls in flight write in between is not
    part of a run, so the statements say what one call asks, logs and
    waits for, and what it writes itself. *)

(** A value that is thrown or that a promise rejects with: the code
    reads [error.status] and [error.message] of it.  [new Error(m)] has
    no [status]. *)
Record Raised : Type := {
  status : option Z;
  raised_message : jsstring
}.

Definition new_Error (m : jsstring) : Raised :=
  {| status := None; raised_message := m |}.

Inductive Settled (A : Type) : Type :=
| Fulfilled (a : A)
| Rejected (e : Raised).
Arguments Fulfilled {A} a.
Arguments Rejected {A} e.

(** A promise: the milliseconds after which it settles ([None]: never)
    and what it settles as. *)
Record Promise (A : Type) : Type := {
  settles_after : option Z;
  settles_as : Settled A
}.

(** [{ data, error }] *)
Record Response (T : Type) : Type := {
  data : option T;
  error : option Raised
}.

Definition MAX_RETRIES : Z := 3.
Definition INITIAL_RETRY_DELAY : Z := 1000.
Definition MAX_RETRY_DELAY : Z := 10000.
Definition CONNECTION_TIMEOUT : Z := 15000.

(** [connectionState]; [client] records whether the client exists. *)
Record ConnectionState : Type := {
  isConnected : bool;
  lastError : option jsstring;
  retryCount : Z;
  lastRetryTime : Z;
  client : bool
}.

Inductive NetEvent : Type :=
| CreateClient                         (* createClient(url, key, options) *)
| GetSession                           (* client.auth.getSession() *)
| Operation                            (* operation() *)
| NetConsoleError (label : jsstring) (e : Raised)
| Sleep (ms : Z).                      (* setTimeout(resolve, ms), awaited *)

Record NetWorld : Type := {
  clock : Z;                           (* Date.now() *)
  calls : nat;                         (* promises asked of the network *)
  connectionState : ConnectionState;
  net_log : list NetEvent
}.

(** A computation that returns, throws, or never settles ([None]). *)
Definition NetM (A : Type) : Type :=
  NetWorld -> option ((Raised + A) * NetWorld).

Definition net_ret (A : Type) (a : A) : NetM A := fun w => Some (inr a, w).

Definition net_throw (A : Type) (e : Raised) : NetM A :=
  fun w => Some (inl e, w).
Arguments net_throw {A} e.

Definition net_bind (A B : Type) (m : NetM A) (k : A -> NetM B) : NetM B :=
  fun w =>
    match m w with
    | None => None
    | Some (inl e, w') => Some (inl e, w')
    | Some (inr a, w') => k a w'
    end.

(** [try { m } catch (error) { h error }] *)
Definition net_try_catch (A : Type) (m : NetM A) (h : Raised -> NetM A)
  : NetM A :=
  fun w =>
    match m w with
    | None => None
    | Some (inl e, w') => h e w'
    | Some (inr a, w') => Some (inr a, w')
    end.

Definition net_emit (ev : NetEvent) : NetM unit :=
  fun w =>
    Some (inr tt, {| clock := clock w; calls := calls w;
                     connectionState := connectionState w;
                     net_log := net_log w ++ [ev] |}).

Definition get_state : NetM ConnectionState :=
  fun w => Some (inr (connectionState w), w).

Definition set_state (st : ConnectionState) : NetM unit :=
  fun w =>
    Some (inr tt, {| clock := clock w; calls := calls w;
                     connectionState := st; net_log := net_log w |}).

(** [Date.now()] *)
Definition Date_now : NetM Z := fun w => Some (inr (clock w), w).

(** [await p]: the clock moves to the time at which [p] settles. *)
Definition await (A : Type) (p : Promise A) : NetM A :=
  fun w =>
    match settles_after p with
    | None => None
    | Some ms =>
        let w' := {| clock := clock w + Z.max 0 ms; calls := calls w;
                     connectionState := connectionState w;
                     net_log := net_log w |} in
        match settles_as p with
        | Fulfilled a => Some (inr a, w')
        | Rejected e => Some (inl e, w')
        end
    end.

(** [await new Promise(resolve => setTimeout(resolve, ms))] *)
Definition sleep (ms : Z) : NetM unit :=
  fun w =>
    Some (inr tt, {| clock := clock w + Z.max 0 ms; calls := calls w;
                     connectionState := connectionState w;
                     net_log := net_log w ++ [Sleep ms] |}).

Declare Scope net_scope.
Delimit Scope net_scope with net.
Notation "x <- m ;; k" := (net_bind m (fun x => k))
  (at level 61, m at next level, right associativity) : net_scope.
Notation "m ;;; k" := (net_bind m (fun _ => k))
  (at level 61, right associativity) : net_scope.

(** The answer of [auth.getSession()]: [error], and the identifier
    [data.session.user.id] when there is a session. *)
Record SessionAnswer : Type := {
  session_error : option Raised;
  session_user : option jsstring
}.

(** The network: the promise that [auth.getSession()] returns when it
    is the [n]-th request, and which of two promises due in the same
    millisecond the event loop settles first. *)
Class Network : Type := {
  session_promise : nat -> Promise SessionAnswer;
  promise_first_on_tie : bool
}.

(** [error.status === code] *)
Definition status_is (error : Raised) (code : Z) : bool :=
  match status error with
  | Some c => c =? code
  | None => false
  end.

(** [x || fallback] for a string [x] *)
Definition str_or (x : jsstring) (fallback : jsstring) : jsstring :=
  match x with [] => fallback | _ :: _ => x end.

(** [getRetryDelay(retryCount)], for a count that is a non-negative
    integer: [Math.pow(2, retryCount)] is then the exact power of two. *)
Definition getRetryDelay (retryCount : Z) : Z :=
  let delay := INITIAL_RETRY_DELAY * 2 ^ retryCount in
  Z.min delay MAX_RETRY_DELAY.

Section Connection.

Context {network : Network}.

Local Open Scope net_scope.

(** [new Promise((_, reject) => setTimeout(() => reject(e), ms))]: a
    promise that rejects with [e] when the timer fires.  The clock of
    this model is the one of the timers: a timer fires when its delay
    has passed (a browser fires it no earlier, and possibly later), and
    the delay is one that [setTimeout] takes as it is, which it does up
    to [2^31 - 1]; the delays of the code are 15000 and below, that of
    a caller's [customTimeout] apart. *)
Definition rejects_after (T : Type) (ms : Z) (e : Raised) : Promise T :=
  {| settles_after := Some ms; settles_as := Rejected e |}.

(** [Promise.race([p, q])]: settles as the one of the two that settles
    first; the event loop decides between two that are due in the same
    millisecond. *)
Definition Promise_race (T : Type) (p q : Promise T) : Promise T :=
  match settles_after p, settles_after q with
  | Some a, Some b =>
      if (Z.max 0 a <? Z.max 0 b)
         || ((Z.max 0 a =? Z.max 0 b) && promise_first_on_tie)
      then p
      else q
  | Some _, None => p
  | None, _ => q
  end.

(** [withTimeout(promise, timeout)] *)
Definition withTimeout (T : Type) (promise : Promise T) (timeout : Z)
  : Promise T :=
  Promise_race promise
    (rejects_after T timeout (new_Error (js "Operation timed out"))).

(** [getSupabaseClient()]: the client is created once. *)
Definition getSupabaseClient : NetM unit :=
  st <- get_state ;;
  if negb (client st) then
    net_emit CreateClient ;;;
    set_state {| isConnected := isConnected st; lastError := lastError st;
                 retryCount := retryCount st;
                 lastRetryTime := lastRetryTime st; client := true |}
  else net_ret tt.

(** [client.auth.getSession()] *)
Definition auth_getSession : NetM (Promise SessionAnswer) :=
  fun w =>
    Some (inr (session_promise (calls w)),
          {| clock := clock w; calls := S (calls w);
             connectionState := connectionState w;
             net_log := net_log w ++ [GetSession] |}).

(** [for (let attempt = 0; attempt < MAX_RETRIES; attempt++) body]
    where [body] either leaves the function with a value ([Some]) or
    falls through to the next round ([None]); [after] is what follows
    the loop. *)
Fixpoint for_attempts (A : Type) (fuel : nat) (attempt : Z)
  (body : Z -> NetM (option A)) (after : NetM A) : NetM A :=
  match fuel with
  | O => fun _ => None
  | S fuel' =>
      if attempt <? MAX_RETRIES then
        r <- body attempt ;;
        match r with
        | Some a => net_ret a
        | None => for_attempts fuel' (attempt + 1) body after
        end
      else after
  end.

(** [`Connection attempt ${attempt + 1} failed:`] and the like *)
Definition attempt_label (what : string) (attempt : Z) : jsstring :=
  js what ++ JSON_number (attempt + 1) ++ js " failed:".

Definition initializeSupabase : NetM unit :=
  st <- get_state ;;
  if isConnected st then net_ret tt
  else
    for_attempts 4 0
      (fun attempt =>
         net_try_catch
           (getSupabaseClient ;;;
            (* Test connection with timeout *)
            p <- auth_getSession ;;
            await (withTimeout p CONNECTION_TIMEOUT) ;;;
            st <- get_state ;;
            set_state {| isConnected := true; lastError := None;
                         retryCount := 0;
                         lastRetryTime := lastRetryTime st;
                         client := client st |} ;;;
            net_ret (Some tt))
           (fun error =>
              st <- get_state ;;
              now <- Date_now ;;
              set_state {| isConnected := false;
                           lastError :=
                             Some (str_or (raised_message error)
                                     (js "Unknown error"));
                           retryCount := retryCount st + 1;
                           lastRetryTime := now;
                           client := client st |} ;;;
              net_emit (NetConsoleError
                          (attempt_label "Connection attempt " attempt)
                          error) ;;;
              if attempt <? MAX_RETRIES - 1 then
                sleep (getRetryDelay attempt) ;;;
                net_ret None
              else
                net_throw
                  (new_Error
                     (js "Failed to connect after " ++ JSON_number MAX_RETRIES
                      ++ js " attempts: " ++ raised_message error))))
      (net_ret tt).

(** [customTimeout || CONNECTION_TIMEOUT] *)
Definition timeout_or_default (customTimeout : option Z) : Z :=
  match customTimeout with
  | Some t => if t =? 0 then CONNECTION_TIMEOUT else t
  | None => CONNECTION_TIMEOUT
  end.

(** [operation()]: the promise that the [n]-th request returns. *)
Definition call_operation (T : Type) (operation : nat -> Promise (Response T))
  : NetM (Promise (Response T)) :=
  fun w =>
    Some (inr (operation (calls w)),
          {| clock := clock w; calls := S (calls w);
             connectionState := connectionState w;
             net_log := net_log w ++ [Operation] |}).

Definition supabaseQuery (T : Type)
  (operation : nat -> Promise (Response T)) (customTimeout : option Z)
  : NetM (option T) :=
  st <- get_state ;;
  (if negb (isConnected st) then initializeSupabase else net_ret tt) ;;;
  for_attempts 4 0
    (fun attempt =>
       net_try_catch
         (p <- call_operation operation ;;
          r <- await (withTimeout p (timeout_or_default customTimeout)) ;;
          match error r with
          | Some error =>
              if status_is error 401 then
                st <- get_state ;;
                set_state {| isConnected := false;
                             lastError := lastError st;
                             retryCount := retryCount st;
                             lastRetryTime := lastRetryTime st;
                             client := client st |} ;;;
                net_throw
                  (new_Error
                     (js "Authentication error. Please log in again."))
              else net_throw error
          | None => net_ret (Some (data r))
          end)
         (fun error =>
            net_emit (NetConsoleError
                        (attempt_label "Query attempt " attempt) error) ;;;
            if attempt <? MAX_RETRIES - 1 then
              sleep (getRetryDelay attempt) ;;;
              net_ret None
            else net_throw error))
    (net_throw (new_Error (js "Failed to execute query after all retries"))).

(** [getConnectionStatus()] *)
Record ConnectionStatus : Type := {
  status_isConnected : bool;
  status_lastError : option jsstring;
  status_retryCount : Z;
  status_lastRetryTime : Z
}.

Definition getConnectionStatus : NetM ConnectionStatus :=
  st <- get_state ;;
  net_ret {| status_isConnected := isConnected st;
             status_lastError := lastError st;
             status_retryCount := retryCount st;
             status_lastRetryTime := lastRetryTime st |}.

End Connection.

(* ================================================================= *)
(** ** The key management functions: [api.ts]

    The first half of [lib/api.ts]: the four functions behind the
    administrator's panel.  Each asks for the session (without a
    timeout), reads the profile of its user through [supabaseQuery] and
    then sends its own request the same way.  A request is named by the
    query that the code builds; what the database answers to it, the
    UUIDs that [crypto.randomUUID] draws and the digest of SHA-256 are
    parameters. *)

(** A row of [profiles] as selected: [is_admin] is a boolean or
    [null]. *)
Record ProfileRow : Type := { is_admin : option bool }.

(** [interface ApiKey] *)
Record ApiKey : Type := {
  key_id : jsstring;
  key_name : jsstring;
  key_created_at : jsstring;
  key_last_used_at : option jsstring;
  key_expires_at : option jsstring
}.

(** The queries that the four functions build. *)
Inductive Query : Type :=
| profiles_is_admin (id : jsstring)
    (* from('profiles').select('is_admin').eq('id', id).single() *)
| api_keys_insert (key name admin_id : jsstring)
    (expires_at : option jsstring)
    (* from('api_keys').insert({ key, name, admin_id, expires_at }) *)
| api_keys_select (admin_id : jsstring)
    (* from('api_keys').select('id, name, created_at, last_used_at,
       expires_at').eq('admin_id', admin_id).order('created_at', ...) *)
| api_keys_delete (id admin_id : jsstring)
    (* from('api_keys').delete().eq('id', id).eq('admin_id', admin_id) *)
| files_select_all.
    (* from('files').select('*').order('created_at', ...) *)

(** The type of [data] in the answer to a query. *)
Definition Rows (q : Query) : Type :=
  match q with
  | profiles_is_admin _ => ProfileRow
  | api_keys_insert _ _ _ _ => unit
  | api_keys_select _ => list ApiKey
  | api_keys_delete _ _ => unit
  | files_select_all => list JsValue
  end.

(** The database: the promise that the query [q] returns when it is the
    [n]-th request. *)
Class Database : Type := {
  respond : forall q : Query, nat -> Promise (Response (Rows q))
}.

(** [crypto.randomUUID()], by the number of the draw, and
    [SHA256(s).toString()], which is the digest in hexadecimal. *)
Class KeyTools : Type := {
  randomUUID : nat -> jsstring;
  SHA256_hex : jsstring -> jsstring
}.

(** [!profile?.is_admin] is false only for a row whose [is_admin] is
    [true]. *)
Definition truthy_is_admin (profile : option ProfileRow) : bool :=
  match profile with
  | Some {| is_admin := Some true |} => true
  | _ => false
  end.

(** [rows || []]: an array, also the empty one, is kept. *)
Definition rows_or_empty (A : Type) (rows : option (list A)) : list A :=
  match rows with
  | Some l => l
  | None => []
  end.

(** The world of the four functions: the world of the connection and
    the number of UUIDs drawn. *)
Record KeyWorld : Type := {
  net_world : NetWorld;
  drawn : nat
}.

Definition KeyM (A : Type) : Type :=
  KeyWorld -> option ((Raised + A) * KeyWorld).

Definition key_ret (A : Type) (a : A) : KeyM A := fun w => Some (inr a, w).

Definition key_throw (A : Type) (e : Raised) : KeyM A :=
  fun w => Some (inl e, w).
Arguments key_throw {A} e.

Definition key_bind (A B : Type) (m : KeyM A) (k : A -> KeyM B) : KeyM B :=
  fun w =>
    match m w with
    | None => None
    | Some (inl e, w') => Some (inl e, w')
    | Some (inr a, w') => k a w'
    end.

Definition key_try_catch (A : Type) (m : KeyM A) (h : Raised -> KeyM A)
  : KeyM A :=
  fun w =>
    match m w with
    | None => None
    | Some (inl e, w') => h e w'
    | Some (inr a, w') => Some (inr a, w')
    end.

(** A computation of the connection layer, run in that world. *)
Definition on_net (A : Type) (m : NetM A) : KeyM A :=
  fun w =>
    match m (net_world w) with
    | None => None
    | Some (r, w') => Some (r, {| net_world := w'; drawn := drawn w |})
    end.

Definition crypto_randomUUID {tools : KeyTools} : KeyM jsstring :=
  fun w =>
    Some (inr (randomUUID (drawn w)),
          {| net_world := net_world w; drawn := S (drawn w) |}).

Declare Scope key_scope.
Delimit Scope key_scope with key.
Notation "x <- m ;; k" := (key_bind m (fun x => k))
  (at level 61, m at next level, right associativity) : key_scope.
Notation "m ;;; k" := (key_bind m (fun _ => k))
  (at level 61, right associativity) : key_scope.

Section Api.

Context {network : Network} {database : Database} {tools : KeyTools}.

(** [createApiKey(name, expiresAt)].  [expiresAt] is given by the
    string that [toISOString()] returns for it, so it stands for a
    valid date. *)
Definition createApiKey (name : jsstring) (expiresAt : option jsstring)
  : KeyM jsstring :=
  (key_try_catch
     (p <- on_net auth_getSession ;;
      session <- on_net (await p) ;;
      match session_error session with
      | Some _ => key_throw (new_Error (js_utf8 "Ошибка аутентификации"))
      | None =>
      match session_user session with
      | None => key_throw (new_Error (js_utf8 "Необходима авторизация"))
      | Some user_id =>
          (* Проверяем, является ли пользователь администратором *)
          profile <- on_net (supabaseQuery
                               (respond (profiles_is_admin user_id)) None) ;;
          if negb (truthy_is_admin profile)
          then key_throw (new_Error (js_utf8 "Недостаточно прав"))
          else
            (* Генерируем случайный ключ *)
            uuid1 <- crypto_randomUUID ;;
            uuid2 <- crypto_randomUUID ;;
            let rawKey := uuid1 ++ uuid2 in
            (* Хэшируем ключ для хранения *)
            let hashedKey := SHA256_hex rawKey in
            on_net (supabaseQuery
                      (respond (api_keys_insert hashedKey name user_id
                                  expiresAt))
                      None) ;;;
            key_ret rawKey
      end
      end)
     (fun error =>
        on_net (net_emit (NetConsoleError (js "Error in createApiKey:")
                            error)) ;;;
        key_throw
          (new_Error
             (str_or (raised_message error)
                (js_utf8 "Не удалось создать API ключ")))))%key.

(** [getApiKeys()] *)
Definition getApiKeys : KeyM (list ApiKey) :=
  (key_try_catch
     (p <- on_net auth_getSession ;;
      session <- on_net (await p) ;;
      match session_error session with
      | Some _ => key_throw (new_Error (js_utf8 "Ошибка аутентификации"))
      | None =>
      match session_user session with
      | None => key_throw (new_Error (js_utf8 "Необходима авторизация"))
      | Some user_id =>
          (* Проверяем, является ли пользователь администратором *)
          profile <- on_net (supabaseQuery
                               (respond (profiles_is_admin user_id)) None) ;;
          if negb (truthy_is_admin profile)
          then key_throw (new_Error (js_utf8 "Недостаточно прав"))
          else
            keys <- on_net (supabaseQuery
                              (respond (api_keys_select user_id)) None) ;;
            key_ret (rows_or_empty keys)
      end
      end)
     (fun error =>
        on_net (net_emit (NetConsoleError (js "Error in getApiKeys:")
                            error)) ;;;
        key_throw
          (new_Error
             (str_or (raised_message error)
                (js_utf8 "Не удалось получить список API ключей")))))%key.

(** [deleteApiKey(id)] *)
Definition deleteApiKey (id : jsstring) : KeyM unit :=
  (key_try_catch
     (p <- on_net auth_getSession ;;
      session <- on_net (await p) ;;
      match session_error session with
      | Some _ => key_throw (new_Error (js_utf8 "Ошибка аутентификации"))
      | None =>
      match session_user session with
      | None => key_throw (new_Error (js_utf8 "Необходима авторизация"))
      | Some user_id =>
          (* Проверяем, является ли пользователь администратором *)
          profile <- on_net (supabaseQuery
                               (respond (profiles_is_admin user_id)) None) ;;
          if negb (truthy_is_admin profile)
          then key_throw (new_Error (js_utf8 "Недостаточно прав"))
          else
            on_net (supabaseQuery
                      (respond (api_keys_delete id user_id)) None) ;;;
            key_ret tt
      end
      end)
     (fun error =>
        on_net (net_emit (NetConsoleError (js "Error in deleteApiKey:")
                            error)) ;;;
        key_throw
          (new_Error
             (str_or (raised_message error)
                (js_utf8 "Не удалось удалить API ключ")))))%key.

(** [getFilesWithApiKey(apiKey)]: the body does not read [apiKey]. *)
Definition getFilesWithApiKey (apiKey : jsstring) : KeyM (list JsValue) :=
  (key_try_catch
     (p <- on_net auth_getSession ;;
      session <- on_net (await p) ;;
      match session_error session with
      | Some _ => key_throw (new_Error (js_utf8 "Ошибка аутентификации"))
      | None =>
      match session_user session with
      | None => key_throw (new_Error (js_utf8 "Необходима авторизация"))
      | Some user_id =>
          (* Проверяем, является ли пользователь администратором *)
          profile <- on_net (supabaseQuery
                               (respond (profiles_is_admin user_id)) None) ;;
          if negb (truthy_is_admin profile)
          then key_throw (new_Error (js_utf8 "Недостаточно прав"))
          else
            files <- on_net (supabaseQuery (respond files_select_all) None) ;;
            key_ret (rows_or_empty files)
      end
      end)
     (fun error =>
        on_net (net_emit (NetConsoleError (js "Error in getFilesWithApiKey:")
                            error)) ;;;
        key_throw
          (new_Error
             (str_or (raised_message error)
                (js_utf8 "Не удалось получить файлы")))))%key.

End Api.

(* ================================================================= *)
(** ** Derived notions used in the statements *)

Definition is_byte (b : Z) : Prop := 0 <= b < 256.

(** A character that [JSON.stringify] copies unchanged into a string
    literal and that UTF-8 leaves as one octet: printable ASCII other
    than the double quote and the backslash. *)
Definition plain_char (c : Z) : Prop :=
  32 <= c < 127 /\ c <> c_quote /\ c <> c_backslash.

(** Steps 2 of [decryptFile]: undo the URL-safe alphabet, pad, decode
    base64, decode UTF-8. *)
Definition transport_decode (base64Data : jsstring) : result jsstring :=
  match atob (pad4 (replace_all c_underscore c_slash
                      (replace_all c_minus c_plus base64Data))) with
  | inr decodedData => utf8_decode decodedData
  | inl e => inl e
  end.

(** Base64 in the URL-safe alphabet, without padding. *)
Definition base64url_nopad (octets : list Z) : jsstring :=
  strip_trailing_eq
    (replace_all c_slash c_underscore
       (replace_all c_plus c_minus (b64_encode octets))).

(** *** The wire format, by the standard

    Base 64 with the URL and filename safe alphabet of RFC 4648
    (section 5) and without padding (section 3.2), written from the
    RFC and not from the code: the octets are taken three at a time as
    one number of 24 bits, which is cut into four groups of 6 bits; a
    last group of one or two octets is completed with zero bits to 12
    or 18 bits and gives two or three characters; each group of 6 bits
    is the index of its character in the alphabet. *)
Definition base64url_alphabet : jsstring :=
  js "ABCDEFGHIJKLMNOPQRSTUVWXYZabcdefghijklmnopqrstuvwxyz0123456789-_".

Definition base64url_digit (v : Z) : Z :=
  nth (Z.to_nat v) base64url_alphabet 0.

Fixpoint rfc4648_base64url (octets : list Z) : jsstring :=
  match octets with
  | [] => []
  | [a] =>
      let n := a * 16 in
      [base64url_digit (n / 64); base64url_digit (n mod 64)]
  | [a; b] =>
      let n := (a * 256 + b) * 4 in
      [base64url_digit (n / 4096); base64url_digit (n / 64 mod 64);
       base64url_digit (n mod 64)]
  | a :: b :: c :: rest =>
      let n := a * 65536 + b * 256 + c in
      base64url_digit (n / 262144) :: base64url_digit (n / 4096 mod 64)
      :: base64url_digit (n / 64 mod 64) :: base64url_digit (n mod 64)
      :: rfc4648_base64url rest
  end.

(** [url] is [standard] with every [+] replaced by [-], every [/]
    replaced by [_], and the [=] that end it removed: [standard] is
    [kept] followed by [=] only, [kept] does not end with [=], and
    [url] is [kept], character by character, under the two
    replacements. *)
Definition url_safe_unpadded (standard url : jsstring) : Prop :=
  exists kept padding,
    standard = kept ++ repeat c_eq padding
    /\ (kept = [] \/ last kept 0 <> c_eq)
    /\ url = map (fun c => if c =? c_plus then c_minus
                           else if c =? c_slash then c_underscore
                           else c) kept.

(** A string literal whose content needs no escape. *)
Definition quoted (x : jsstring) : jsstring := c_quote :: x ++ [c_quote].

(** The JSON text of the envelope, written out. *)
Definition envelope_text (key_hex iv_hex cipher_text : jsstring) (n : Z)
  : jsstring :=
  js "{" ++ quoted (js "k") ++ js ":" ++ quoted key_hex
  ++ js "," ++ quoted (js "i") ++ js ":" ++ quoted iv_hex
  ++ js "," ++ quoted (js "d") ++ js ":" ++ quoted cipher_text
  ++ js "," ++ quoted (js "s") ++ js ":" ++ uint_chars (N.to_uint (Z.to_N n))
  ++ js "}".

(** The literal of a natural number: its digits, no fraction, no
    exponent. *)
Definition nat_literal (n : Z) : Decimal.decimal :=
  Decimal.Decimal (Decimal.Pos (N.to_uint (Z.to_N n))) Decimal.Nil.

(** The value that [JSON.parse] makes of the envelope text. *)
Definition envelope_value (key_hex iv_hex cipher_text : jsstring) (n : Z)
  : JsValue :=
  JObj [(js "k", JStr key_hex); (js "i", JStr iv_hex);
        (js "d", JStr cipher_text); (js "s", JNum (nat_literal n))].

(** The key and the IV that [encryptFile] draws in world [w]. *)
Definition drawn_key {host : Host} (w : World) : WordArray :=
  {| words := map random_word (seq (rng_cursor w) 8); sigBytes := 32 |}.

Definition drawn_iv {host : Host} (w : World) : WordArray :=
  {| words := map random_word (seq (rng_cursor w + 8) 4); sigBytes := 16 |}.

(** The world after the two draws and the encryption. *)
Definition after_encrypt (w : World) : World :=
  {| rng_cursor := rng_cursor w + 8 + 4;
     events := ((events w ++ [EvRandom 32]) ++ [EvRandom 16]) ++ [EvEncrypt] |}.

(** The world after one more event. *)
Definition logged (w : World) (ev : Event) : World :=
  {| rng_cursor := rng_cursor w; events := events w ++ [ev] |}.

(** *** What the code expects of the cipher *)

(** The text of a ciphertext is not empty and is made of plain
    characters (for [crypto-js] it is base64). *)
Definition cipher_text_plain (host : Host) : Prop :=
  forall message key iv,
    let t := CipherParams_toString (AES_encrypt message key iv) in
    t <> [] /\ Forall plain_char t.

(** Decrypting the text of a ciphertext, with key and IV parsed back
    from their hex text, gives a word array that starts with the octets
    that were encrypted. *)
Definition cipher_inverts (host : Host) : Prop :=
  forall octets key iv,
    Forall is_byte octets ->
    sigBytes key = 32 -> sigBytes iv = 16 ->
    exists key' iv' decrypted,
      Hex_parse (JStr (Hex_stringify key)) = inr key'
      /\ Hex_parse (JStr (Hex_stringify iv)) = inr iv'
      /\ AES_decrypt
           (JStr (CipherParams_toString
                    (AES_encrypt (WordArray_create octets) key iv)))
           key' iv' = inr decrypted
      /\ firstn (length octets) (words_bytes (words decrypted)) = octets.

(* ================================================================= *)
(** ** A reference host

    A host that computes, for running the model on concrete inputs: a
    linear-congruential random source, PKCS#7 padding with a toy
    additive cipher whose text is base64, a hex parser, and the
    exception texts of one engine; and a few sample inputs. *)

Module RefHost.

Definition ref_random_word (n : nat) : Z :=
  let x := (Z.of_nat n * 1664525 + 1013904223) mod 2 ^ 32 in
  Z.lxor x (Z.shiftr x 13) * 2246822519 mod 2 ^ 32.

(** PKCS#7: between 1 and 16 octets, each equal to their number. *)
Definition pkcs7_pad (octets : list Z) : list Z :=
  let n := 16 - len octets mod 16 in
  octets ++ repeat n (Z.to_nat n).

(** The toy cipher shifts every octet by a mask made of key and IV. *)
Definition mask (key iv : WordArray) : Z :=
  fold_right Z.add 0 (wa_bytes key ++ wa_bytes iv) mod 256.

Definition ref_encrypt (message key iv : WordArray) : WordArray :=
  WordArray_create
    (map (fun b => (b + mask key iv) mod 256) (pkcs7_pad (wa_bytes message))).

Definition ref_toString (c : WordArray) : jsstring :=
  b64_encode (wa_bytes c).

Definition hex_val0 (c : Z) : Z :=
  match hex_val c with Some v => v | None => 0 end.

Fixpoint hex_octets (s : jsstring) : list Z :=
  match s with
  | h :: l :: r => hex_val0 h * 16 + hex_val0 l :: hex_octets r
  | _ => []
  end.

Definition ref_Hex_parse (v : JsValue) : result WordArray :=
  match v with
  | JStr t => inr (WordArray_create (hex_octets t))
  | _ => inr {| words := []; sigBytes := 0 |}
  end.

Definition ref_decrypt (v : JsValue) (key iv : WordArray)
  : result WordArray :=
  match v with
  | JStr t =>
      match atob t with
      | inr c =>
          let p := map (fun b => (b - mask key iv) mod 256) c in
          inr {| words := pack_words p; sigBytes := len p - last p 0 |}
      | inl _ => inr {| words := []; sigBytes := 0 |}
      end
  | _ => inr {| words := []; sigBytes := 0 |}
  end.

Definition ref_message (e : exn) : jsstring :=
  match e with
  | Error m => m
  | TypeError_null p =>
      js "Cannot read properties of null (reading '" ++ p ++ js "')"
  | InvalidCharacterError => js "The string to be decoded is not correctly encoded."
  | URIError => js "URI malformed"
  | SyntaxError => js "Unexpected token in JSON"
  | RangeError => js "Invalid typed array length"
  | RangeError_allocation => js "Array buffer allocation failed"
  end.

(** An engine that allocates arrays of up to [2^32 - 1] octets. *)
Definition ref_allocates (n : Z) : bool := n <=? 4294967295.

Definition ref_allocates_file
  : forall n, 0 <= n <= 10 * 1024 * 1024 -> ref_allocates n = true :=
  fun n H => proj2 (Z.leb_le n 4294967295) ltac:(lia).

#[export] Instance ref_host : Host := {|
  random_word := ref_random_word;
  CipherParams := WordArray;
  AES_encrypt := ref_encrypt;
  CipherParams_toString := ref_toString;
  Hex_parse := ref_Hex_parse;
  AES_decrypt := ref_decrypt;
  Uint8Array_allocates := ref_allocates;
  Uint8Array_allocates_file := ref_allocates_file;
  Uint8Array_dyn := fun _ => inl RangeError;
  lt_dyn := fun _ _ => false;
  engine_message := ref_message
|}.

(** The initial world. *)
Definition w0 : World := {| rng_cursor := 0; events := [] |}.

(** The five-octet file 01 02 03 04 05, and a file of 10_485_761 zero
    octets. *)
Definition five_bytes : File := {| file_bytes := [1; 2; 3; 4; 5] |}.

Definition big_file : File :=
  {| file_bytes := repeat 0 (Z.to_nat 10485761) |}.

(** Key, IV and cipher text of [five_bytes] in the initial world, as
    the envelope carries them and as the library parses them back. *)
Definition key_hex5 : jsstring :=
  Hex_stringify
    {| words := map ref_random_word (seq 0 8); sigBytes := 32 |}.

Definition iv_hex5 : jsstring :=
  Hex_stringify
    {| words := map ref_random_word (seq 8 4); sigBytes := 16 |}.

Definition cipher_text5 : jsstring :=
  ref_toString
    (ref_encrypt (WordArray_create (file_bytes five_bytes))
       {| words := map ref_random_word (seq 0 8); sigBytes := 32 |}
       {| words := map ref_random_word (seq 8 4); sigBytes := 16 |}).

Definition key5 : WordArray := WordArray_create (hex_octets key_hex5).

Definition iv5 : WordArray := WordArray_create (hex_octets iv_hex5).

(** What decrypting [cipher_text5] gives: the five octets and eleven
    octets of padding, in four words. *)
Definition decrypted5 : WordArray :=
  {| words := [16909060; 84609803; 185273099; 185273099]; sigBytes := 5 |}.

(** An envelope with the fields of [five_bytes] but the length 40, one
    with the length [10^12], and one with the length 0. *)
Definition long_envelope : jsstring :=
  base64url_nopad (envelope_text key_hex5 iv_hex5 cipher_text5 40).

Definition huge_envelope : jsstring :=
  base64url_nopad
    (envelope_text key_hex5 iv_hex5 cipher_text5 1000000000000).

Definition zero_envelope : jsstring :=
  base64url_nopad (envelope_text key_hex5 iv_hex5 cipher_text5 0).

End RefHost.

(* ================================================================= *)
(** ** Auxiliary definitions for the proofs *)

Definition b64_alpha (c : Z) : Prop := exists v, b64_val c = Some v.

(** The characters of [b64_encode] before the padding, and the number
    of padding characters. *)
Fixpoint b64_core (l : list Z) : jsstring :=
  match l with
  | [] => []
  | [x] => [b64_char (x / 4); b64_char (x mod 4 * 16)]
  | [x; y] =>
      [b64_char (x / 4); b64_char (x mod 4 * 16 + y / 16);
       b64_char (y mod 16 * 4)]
  | x :: y :: z :: rest =>
      b64_char (x / 4) :: b64_char (x mod 4 * 16 + y / 16)
      :: b64_char (y mod 16 * 4 + z / 64) :: b64_char (z mod 64)
      :: b64_core rest
  end.

Fixpoint b64_npad (l : list Z) : nat :=
  match l with
  | [] => 0
  | [_] => 2
  | [_; _] => 1
  | _ :: _ :: _ :: rest => b64_npad rest
  end.

(** The six-bit values of the characters of [b64_core]. *)
Fixpoint sextets (l : list Z) : list Z :=
  match l with
  | [] => []
  | [x] => [x / 4; x mod 4 * 16]
  | [x; y] => [x / 4; x mod 4 * 16 + y / 16; y mod 16 * 4]
  | x :: y :: z :: rest =>
      x / 4 :: x mod 4 * 16 + y / 16 :: y mod 16 * 4 + z / 64 :: z mod 64
      :: sextets rest
  end.

(** One character through the URL-safe substitution and back. *)
Definition to_url (c : Z) : Z :=
  let c := if c =? c_plus then c_minus else c in
  if c =? c_slash then c_underscore else c.

Definition from_url (c : Z) : Z :=
  let c := if c =? c_minus then c_plus else c in
  if c =? c_underscore then c_slash else c.

Definition ascii_char (c : Z) : Prop := 0 <= c < 128.

(** The value that octets contribute to a word from position [j] on. *)
Fixpoint octets_value (j : Z) (bs : list Z) : Z :=
  match bs with
  | [] => 0
  | b :: bs' => b * 2 ^ (24 - j * 8) + octets_value (j + 1) bs'
  end.

(** The text of one octet. *)
Definition hex_pair (b : Z) : jsstring := [hex_digit (b / 16); hex_digit (b mod 16)].


(** The state of the copy loops when the octets [done] have been copied
    into an array of [n] octets. *)
Definition copied (n : Z) (done : list Z) : list Z * Z :=
  (done ++ repeat 0 (Z.to_nat (n - len done)), len done).

(** The copy loops with a store that refuses an index outside the
    array: [None] when some store would fall outside it. *)
Definition store_checked (u8 : list Z) (offset x : Z) : option (list Z) :=
  if (0 <=? offset) && (offset <? len u8) then Some (store u8 offset x)
  else None.

Fixpoint copy_word_checked {host : Host} (sigBytes : JsValue) (word : Z)
  (js : list Z) (st : list Z * Z) : option (list Z * Z) :=
  match js with
  | [] => Some st
  | j :: js' =>
      let (u8, offset) := st in
      if js_lt offset sigBytes then
        match store_checked u8 offset (word_byte word j) with
        | Some u8' => copy_word_checked sigBytes word js' (u8', offset + 1)
        | None => None
        end
      else Some st
  end.

Fixpoint copy_words_checked {host : Host} (sigBytes : JsValue)
  (words : list Z) (st : list Z * Z) : option (list Z * Z) :=
  match words with
  | [] => Some st
  | word :: words' =>
      if js_lt (snd st) sigBytes then
        match copy_word_checked sigBytes word [0; 1; 2; 3] st with
        | Some st' => copy_words_checked sigBytes words' st'
        | None => None
        end
      else Some st
  end.

(** The envelope [input] decodes and parses to an object whose members
    [k], [i], [d] are the non-empty strings [key_hex], [iv_hex],
    [cipher_text] and whose member [s] is the positive integer [n]. *)
Definition well_formed_envelope (input key_hex iv_hex cipher_text : jsstring)
  (n : Z) : Prop :=
  exists json ms ds,
    input <> []
    /\ transport_decode input = inr json
    /\ JSON_parse json = inr (JObj ms)
    /\ lookup (js "k") ms = Some (JStr key_hex) /\ key_hex <> []
    /\ lookup (js "i") ms = Some (JStr iv_hex) /\ iv_hex <> []
    /\ lookup (js "d") ms = Some (JStr cipher_text) /\ cipher_text <> []
    /\ lookup (js "s") ms = Some (JNum ds)
    /\ num_int_value ds = Some n /\ 0 < n <= 2 ^ 53 - 1.

(** The world after a run of [decryptFile] that delivered [u8]. *)
Definition delivered (w : World) (fileName mimeType : jsstring)
  (u8 : list Z) : World :=
  {| rng_cursor := rng_cursor w;
     events :=
       ((events w ++ [EvDecrypt])
        ++ [EvDownload (or_default fileName "downloaded-file")
              {| blob_bytes := u8;
                 blob_type := or_default mimeType "application/octet-stream" |}])
       ++ [EvSetTimeout 100] |}.

(** What the caller of [decryptFile] catches when the body threw
    [error]. *)
Definition surfaced {host : Host} (error : exn) : exn :=
  Error (js "Failed to decrypt file: " ++ message error).

(** The envelope that [encryptFile] returns for [file] in world [w]. *)
Definition envelope_of {host : Host} (file : File) (w : World) : jsstring :=
  base64url_nopad
    (envelope_text
       (Hex_stringify (drawn_key w)) (Hex_stringify (drawn_iv w))
       (CipherParams_toString
          (AES_encrypt (WordArray_create (file_bytes file))
             (drawn_key w) (drawn_iv w)))
       (size file)).


(** The file without content. *)
Definition empty_file : File := {| file_bytes := [] |}.

(** A lower-case hexadecimal digit. *)
Definition hex_char (c : Z) : Prop := 48 <= c <= 57 \/ 97 <= c <= 102.

(** What [decryptFile] gives for a field check that failed. *)
Definition incomplete_outcome (w : World) : result unit * World :=
  (inl (Error (js "Failed to decrypt file: Incomplete file data")),
   logged w (EvConsoleError (js "Decryption error:")
               (Error (js "Incomplete file data")))).

(* ================================================================= *)
(** ** Further notions used in the statements *)

(** A character of the URL-safe base64 alphabet: a letter, a digit,
    [-] or [_]. *)
Definition url_safe_char (c : Z) : Prop :=
  65 <= c <= 90 \/ 97 <= c <= 122 \/ 48 <= c <= 57
  \/ c = c_minus \/ c = c_underscore.

(** An event by which [decryptFile] hands a file to the browser. *)
Definition is_delivery (ev : Event) : bool :=
  match ev with
  | EvDownload _ _ | EvSetTimeout _ => true
  | _ => false
  end.

(** The world after the events [evs]. *)
Definition after (w : World) (evs : list Event) : World :=
  {| rng_cursor := rng_cursor w; events := events w ++ evs |}.

(** [decryptFile]'s own reading of its input: the standard alphabet,
    padded. *)
Definition standard_base64 (base64Data : jsstring) : jsstring :=
  pad4 (replace_all c_underscore c_slash
          (replace_all c_minus c_plus base64Data)).

(** A UTF-16 code unit. *)
Definition code_unit (c : Z) : Prop := 0 <= c < 65536.

(** The octets of one code unit that is not a surrogate. *)
Definition utf8_unit (c : Z) : list Z :=
  if c <? 128 then [c]
  else if c <? 2048 then [192 + c / 64; 128 + c mod 64]
  else [224 + c / 4096; 128 + c / 64 mod 64; 128 + c mod 64].

(** The octets of a surrogate pair. *)
Definition utf8_pair (c d : Z) : list Z :=
  let cp := (c - 55296) * 1024 + (d - 56320) + 65536 in
  [240 + cp / 262144; 128 + cp / 4096 mod 64;
   128 + cp / 64 mod 64; 128 + cp mod 64].


(** A string that [encodeURIComponent] accepts: no surrogate without
    its partner. *)
Definition encodable (s : jsstring) : Prop := exists o, utf8_encode s = inr o.

(** One more character in front of what the string parser returns. *)
Definition parse_cons (c : Z) (p : option (jsstring * jsstring))
  : option (jsstring * jsstring) :=
  match p with
  | Some (t, rest) => Some (c :: t, rest)
  | None => None
  end.

(** The text of a ciphertext is a string of code units. *)
Definition cipher_text_units (host : Host) : Prop :=
  forall message key iv,
    Forall code_unit (CipherParams_toString (AES_encrypt message key iv)).

(** The text of a ciphertext is not empty. *)
Definition cipher_text_nonempty (host : Host) : Prop :=
  forall message key iv,
    CipherParams_toString (AES_encrypt message key iv) <> [].

(** The object that [encryptFile] serialises for [file] in world [w]. *)
Definition combined_of {host : Host} (file : File) (w : World) : Combined :=
  {| k := Hex_stringify (drawn_key w);
     i := Hex_stringify (drawn_iv w);
     d := CipherParams_toString
            (AES_encrypt (WordArray_create (file_bytes file))
               (drawn_key w) (drawn_iv w));
     s := size file |}.

(** The world of the library functions inside a handler. *)
Definition inner (aw : AppWorld) : World :=
  {| rng_cursor := rng aw; events := [] |}.

(** The world of a handler after the events [evs] and [n] requests. *)
Definition app_after (aw : AppWorld) (n : nat) (evs : list AppEvent)
  : AppWorld :=
  {| rng := rng aw; requests := requests aw + n; trace := trace aw ++ evs |}.

(** The events of a delivery by [decryptFile], as a handler sees
    them. *)
Definition delivery (fileName mimeType : jsstring) (u8 : list Z)
  : list AppEvent :=
  [Lib EvDecrypt;
   Lib (EvDownload (or_default fileName "downloaded-file")
          {| blob_bytes := u8;
             blob_type := or_default mimeType "application/octet-stream" |});
   Lib (EvSetTimeout 100)].

(** The toasts of the download handlers. *)
Definition toast_downloaded : AppEvent :=
  ToastSuccess (js_utf8 "Файл успешно скачан").

Definition toast_download_failed : AppEvent :=
  ToastError (js_utf8 "Ошибка при скачивании файла").

(** The record that [handleFileUpload] inserts for [file] when
    [encryptFile] returned [envelope]. *)
Definition row_of (file : InputFile) (profile : Profile)
  (envelope : jsstring) : FileRow :=
  {| row_name := file_name file;
     row_content := envelope;
     row_size := size (file_content file);
     row_mime_type := file_type file;
     row_user_id := profile_id profile |}.

(** The world of [handleFileUpload] after the encryption and the
    request that inserts [row], and then the events [evs]. *)
Definition app_uploaded (aw : AppWorld) (row : FileRow)
  (evs : list AppEvent) : AppWorld :=
  {| rng := rng aw + 8 + 4;
     requests := S (requests aw);
     trace := trace aw
              ++ [SetUploadLoading true; Lib (EvRandom 32);
                  Lib (EvRandom 16); Lib EvEncrypt; Insert row]
              ++ evs |}.

(** *** A second host, and a backend

    A host as [ref_host] whose cipher text is the Latin-1 string of the
    octets, one code unit for each, so that it has control characters,
    quotes and characters outside ASCII; and a backend that accepts
    every record and holds no content. *)

Definition latin1_decrypt (v : JsValue) (key iv : WordArray)
  : result WordArray :=
  match v with
  | JStr t =>
      let p := map (fun b => (b - RefHost.mask key iv) mod 256) t in
      inr {| words := pack_words p; sigBytes := len p - last p 0 |}
  | _ => inr {| words := []; sigBytes := 0 |}
  end.

Definition latin1_host : Host := {|
  random_word := RefHost.ref_random_word;
  CipherParams := WordArray;
  AES_encrypt := RefHost.ref_encrypt;
  CipherParams_toString := wa_bytes;
  Hex_parse := RefHost.ref_Hex_parse;
  AES_decrypt := latin1_decrypt;
  Uint8Array_allocates := RefHost.ref_allocates;
  Uint8Array_allocates_file := RefHost.ref_allocates_file;
  Uint8Array_dyn := fun _ => inl RangeError;
  lt_dyn := fun _ _ => false;
  engine_message := RefHost.ref_message
|}.

(** A third host, which marks its cipher text with the prefix [?AA>]:
    in the JSON text of the envelope the characters [?] and [>] fall
    where base64 writes them as [/] and [+]. *)
Definition marked_host : Host := {|
  random_word := RefHost.ref_random_word;
  CipherParams := WordArray;
  AES_encrypt := RefHost.ref_encrypt;
  CipherParams_toString := fun c => js "?AA>" ++ RefHost.ref_toString c;
  Hex_parse := RefHost.ref_Hex_parse;
  AES_decrypt := RefHost.ref_decrypt;
  Uint8Array_allocates := RefHost.ref_allocates;
  Uint8Array_allocates_file := RefHost.ref_allocates_file;
  Uint8Array_dyn := fun _ => inl RangeError;
  lt_dyn := fun _ _ => false;
  engine_message := RefHost.ref_message
|}.

Definition empty_backend : Backend := {|
  insert_response := fun _ _ => None;
  select_response := fun _ _ =>
    {| select_error := None; select_content := None |}
|}.

(** The initial world of a handler, a picked file with the content of
    [five_bytes], one with no content, one over the bound, and a
    profile. *)
Definition aw0 : AppWorld := {| rng := 0; requests := 0; trace := [] |}.

Definition picked (content : File) : InputFile :=
  {| file_name := js "notes.txt"; file_type := js "text/plain";
     file_content := content |}.

Definition user1 : Profile :=
  {| profile_id := js "u1"; profile_email := js "u1@example.org";
     profile_is_admin := false |}.

(** An envelope with the fields of [five_bytes] and the length -1, and
    the object it parses to. *)
Definition negative_text : jsstring :=
  JSON_stringify {| k := RefHost.key_hex5; i := RefHost.iv_hex5;
                    d := RefHost.cipher_text5; s := -1 |}.

Definition negative_envelope : jsstring := base64url_nopad negative_text.

Definition minus_one : Decimal.decimal :=
  Decimal.Decimal (Decimal.Neg (Decimal.D1 Decimal.Nil)) Decimal.Nil.

Definition negative_members : list (jsstring * JsValue) :=
  [(js "k", JStr RefHost.key_hex5); (js "i", JStr RefHost.iv_hex5);
   (js "d", JStr RefHost.cipher_text5); (js "s", JNum minus_one)].

(** The envelope of [five_bytes] on the second host. *)
Definition latin1_envelope5 : jsstring :=
  match fst (encryptFile (host := latin1_host) RefHost.five_bytes RefHost.w0) with
  | inr envelope => envelope
  | inl _ => []
  end.

(* ----------------------------------------------------------------- *)
(** *** Notions used in the statements on the connection layer *)

(** The time that [await withTimeout(p, timeout)] takes. *)
Definition timed_wait {network : Network} (T : Type) (p : Promise T)
  (timeout : Z) : Z :=
  match settles_after (withTimeout p timeout) with
  | Some ms => Z.max 0 ms
  | None => 0
  end.

(** What the [try] of one round of [supabaseQuery] comes to when
    [operation()] returned [p]: the data it returns, or the error that
    the [catch] receives. *)
Definition round_result {network : Network} (T : Type)
  (p : Promise (Response T)) (timeout : Z) : Raised + option T :=
  match settles_as (withTimeout p timeout) with
  | Rejected e => inl e
  | Fulfilled r =>
      match error r with
      | Some e =>
          if status_is e 401
          then inl (new_Error (js "Authentication error. Please log in again."))
          else inl e
      | None => inr (data r)
      end
  end.

(** Whether that round cleared [isConnected]: the answer arrived and
    its error has the status 401. *)
Definition round_disconnects {network : Network} (T : Type)
  (p : Promise (Response T)) (timeout : Z) : bool :=
  match settles_as (withTimeout p timeout) with
  | Fulfilled r =>
      match error r with
      | Some e => status_is e 401
      | None => false
      end
  | Rejected _ => false
  end.

Definition disconnected (st : ConnectionState) : ConnectionState :=
  {| isConnected := false; lastError := lastError st;
     retryCount := retryCount st; lastRetryTime := lastRetryTime st;
     client := client st |}.

(** The world [ms] milliseconds and [n] requests later, in the state
    [st], after the events [evs]. *)
Definition net_after (w : NetWorld) (ms : Z) (n : nat)
  (st : ConnectionState) (evs : list NetEvent) : NetWorld :=
  {| clock := clock w + ms; calls := calls w + n;
     connectionState := st; net_log := net_log w ++ evs |}.

(** The state after a round on the promise [p]. *)
Definition after_round {network : Network} (T : Type)
  (st : ConnectionState) (p : Promise (Response T)) (timeout : Z)
  : ConnectionState :=
  if round_disconnects p timeout then disconnected st else st.

(** The [try] block and one round of the loop of [supabaseQuery], as
    they stand in its body. *)
Definition query_try {network : Network} (T : Type)
  (operation : nat -> Promise (Response T)) (customTimeout : option Z)
  : NetM (option (option T)) :=
  (p <- call_operation operation ;;
   r <- await (withTimeout p (timeout_or_default customTimeout)) ;;
   match error r with
   | Some error =>
       if status_is error 401 then
         st <- get_state ;;
         set_state {| isConnected := false;
                      lastError := lastError st;
                      retryCount := retryCount st;
                      lastRetryTime := lastRetryTime st;
                      client := client st |} ;;;
         net_throw
           (new_Error
              (js "Authentication error. Please log in again."))
       else net_throw error
   | None => net_ret (Some (data r))
   end)%net.

Definition query_round {network : Network} (T : Type)
  (operation : nat -> Promise (Response T)) (customTimeout : option Z)
  (attempt : Z) : NetM (option (option T)) :=
  net_try_catch
    (query_try operation customTimeout)
    (fun error =>
       net_emit (NetConsoleError
                   (attempt_label "Query attempt " attempt) error) ;;;
       if attempt <? MAX_RETRIES - 1 then
         sleep (getRetryDelay attempt) ;;;
         net_ret None
       else net_throw error)%net.

(** The wait for the [n]-th session request under the connection
    timeout, and what it settles as. *)
Definition session_wait {network : Network} (n : nat) : Z :=
  timed_wait (session_promise n) CONNECTION_TIMEOUT.

Definition session_result {network : Network} (n : nat)
  : Settled SessionAnswer :=
  settles_as (withTimeout (session_promise n) CONNECTION_TIMEOUT).

(** The state that a successful round of [initializeSupabase] leaves,
    and the state that a round failing with [e] at time [now] leaves. *)
Definition connected (st : ConnectionState) : ConnectionState :=
  {| isConnected := true; lastError := None; retryCount := 0;
     lastRetryTime := lastRetryTime st; client := true |}.

Definition failed (st : ConnectionState) (e : Raised) (now : Z)
  : ConnectionState :=
  {| isConnected := false;
     lastError := Some (str_or (raised_message e) (js "Unknown error"));
     retryCount := retryCount st + 1;
     lastRetryTime := now;
     client := true |}.

(** The event of the first use of the client. *)
Definition client_events (st : ConnectionState) : list NetEvent :=
  if client st then [] else [CreateClient].

(** One round of the loop of [initializeSupabase], as it stands in its
    body. *)
Definition connect_round {network : Network} (attempt : Z)
  : NetM (option unit) :=
  net_try_catch
    (getSupabaseClient ;;;
     p <- auth_getSession ;;
     await (withTimeout p CONNECTION_TIMEOUT) ;;;
     st <- get_state ;;
     set_state {| isConnected := true; lastError := None;
                  retryCount := 0;
                  lastRetryTime := lastRetryTime st;
                  client := client st |} ;;;
     net_ret (Some tt))%net
    (fun error =>
       st <- get_state ;;
       now <- Date_now ;;
       set_state {| isConnected := false;
                    lastError :=
                      Some (str_or (raised_message error)
                              (js "Unknown error"));
                    retryCount := retryCount st + 1;
                    lastRetryTime := now;
                    client := client st |} ;;;
       net_emit (NetConsoleError
                   (attempt_label "Connection attempt " attempt)
                   error) ;;;
       if attempt <? MAX_RETRIES - 1 then
         sleep (getRetryDelay attempt) ;;;
         net_ret None
       else
         net_throw
           (new_Error
              (js "Failed to connect after " ++ JSON_number MAX_RETRIES
               ++ js " attempts: " ++ raised_message error)))%net.

(** What [initializeSupabase] throws after the last round failed with
    [e]. *)
Definition gave_up (e : Raised) : Raised :=
  new_Error (js "Failed to connect after 3 attempts: " ++ raised_message e).

(** *** Sample networks and operations

    A network whose session requests are never answered; an operation
    that is answered with data, one that is never answered, and one
    whose first answer has the status 401; the state before the first
    connection and a connected state. *)

Definition never (A : Type) (a : A) : Promise A :=
  {| settles_after := None; settles_as := Fulfilled a |}.

Definition silent_network : Network := {|
  session_promise := fun _ =>
    never {| session_error := None; session_user := None |};
  promise_first_on_tie := true
|}.

(** A network whose first session request is never answered and whose
    later ones are answered after 25 ms. *)
Definition second_try_network : Network := {|
  session_promise := fun n =>
    if (n =? 0)%nat
    then never {| session_error := None; session_user := None |}
    else {| settles_after := Some 25;
            settles_as :=
              Fulfilled {| session_error := None; session_user := None |} |};
  promise_first_on_tie := true
|}.

Definition answered (n : nat) : Promise (Response Z) :=
  {| settles_after := Some 120;
     settles_as := Fulfilled {| data := Some 7; error := None |} |}.

Definition unanswered (n : nat) : Promise (Response Z) :=
  never {| data := None; error := None |}.

Definition unauthorized_once (n : nat) : Promise (Response Z) :=
  if (n =? 0)%nat
  then {| settles_after := Some 30;
          settles_as :=
            Fulfilled {| data := None;
                         error := Some {| status := Some 401;
                                          raised_message := js "JWT expired" |} |} |}
  else answered n.

Definition fresh_state : ConnectionState :=
  {| isConnected := false; lastError := None; retryCount := 0;
     lastRetryTime := 0; client := false |}.

Definition online_state : ConnectionState :=
  {| isConnected := true; lastError := None; retryCount := 0;
     lastRetryTime := 0; client := true |}.

Definition net0 (st : ConnectionState) : NetWorld :=
  {| clock := 0; calls := 0; connectionState := st; net_log := [] |}.

(** The world in which [initializeSupabase] has given up on the network
    that never answers. *)
Definition silent_failure : NetWorld :=
  match initializeSupabase (network := silent_network) (net0 fresh_state) with
  | Some (_, w') => w'
  | None => net0 fresh_state
  end.

(* ----------------------------------------------------------------- *)
(** *** Notions used in the statements on the key management functions *)

(** The frame that the four functions share, as it stands in each
    body: the session, the profile of its user, the refusals, and the
    [catch] with its [label] and its [fallback] message; [rest] is what
    a function does for an administrator. *)
Definition admin_only {network : Network} {database : Database} (A : Type)
  (label fallback : jsstring) (rest : jsstring -> KeyM A) : KeyM A :=
  (key_try_catch
     (p <- on_net auth_getSession ;;
      session <- on_net (await p) ;;
      match session_error session with
      | Some _ => key_throw (new_Error (js_utf8 "Ошибка аутентификации"))
      | None =>
      match session_user session with
      | None => key_throw (new_Error (js_utf8 "Необходима авторизация"))
      | Some user_id =>
          profile <- on_net (supabaseQuery
                               (respond (profiles_is_admin user_id)) None) ;;
          if negb (truthy_is_admin profile)
          then key_throw (new_Error (js_utf8 "Недостаточно прав"))
          else rest user_id
      end
      end)
     (fun error =>
        on_net (net_emit (NetConsoleError label error)) ;;;
        key_throw (new_Error (str_or (raised_message error) fallback))))%key.

(** The world of the four functions [ms] milliseconds and [n] requests
    later, in the connection state [st], after the events [evs]; no
    UUID was drawn. *)
Definition key_after (w : KeyWorld) (ms : Z) (n : nat)
  (st : ConnectionState) (evs : list NetEvent) : KeyWorld :=
  {| net_world := net_after (net_world w) ms n st evs; drawn := drawn w |}.

(** What the [catch] of the four functions does with [e] in the world
    [w]. *)
Definition caught (A : Type) (label fallback : jsstring) (e : Raised)
  (w : KeyWorld) : option ((Raised + A) * KeyWorld) :=
  Some (inl (new_Error (str_or (raised_message e) fallback)),
        key_after w 0 0 (connectionState (net_world w))
          [NetConsoleError label e]).

(** *** Sample session, database and tools

    A network on which the session request is answered after 40 ms with
    the given user, or with no session; a database whose profiles all
    have the given [is_admin] and which answers every other query
    without data and without an error; UUIDs that count the draws, and
    a digest that marks its argument. *)

Definition session_of (user : option jsstring) : Network := {|
  session_promise := fun _ =>
    {| settles_after := Some 40;
       settles_as :=
         Fulfilled {| session_error := None; session_user := user |} |};
  promise_first_on_tie := true
|}.

Definition profiles_with (admin : option bool) : Database := {|
  respond := fun q _ =>
    match q as q0 return Promise (Response (Rows q0)) with
    | profiles_is_admin _ =>
        {| settles_after := Some 60;
           settles_as :=
             Fulfilled {| data := Some {| is_admin := admin |};
                          error := None |} |}
    | api_keys_insert _ _ _ _ =>
        {| settles_after := Some 80;
           settles_as := Fulfilled {| data := None; error := None |} |}
    | api_keys_select _ =>
        {| settles_after := Some 80;
           settles_as := Fulfilled {| data := None; error := None |} |}
    | api_keys_delete _ _ =>
        {| settles_after := Some 80;
           settles_as := Fulfilled {| data := None; error := None |} |}
    | files_select_all =>
        {| settles_after := Some 80;
           settles_as := Fulfilled {| data := None; error := None |} |}
    end
|}.

Definition counting_tools : KeyTools := {|
  randomUUID := fun n => js "uuid-" ++ JSON_number (Z.of_nat n) ++ js ";";
  SHA256_hex := fun s => js "sha256:" ++ s
|}.

Definition key0 : KeyWorld :=
  {| net_world := net0 online_state; drawn := 0 |}.

(* ================================================================= *)
(** * Proofs *)

Unset Implicit Arguments.

(** ** Tactics *)

(** Splits on every integer comparison in the goal and lets [lia]
    close the branches. *)
Ltac cmp_cases :=
  repeat match goal with
    | |- context [?a <=? ?b] => destruct (Z.leb_spec a b)
    | |- context [?a <? ?b] => destruct (Z.ltb_spec a b)
    | |- context [?a =? ?b] => destruct (Z.eqb_spec a b)
    end;
  cbn [andb orb negb]; try lia; try congruence; try reflexivity.


Ltac inv H := inversion H; subst; clear H.

(** Linear arithmetic with division and remainder by constants. *)
Ltac dlia := Z.to_euclidean_division_equations; lia.

(** ** Lists three and four at a time *)

Lemma list_ind3 (A : Type) (P : list A -> Prop) :
  P [] -> (forall a, P [a]) -> (forall a b, P [a; b]) ->
  (forall a b c l, P l -> P (a :: b :: c :: l)) ->
  forall l, P l.
Proof.
  intros H0 H1 H2 H3.
  fix IH 1.
  intros [|a [|b [|c l]]];
    [apply H0 | apply H1 | apply H2 | apply H3; apply IH].
Qed.

Lemma list_ind4 (A : Type) (P : list A -> Prop) :
  P [] -> (forall a, P [a]) -> (forall a b, P [a; b]) ->
  (forall a b c, P [a; b; c]) ->
  (forall a b c d l, P l -> P (a :: b :: c :: d :: l)) ->
  forall l, P l.
Proof.
  intros H0 H1 H2 H3 H4.
  fix IH 1.
  intros [|a [|b [|c [|d l]]]];
    [apply H0 | apply H1 | apply H2 | apply H3 | apply H4; apply IH].
Qed.

Lemma len_app (A : Type) (l1 l2 : list A) : len (l1 ++ l2) = len l1 + len l2.
Proof. unfold len. rewrite length_app. lia. Qed.

Lemma len_cons (A : Type) (a : A) (l : list A) : len (a :: l) = 1 + len l.
Proof. unfold len. simpl length. lia. Qed.

Lemma len_nonneg (A : Type) (l : list A) : 0 <= len l.
Proof. unfold len. lia. Qed.

Lemma len_repeat (A : Type) (a : A) (n : nat) : len (repeat a n) = Z.of_nat n.
Proof. unfold len. now rewrite repeat_length. Qed.

(** ** Base64 *)

Lemma b64_val_inv c v :
  b64_val c = Some v ->
  0 <= v < 64
  /\ (65 <= c <= 90 \/ 97 <= c <= 122 \/ 48 <= c <= 57 \/ c = 43 \/ c = 47).
Proof.
  unfold b64_val, c_plus, c_slash.
  cmp_cases; intros E; inv E; lia.
Qed.

Lemma b64_val_char n : 0 <= n < 64 -> b64_val (b64_char n) = Some n.
Proof.
  intros Hn. unfold b64_char, c_plus, c_slash.
  destruct (Z.ltb_spec n 26);
    [|destruct (Z.ltb_spec n 52);
      [|destruct (Z.ltb_spec n 62); [|destruct (Z.eqb_spec n 62)]]];
    unfold b64_val, c_plus, c_slash; cmp_cases; f_equal; lia.
Qed.

Lemma b64_char_alpha n : 0 <= n < 64 -> b64_alpha (b64_char n).
Proof. intros Hn. exists n. now apply b64_val_char. Qed.

Lemma b64_alpha_plain c : b64_alpha c -> plain_char c.
Proof.
  intros [v Hv]. apply b64_val_inv in Hv.
  unfold plain_char, c_quote, c_backslash. lia.
Qed.

Lemma b64_encode_split l :
  b64_encode l = b64_core l ++ repeat c_eq (b64_npad l).
Proof.
  induction l as [| a | a b | a b c l IH] using list_ind3; try reflexivity.
  cbn [b64_encode b64_core b64_npad]. now rewrite IH.
Qed.

Lemma b64_npad_le l : (b64_npad l <= 2)%nat.
Proof. induction l using list_ind3; simpl; lia. Qed.

Lemma b64_core_alpha l : Forall is_byte l -> Forall b64_alpha (b64_core l).
Proof.
  unfold is_byte.
  induction l as [| a | a b | a b c l IH] using list_ind3; intros H.
  - constructor.
  - inv H. cbn [b64_core].
    repeat (apply Forall_cons; [apply b64_char_alpha; dlia|]). constructor.
  - inv H. inv H3. cbn [b64_core].
    repeat (apply Forall_cons; [apply b64_char_alpha; dlia|]). constructor.
  - inv H. inv H3. inv H4. cbn [b64_core].
    repeat (apply Forall_cons; [apply b64_char_alpha; dlia|]). auto.
Qed.

Lemma b64_core_len l : (len (b64_core l) + Z.of_nat (b64_npad l)) mod 4 = 0.
Proof.
  induction l as [| a | a b | a b c l IH] using list_ind3; try reflexivity.
  cbn [b64_core b64_npad]. rewrite !len_cons.
  replace (1 + (1 + (1 + (1 + len (b64_core l)))) + Z.of_nat (b64_npad l))
    with (len (b64_core l) + Z.of_nat (b64_npad l) + 1 * 4) by dlia.
  now rewrite Z.mod_add by dlia.
Qed.

Lemma b64_core_nil l : b64_core l = [] -> l = [].
Proof. destruct l as [|a [|b [|c l]]]; simpl; congruence. Qed.

Lemma b64_values_core l :
  Forall is_byte l -> b64_values (b64_core l) = Some (sextets l).
Proof.
  unfold is_byte.
  induction l as [| a | a b | a b c l IH] using list_ind3; intros H.
  - reflexivity.
  - inv H. cbn [b64_core b64_values sextets].
    now rewrite !b64_val_char by dlia.
  - inv H. inv H3. cbn [b64_core b64_values sextets].
    now rewrite !b64_val_char by dlia.
  - inv H. inv H3. inv H4. cbn [b64_core b64_values sextets].
    rewrite !b64_val_char by dlia. now rewrite IH.
Qed.

Lemma b64_octets_sextets l : Forall is_byte l -> b64_octets (sextets l) = l.
Proof.
  unfold is_byte.
  induction l as [| a | a b | a b c l IH] using list_ind3; intros H.
  - reflexivity.
  - inv H. cbn [sextets b64_octets]. f_equal. dlia.
  - inv H. inv H3. cbn [sextets b64_octets]. repeat f_equal; dlia.
  - inv H. inv H3. inv H4. cbn [sextets b64_octets].
    rewrite IH by assumption. repeat f_equal; dlia.
Qed.

Lemma b64_alpha_not_eq c : b64_alpha c -> c <> c_eq.
Proof. intros [v Hv]. apply b64_val_inv in Hv. unfold c_eq. lia. Qed.

Lemma filter_ws_id l :
  Forall (fun c => b64_alpha c \/ c = c_eq) l ->
  filter (fun c => negb (is_ascii_whitespace c)) l = l.
Proof.
  induction 1 as [|c l Hc _ IH]; [reflexivity|].
  cbn [filter]. rewrite IH.
  replace (is_ascii_whitespace c) with false; [reflexivity|].
  unfold is_ascii_whitespace.
  destruct Hc as [[v Hv]| ->]; [apply b64_val_inv in Hv|unfold c_eq];
    cmp_cases.
Qed.

Lemma Forall_rev_head (P : Z -> Prop) l a r :
  Forall P l -> rev l = a :: r -> P a.
Proof.
  intros H E. rewrite Forall_forall in H. apply H.
  apply in_rev. rewrite E. now left.
Qed.

Lemma drop_padding_core core n :
  Forall (fun c => c <> c_eq) core -> (n <= 2)%nat ->
  drop_padding (core ++ repeat c_eq n) = core.
Proof.
  intros Hcore Hn. unfold drop_padding.
  destruct n as [|[|[|n]]]; [| | |lia]; cbn [repeat].
  - rewrite app_nil_r.
    destruct (rev core) as [|a [|b r]] eqn:E; [reflexivity| |].
    + pose proof (Forall_rev_head _ _ _ _ Hcore E) as Ha.
      destruct (Z.eqb_spec a c_eq); [contradiction|reflexivity].
    + pose proof (Forall_rev_head _ _ _ _ Hcore E) as Ha.
      destruct (Z.eqb_spec a c_eq); [contradiction|reflexivity].
  - rewrite rev_app_distr. change (rev [c_eq]) with [c_eq]. cbn [app].
    destruct (rev core) as [|b r] eqn:E; rewrite Z.eqb_refl.
    + apply (f_equal (@rev Z)) in E. rewrite rev_involutive in E.
      now rewrite E.
    + pose proof (Forall_rev_head _ _ _ _ Hcore E) as Hb.
      destruct (Z.eqb_spec b c_eq); [contradiction|].
      rewrite <- E. apply rev_involutive.
  - rewrite rev_app_distr. change (rev [c_eq; c_eq]) with [c_eq; c_eq].
    cbn [app]. rewrite !Z.eqb_refl. apply rev_involutive.
Qed.

Lemma Forall_alpha_not_eq l :
  Forall b64_alpha l -> Forall (fun c => c <> c_eq) l.
Proof. apply Forall_impl. exact b64_alpha_not_eq. Qed.

(** [atob] undoes [btoa]. *)
Lemma atob_b64_encode l : Forall is_byte l -> atob (b64_encode l) = inr l.
Proof.
  intros Hl. unfold atob.
  pose proof (b64_core_alpha _ Hl) as Hcore.
  pose proof (b64_core_len l) as Hlen.
  pose proof (b64_npad_le l) as Hpad.
  rewrite b64_encode_split.
  rewrite filter_ws_id.
  2:{ apply Forall_app. split.
      - eapply Forall_impl; [|exact Hcore]. intros; now left.
      - apply Forall_forall. intros x Hx. right.
        now apply repeat_spec in Hx. }
  rewrite len_app, len_repeat, Hlen. cbn [Z.eqb].
  rewrite drop_padding_core by (auto using Forall_alpha_not_eq).
  destruct (Z.eqb_spec (len (b64_core l) mod 4) 1) as [E|_].
  { exfalso. revert Hlen. dlia. }
  rewrite b64_values_core by assumption.
  now rewrite b64_octets_sextets.
Qed.

(** *** The URL-safe alphabet and the padding *)

Lemma strip_trailing_eq_pad l n :
  strip_trailing_eq (l ++ repeat c_eq n) = strip_trailing_eq l.
Proof.
  unfold strip_trailing_eq.
  induction l as [|a l IH]; cbn [app fold_right].
  - induction n as [|n IHn]; [reflexivity|].
    cbn [repeat fold_right]. rewrite IHn. now rewrite Z.eqb_refl.
  - now rewrite IH.
Qed.

Lemma strip_trailing_eq_id l :
  Forall (fun c => c <> c_eq) l -> strip_trailing_eq l = l.
Proof.
  unfold strip_trailing_eq.
  induction 1 as [|a l Ha _ IH]; [reflexivity|].
  cbn [fold_right]. rewrite IH.
  destruct l; [|reflexivity].
  destruct (Z.eqb_spec a c_eq); [contradiction|reflexivity].
Qed.

Lemma pad4_core core n :
  (len core + Z.of_nat n) mod 4 = 0 -> (n <= 2)%nat ->
  pad4 core = core ++ repeat c_eq n.
Proof.
  intros Hlen Hn. unfold pad4.
  destruct n as [|[|[|n]]]; [| | |lia]; cbn [repeat pad_loop].
  - replace (len core mod 4 =? 0) with true
      by (symmetry; apply Z.eqb_eq; revert Hlen; dlia).
    now rewrite app_nil_r.
  - replace (len core mod 4 =? 0) with false
      by (symmetry; apply Z.eqb_neq; revert Hlen; dlia).
    rewrite len_app. change (len [c_eq]) with 1.
    replace ((len core + 1) mod 4 =? 0) with true
      by (symmetry; apply Z.eqb_eq; revert Hlen; dlia).
    reflexivity.
  - replace (len core mod 4 =? 0) with false
      by (symmetry; apply Z.eqb_neq; revert Hlen; dlia).
    rewrite len_app. change (len [c_eq]) with 1.
    replace ((len core + 1) mod 4 =? 0) with false
      by (symmetry; apply Z.eqb_neq; revert Hlen; dlia).
    rewrite !len_app. change (len [c_eq]) with 1.
    replace ((len core + 1 + 1) mod 4 =? 0) with true
      by (symmetry; apply Z.eqb_eq; revert Hlen; dlia).
    now rewrite <- app_assoc.
Qed.

(** The padding loop always reaches its exit test: the padded length
    is a multiple of four. *)
Lemma pad4_multiple s : len (pad4 s) mod 4 = 0.
Proof.
  unfold pad4. cbn [pad_loop]. rewrite !len_app. change (len [c_eq]) with 1.
  destruct (Z.eqb_spec (len s mod 4) 0) as [E0|N0]; [assumption|].
  destruct (Z.eqb_spec ((len s + 1) mod 4) 0) as [E1|N1].
  { rewrite len_app. change (len [c_eq]) with 1. assumption. }
  destruct (Z.eqb_spec ((len s + 1 + 1) mod 4) 0) as [E2|N2].
  { rewrite !len_app. change (len [c_eq]) with 1. assumption. }
  rewrite !len_app. change (len [c_eq]) with 1.
  revert N0 N1 N2. dlia.
Qed.

Lemma replace_to_url l :
  replace_all c_slash c_underscore (replace_all c_plus c_minus l)
  = map to_url l.
Proof. unfold replace_all. now rewrite map_map. Qed.

Lemma replace_from_url l :
  replace_all c_underscore c_slash (replace_all c_minus c_plus l)
  = map from_url l.
Proof. unfold replace_all. now rewrite map_map. Qed.

Lemma from_to_url c : b64_alpha c -> from_url (to_url c) = c.
Proof.
  intros [v Hv]. apply b64_val_inv in Hv.
  unfold from_url, to_url, c_plus, c_minus, c_slash, c_underscore.
  destruct (Z.eqb_spec c 43) as [->|N1]; [reflexivity|].
  destruct (Z.eqb_spec c 47) as [->|N2]; [reflexivity|].
  cbv beta iota zeta.
  destruct (Z.eqb_spec c 45); [lia|].
  destruct (Z.eqb_spec c 95); [lia|reflexivity].
Qed.

Lemma to_url_not_eq c : b64_alpha c -> to_url c <> c_eq.
Proof.
  intros [v Hv]. apply b64_val_inv in Hv.
  unfold to_url, c_plus, c_minus, c_slash, c_underscore, c_eq.
  destruct (Z.eqb_spec c 43) as [->|N1]; [discriminate|].
  destruct (Z.eqb_spec c 47) as [->|N2]; [discriminate|].
  cbv beta iota zeta. lia.
Qed.

Lemma map_to_url_pad n : map to_url (repeat c_eq n) = repeat c_eq n.
Proof. induction n; [reflexivity|]. cbn [repeat map]. now rewrite IHn. Qed.

(** The envelope string is the URL-safe form of the unpadded base64. *)
Lemma base64url_nopad_core l :
  Forall is_byte l -> base64url_nopad l = map to_url (b64_core l).
Proof.
  intros Hl. unfold base64url_nopad.
  rewrite replace_to_url, b64_encode_split, map_app, map_to_url_pad.
  rewrite strip_trailing_eq_pad. apply strip_trailing_eq_id.
  apply Forall_map. eapply Forall_impl; [|apply (b64_core_alpha _ Hl)].
  exact to_url_not_eq.
Qed.

(** The code's encoding and the encoding of RFC 4648 agree. *)
Lemma base64url_digit_char v :
  0 <= v < 64 -> to_url (b64_char v) = base64url_digit v.
Proof.
  intros Hv.
  assert (H : forallb (fun k => to_url (b64_char (Z.of_nat k))
                                =? base64url_digit (Z.of_nat k))
                (seq 0 64) = true) by (vm_compute; reflexivity).
  rewrite forallb_forall in H.
  specialize (H (Z.to_nat v)). rewrite Z2Nat.id in H by lia.
  apply Z.eqb_eq, H, in_seq. lia.
Qed.

Lemma rfc4648_base64url_core l :
  Forall is_byte l -> map to_url (b64_core l) = rfc4648_base64url l.
Proof.
  induction l as [| |a b|a b c l IH] using list_ind3; intros H.
  - reflexivity.
  - inversion H as [|? ? Ha _]; subst. unfold is_byte in Ha.
    cbn [b64_core map rfc4648_base64url]. cbv zeta.
    rewrite !base64url_digit_char by dlia.
    repeat (f_equal; try dlia).
  - inversion H as [|? ? Ha H1]; subst. inversion H1 as [|? ? Hb _]; subst.
    unfold is_byte in *.
    cbn [b64_core map rfc4648_base64url]. cbv zeta.
    rewrite !base64url_digit_char by dlia.
    repeat (f_equal; try dlia).
  - inversion H as [|? ? Ha H1]; subst. inversion H1 as [|? ? Hb H2]; subst.
    inversion H2 as [|? ? Hc H3]; subst. unfold is_byte in *.
    cbn [b64_core map rfc4648_base64url]. cbv zeta.
    rewrite !base64url_digit_char by dlia.
    rewrite <- (IH H3).
    repeat (f_equal; try dlia).
Qed.

Lemma Forall_last (A : Type) (P : A -> Prop) l d :
  Forall P l -> l <> [] -> P (last l d).
Proof.
  induction l as [|a l IH]; [congruence|]. intros H _.
  inversion H as [|? ? Ha Hl]; subst.
  destruct l as [|b l]; [exact Ha|]. apply IH; [exact Hl|discriminate].
Qed.

Lemma url_safe_unpadded_core l :
  Forall is_byte l ->
  url_safe_unpadded (b64_encode l) (map to_url (b64_core l)).
Proof.
  intros Hl. exists (b64_core l), (b64_npad l).
  split; [apply b64_encode_split|]. split.
  - destruct (b64_core l) as [|c0 r] eqn:E; [now left|right].
    rewrite <- E. apply b64_alpha_not_eq.
    apply Forall_last; [now apply b64_core_alpha|]. rewrite E. discriminate.
  - apply map_ext. intros c. unfold to_url. cbv zeta.
    destruct (Z.eqb_spec c c_plus) as [->|_]; reflexivity.
Qed.

Lemma map_from_to_url l :
  Forall b64_alpha l -> map from_url (map to_url l) = l.
Proof.
  induction 1 as [|c l Hc _ IH]; [reflexivity|].
  cbn [map]. now rewrite IH, from_to_url.
Qed.

(** Reversing the transport encoding gives back the octets. *)
Lemma atob_pad4_base64url l :
  Forall is_byte l ->
  atob (pad4 (replace_all c_underscore c_slash
                (replace_all c_minus c_plus (base64url_nopad l)))) = inr l.
Proof.
  intros Hl. rewrite replace_from_url, base64url_nopad_core by assumption.
  rewrite map_from_to_url by now apply b64_core_alpha.
  rewrite (pad4_core _ _ (b64_core_len l) (b64_npad_le l)).
  rewrite <- b64_encode_split. now apply atob_b64_encode.
Qed.

Lemma base64url_nopad_nonempty l :
  Forall is_byte l -> l <> [] -> base64url_nopad l <> [].
Proof.
  intros Hl Hne. rewrite base64url_nopad_core by assumption.
  intros E. apply map_eq_nil in E. now apply b64_core_nil in E.
Qed.

(** ** UTF-8 on ASCII text *)

Lemma plain_ascii c : plain_char c -> ascii_char c.
Proof. unfold plain_char, ascii_char. lia. Qed.

Lemma utf8_encode_ascii l : Forall ascii_char l -> utf8_encode l = inr l.
Proof.
  induction 1 as [|c l Hc _ IH]; [reflexivity|].
  cbn [utf8_encode]. rewrite IH.
  destruct (Z.ltb_spec c 128); [reflexivity|]. unfold ascii_char in Hc. lia.
Qed.

Lemma utf8_decode_ascii l : Forall ascii_char l -> utf8_decode l = inr l.
Proof.
  induction 1 as [|c l Hc _ IH]; [reflexivity|].
  cbn [utf8_decode]. rewrite IH.
  replace (in_range 0 127 c) with true; [reflexivity|].
  unfold in_range, ascii_char in *. cmp_cases.
Qed.

Lemma ascii_is_byte l : Forall ascii_char l -> Forall is_byte l.
Proof. apply Forall_impl. unfold ascii_char, is_byte. lia. Qed.

Lemma btoa_bytes l : Forall is_byte l -> btoa l = inr (b64_encode l).
Proof.
  intros H. unfold btoa.
  replace (forallb is_latin1 l) with true; [reflexivity|].
  symmetry. apply forallb_forall. rewrite Forall_forall in H.
  intros x Hx. specialize (H x Hx). unfold is_latin1, is_byte in *. cmp_cases.
Qed.

(** ** JSON text of the envelope *)

Lemma quote_body_plain l : Forall plain_char l -> quote_body l = l.
Proof.
  induction 1 as [|c l Hc _ IH]; [reflexivity|].
  cbn [quote_body]. rewrite IH.
  unfold plain_char, c_quote, c_backslash in Hc.
  unfold is_high_surrogate, is_low_surrogate, quote_char, c_quote, c_backslash.
  cmp_cases.
Qed.

Lemma JSON_quote_plain l : Forall plain_char l -> JSON_quote l = quoted l.
Proof. intros H. unfold JSON_quote, quoted. now rewrite quote_body_plain. Qed.

(** ** [JSON.parse] of the envelope text *)

Lemma parse_string_body_plain l rest :
  Forall plain_char l ->
  parse_string_body (l ++ c_quote :: rest) = Some (l, rest).
Proof.
  induction 1 as [|c l Hc _ IH]; cbn [app parse_string_body].
  - now rewrite Z.eqb_refl.
  - rewrite IH. unfold plain_char, c_quote, c_backslash in *. cmp_cases.
Qed.

Lemma read_digits_chars u rest :
  (forall c r, rest = c :: r -> is_digit c = false) ->
  read_digits (uint_chars u ++ rest) = (u, rest).
Proof.
  intros Hrest. induction u; cbn [uint_chars app read_digits];
    try (rewrite IHu; reflexivity).
  destruct rest as [|c r]; [reflexivity|].
  cbn [read_digits]. now rewrite (Hrest c r eq_refl).
Qed.

Lemma to_uint_unorm n : Decimal.unorm (N.to_uint n) = N.to_uint n.
Proof.
  rewrite <- (DecimalN.Unsigned.of_to n) at 2.
  now rewrite DecimalN.Unsigned.to_of.
Qed.

Lemma first_digit u c r :
  uint_chars u = c :: r -> is_digit c = true.
Proof. destruct u; cbn [uint_chars]; intros E; inv E; reflexivity. Qed.

Lemma read_int_part_chars u rest :
  unorm u = u ->
  (forall c r, rest = c :: r -> is_digit c = false) ->
  read_int_part (uint_chars u ++ rest) = Some (u, rest).
Proof.
  intros Hu Hrest.
  destruct u as [|u|u|u|u|u|u|u|u|u|u];
    try (unfold read_int_part; rewrite read_digits_chars by assumption;
         reflexivity).
  - discriminate Hu.
  - assert (u = Nil) as ->.
    { unfold unorm in Hu. cbn [nzhead] in Hu.
      destruct (nzhead u) eqn:E; try (now inv Hu).
      exfalso. apply (nzhead_nonzero u u). congruence. }
    reflexivity.
Qed.

Lemma parse_number_nat n rest :
  parse_number (uint_chars (N.to_uint n) ++ 125 :: rest)
  = Some (Decimal.Decimal (Decimal.Pos (N.to_uint n)) Decimal.Nil, 125 :: rest).
Proof.
  unfold parse_number.
  assert (Hd : forall c r, 125 :: rest = c :: r -> is_digit c = false).
  { intros c r E. now inv E. }
  destruct (uint_chars (N.to_uint n) ++ 125 :: rest) as [|c r] eqn:E.
  { destruct (uint_chars (N.to_uint n)); discriminate E. }
  assert (Hc : (c =? c_minus) = false).
  { destruct (uint_chars (N.to_uint n)) as [|c0 r0] eqn:E0.
    - now inv E.
    - inv E. apply first_digit in E0. unfold is_digit, c_minus in *.
      revert E0. cmp_cases. }
  rewrite Hc, <- E. rewrite read_int_part_chars; auto using to_uint_unorm.
Qed.


Ltac parse_step :=
  cbn [parse_value parse_members skip_ws is_json_ws is_digit Z.eqb Z.leb
       Z.compare Pos.compare Pos.compare_cont Pos.eqb orb andb negb
       c_quote c_colon c_comma c_minus].

Lemma parse_value_string fuel x rest :
  Forall plain_char x ->
  parse_value (S fuel) (c_quote :: x ++ c_quote :: rest) = Some (JStr x, rest).
Proof.
  intros Hx. parse_step.
  change 34 with c_quote. now rewrite parse_string_body_plain.
Qed.

Lemma uint_chars_head n rest :
  exists c r, uint_chars (N.to_uint n) ++ rest = c :: r /\ is_digit c = true.
Proof.
  destruct (uint_chars (N.to_uint n)) as [|c r] eqn:E.
  - exfalso. pose proof (to_uint_unorm n) as Hu.
    destruct (N.to_uint n); try discriminate E. discriminate Hu.
  - exists c, (r ++ rest). split; [reflexivity|]. eapply first_digit; eauto.
Qed.

Lemma parse_value_nat fuel n rest :
  parse_value (S fuel) (uint_chars (N.to_uint n) ++ 125 :: rest)
  = Some (JNum (Decimal.Decimal (Decimal.Pos (N.to_uint n)) Decimal.Nil),
          125 :: rest).
Proof.
  destruct (uint_chars_head n (125 :: rest)) as (c & r & E & Hc).
  pose proof (parse_number_nat n rest) as Hn. rewrite E in *.
  cbn [parse_value skip_ws].
  unfold is_digit in Hc.
  replace (is_json_ws c) with false
    by (unfold is_json_ws; revert Hc; cmp_cases).
  replace (c =? 123) with false by (revert Hc; cmp_cases).
  replace (c =? 91) with false by (revert Hc; cmp_cases).
  replace (c =? c_quote) with false by (unfold c_quote; revert Hc; cmp_cases).
  replace (is_digit c) with true by (unfold is_digit; revert Hc; cmp_cases).
  rewrite orb_true_r. now rewrite Hn.
Qed.

Lemma parse_members_string fuel key val rest :
  Forall plain_char key -> Forall plain_char val ->
  parse_members (S (S fuel))
    (c_quote :: key ++ c_quote :: c_colon :: c_quote :: val
               ++ c_quote :: c_comma :: rest)
  = match parse_members (S fuel) rest with
    | Some (ms, r) => Some ((key, JStr val) :: ms, r)
    | None => None
    end.
Proof.
  intros Hk Hv.
  cbn [parse_members skip_ws is_json_ws Z.eqb Pos.eqb orb c_quote].
  change 34 with c_quote. rewrite parse_string_body_plain by assumption.
  cbn [skip_ws is_json_ws Z.eqb Pos.eqb orb c_colon].
  change 34 with c_quote.
  rewrite parse_value_string by assumption.
  cbn [skip_ws is_json_ws Z.eqb Pos.eqb orb c_comma]. reflexivity.
Qed.

Lemma parse_members_nat fuel key n rest :
  Forall plain_char key ->
  parse_members (S (S fuel))
    (c_quote :: key ++ c_quote :: c_colon
               :: uint_chars (N.to_uint n) ++ 125 :: rest)
  = Some ([(key, JNum (Decimal.Decimal (Decimal.Pos (N.to_uint n))
                         Decimal.Nil))], rest).
Proof.
  intros Hk.
  cbn [parse_members skip_ws is_json_ws Z.eqb Pos.eqb orb c_quote].
  change 34 with c_quote. rewrite parse_string_body_plain by assumption.
  cbn [skip_ws is_json_ws Z.eqb Pos.eqb orb c_colon].
  rewrite parse_value_nat.
  cbn [skip_ws is_json_ws Z.eqb Pos.eqb orb]. reflexivity.
Qed.

Lemma envelope_text_eq kh ih ct n :
  envelope_text kh ih ct n
  = 123 :: c_quote :: [107] ++ c_quote :: c_colon :: c_quote :: kh
    ++ c_quote :: c_comma :: c_quote :: [105] ++ c_quote :: c_colon
    :: c_quote :: ih
    ++ c_quote :: c_comma :: c_quote :: [100] ++ c_quote :: c_colon
    :: c_quote :: ct
    ++ c_quote :: c_comma :: c_quote :: [115] ++ c_quote :: c_colon
    :: uint_chars (N.to_uint (Z.to_N n)) ++ 125 :: [].
Proof.
  unfold envelope_text, quoted.
  change (js "{") with [123]. change (js "k") with [107].
  change (js "i") with [105]. change (js "d") with [100].
  change (js "s") with [115]. change (js ":") with [c_colon].
  change (js ",") with [c_comma]. change (js "}") with [125].
  cbn [app]. repeat (rewrite <- ?app_assoc; cbn [app]). reflexivity.
Qed.

Lemma plain_letter c : 97 <= c <= 122 -> Forall plain_char [c].
Proof.
  intros H. constructor; [|constructor].
  unfold plain_char, c_quote, c_backslash. lia.
Qed.

Lemma parse_envelope_text kh ih ct n fuel :
  Forall plain_char kh -> Forall plain_char ih -> Forall plain_char ct ->
  (6 <= fuel)%nat ->
  parse_value fuel (envelope_text kh ih ct n)
  = Some (envelope_value kh ih ct n, []).
Proof.
  intros Hk Hi Hc Hf.
  do 6 (destruct fuel as [|fuel]; [lia|]). clear Hf.
  rewrite envelope_text_eq.
  cbn [parse_value skip_ws is_json_ws Z.eqb Pos.eqb orb c_quote].
  rewrite !parse_members_string by (assumption || (apply plain_letter; lia)).
  rewrite parse_members_nat by (apply plain_letter; lia).
  reflexivity.
Qed.

Lemma JSON_parse_envelope kh ih ct n :
  Forall plain_char kh -> Forall plain_char ih -> Forall plain_char ct ->
  JSON_parse (envelope_text kh ih ct n) = inr (envelope_value kh ih ct n).
Proof.
  intros Hk Hi Hc. unfold JSON_parse.
  rewrite parse_envelope_text; auto.
  rewrite envelope_text_eq. cbn [length]. lia.
Qed.

(** ** The fuel of [JSON_parse] is enough *)

Lemma skip_ws_length s : (length (skip_ws s) <= length s)%nat.
Proof.
  induction s as [|c s IH]; [reflexivity|].
  cbn [skip_ws]. destruct (is_json_ws c); cbn [length]; lia.
Qed.

Lemma skip_ws_cons s c r : skip_ws s = c :: r -> (length r < length s)%nat.
Proof.
  intros E. pose proof (skip_ws_length s) as H. rewrite E in H.
  cbn [length] in H. lia.
Qed.

Lemma parse_string_body_length_aux n : forall s t r,
  (length s <= n)%nat ->
  parse_string_body s = Some (t, r) -> (length r < length s)%nat.
Proof.
  induction n as [|n IH]; intros s t r Hn.
  { destruct s; [discriminate|cbn [length] in Hn; lia]. }
  destruct s as [|c s]; [discriminate|]. cbn [length] in Hn.
  cbn [parse_string_body].
  destruct (c =? c_quote).
  { intros E. inv E. cbn [length]. lia. }
  destruct (c =? c_backslash).
  - destruct s as [|e r1]; [discriminate|].
    destruct (e =? 117).
    + destruct r1 as [|h1 [|h2 [|h3 [|h4 r2]]]]; try discriminate.
      destruct (hex_val h1), (hex_val h2), (hex_val h3), (hex_val h4);
        try discriminate.
      destruct (parse_string_body r2) as [[t' rest]|] eqn:E; [|discriminate].
      intros H. inv H. apply IH in E; cbn [length] in *; lia.
    + match goal with
      | |- context [match ?x with Some _ => _ | None => _ end] =>
          destruct x; [|discriminate]
      end.
      destruct (parse_string_body r1) as [[t' rest]|] eqn:E; [|discriminate].
      intros H. inv H. apply IH in E; cbn [length] in *; lia.
  - destruct (c <? 32); [discriminate|].
    destruct (parse_string_body s) as [[t' rest]|] eqn:E; [|discriminate].
    intros H. inv H. apply IH in E; cbn [length] in *; lia.
Qed.

Lemma parse_string_body_length s t r :
  parse_string_body s = Some (t, r) -> (length r < length s)%nat.
Proof. apply (parse_string_body_length_aux (length s)). lia. Qed.

Lemma read_digits_length s : forall u r,
  read_digits s = (u, r) -> (length r <= length s)%nat.
Proof.
  induction s as [|c s IH]; intros u r; cbn [read_digits].
  - intros E. inv E. lia.
  - destruct (is_digit c).
    + destruct (read_digits s) as [u' r'] eqn:E. intros H. inv H.
      specialize (IH _ _ eq_refl). cbn [length]. lia.
    + intros E. inv E. lia.
Qed.

Lemma read_digits1_length s u r :
  read_digits1 s = Some (u, r) -> (length r <= length s)%nat.
Proof.
  unfold read_digits1. destruct (read_digits s) as [u' r'] eqn:E.
  apply read_digits_length in E.
  destruct u'; intros H; inv H; assumption.
Qed.

Lemma parse_number_length s d r :
  parse_number s = Some (d, r) -> (length r <= length s)%nat.
Proof.
  unfold parse_number.
  set (p := match s with
            | [] => (false, s)
            | c :: r0 => if c =? c_minus then (true, r0) else (false, s)
            end).
  assert (Hp : (length (snd p) <= length s)%nat).
  { subst p. destruct s as [|c r0]; [cbn; lia|].
    destruct (c =? c_minus); cbn [snd length]; lia. }
  destruct p as [neg s1]. cbn [snd] in Hp.
  destruct (read_int_part s1) as [[u s2]|] eqn:E1; [|discriminate].
  assert (H2 : (length s2 <= length s1)%nat).
  { unfold read_int_part in E1. destruct s1 as [|c r0]; [discriminate|].
    destruct (c =? 48); [inv E1; cbn [length]; lia|].
    destruct (is_digit c); [|discriminate].
    destruct (read_digits (c :: r0)) as [u' r'] eqn:E.
    inv E1. apply read_digits_length in E. exact E. }
  destruct (read_frac s2) as [[fr s3]|] eqn:E2; [|discriminate].
  assert (H3 : (length s3 <= length s2)%nat).
  { unfold read_frac in E2. destruct s2 as [|c r0]; [inv E2; lia|].
    destruct (c =? c_dot).
    - apply read_digits1_length in E2. cbn [length]. lia.
    - inv E2. lia. }
  destruct (read_exp s3) as [[oe s4]|] eqn:E3; [|discriminate].
  assert (H4 : (length s4 <= length s3)%nat).
  { unfold read_exp in E3. destruct s3 as [|c r0]; [inv E3; lia|].
    destruct ((c =? 101) || (c =? 69)); [|inv E3; lia].
    destruct r0 as [|sg r']; [discriminate|].
    destruct (sg =? c_minus).
    - destruct (read_digits1 r') as [[u' rest]|] eqn:E; [|discriminate].
      apply read_digits1_length in E. inv E3. cbn [length]. lia.
    - destruct (read_digits1 (if sg =? c_plus then r' else sg :: r'))
        as [[u' rest]|] eqn:E; [|discriminate].
      apply read_digits1_length in E. inv E3.
      destruct (sg =? c_plus); cbn [length] in *; lia. }
  destruct oe; intros H; inv H; lia.
Qed.

Lemma strip_prefix_length p : forall s r,
  strip_prefix p s = Some r -> (length r <= length s)%nat.
Proof.
  induction p as [|a p IH]; intros s r; cbn [strip_prefix].
  - intros E. inv E. lia.
  - destruct s as [|b s]; [discriminate|].
    destruct (a =? b); [|discriminate].
    intros E. apply IH in E. cbn [length]. lia.
Qed.

(** One step of case analysis on what the parser inspects, keeping the
    length facts of what it consumed. *)
Ltac parse_case IHv IHe IHm :=
  match goal with
  | |- context [match skip_ws ?s with _ => _ end] =>
      let E := fresh "Ews" in
      destruct (skip_ws s) eqn:E;
      [try discriminate|apply skip_ws_cons in E]
  | |- context [match parse_string_body ?s with _ => _ end] =>
      let E := fresh "Estr" in
      destruct (parse_string_body s) as [[? ?]|] eqn:E;
      [apply parse_string_body_length in E|try discriminate]
  | |- context [match parse_number ?s with _ => _ end] =>
      let E := fresh "Enum" in
      destruct (parse_number s) as [[? ?]|] eqn:E;
      [apply parse_number_length in E|try discriminate]
  | |- context [match strip_prefix ?p ?s with _ => _ end] =>
      let E := fresh "Epre" in
      destruct (strip_prefix p s) eqn:E;
      [apply strip_prefix_length in E|]
  | |- context [match parse_value ?f ?s with _ => _ end] =>
      let E := fresh "Ev" in
      destruct (parse_value f s) as [[? ?]|] eqn:E;
      [apply IHv in E|try discriminate]
  | |- context [match parse_elements ?f ?s with _ => _ end] =>
      let E := fresh "Ee" in
      destruct (parse_elements f s) as [[? ?]|] eqn:E;
      [apply IHe in E|try discriminate]
  | |- context [match parse_members ?f ?s with _ => _ end] =>
      let E := fresh "Em" in
      destruct (parse_members f s) as [[? ?]|] eqn:E;
      [apply IHm in E|try discriminate]
  | |- context [if ?b then _ else _] => destruct b
  end.

Ltac parse_leaf :=
  try discriminate;
  let H := fresh in
  intros H; inv H; cbn [length] in *; lia.

Lemma parse_rest_length f :
  (forall s v r, parse_value f s = Some (v, r) -> (length r <= length s)%nat)
  /\ (forall s vs r, parse_elements f s = Some (vs, r) ->
                     (length r <= length s)%nat)
  /\ (forall s ms r, parse_members f s = Some (ms, r) ->
                     (length r <= length s)%nat).
Proof.
  induction f as [|f (IHv & IHe & IHm)].
  { repeat split; intros; discriminate. }
  repeat split; intros s x r.
  - cbn [parse_value]. repeat parse_case IHv IHe IHm; parse_leaf.
  - cbn [parse_elements]. repeat parse_case IHv IHe IHm; parse_leaf.
  - cbn [parse_members]. repeat parse_case IHv IHe IHm; parse_leaf.
Qed.

Ltac fuel_case f0 f0' IH :=
  match goal with
  | |- context [parse_value f0 ?s] =>
      rewrite (proj1 (IH f0') s) by (cbn [length] in *; lia)
  | |- context [parse_elements f0 ?s] =>
      rewrite (proj1 (proj2 (IH f0')) s) by (cbn [length] in *; lia)
  | |- context [parse_members f0 ?s] =>
      rewrite (proj2 (proj2 (IH f0')) s) by (cbn [length] in *; lia)
  | |- context [match skip_ws ?s with _ => _ end] =>
      let E := fresh "Ews" in
      destruct (skip_ws s) eqn:E; [|apply skip_ws_cons in E]
  | |- context [match parse_string_body ?s with _ => _ end] =>
      let E := fresh "Estr" in
      destruct (parse_string_body s) as [[? ?]|] eqn:E;
      [apply parse_string_body_length in E|]
  | |- context [match parse_number ?s with _ => _ end] =>
      let E := fresh "Enum" in
      destruct (parse_number s) as [[? ?]|] eqn:E;
      [apply parse_number_length in E|]
  | |- context [match strip_prefix ?p ?s with _ => _ end] =>
      let E := fresh "Epre" in
      destruct (strip_prefix p s) eqn:E; [apply strip_prefix_length in E|]
  | |- context [match parse_value f0' ?s with _ => _ end] =>
      let E := fresh "Ev" in
      destruct (parse_value f0' s) as [[? ?]|] eqn:E;
      [apply (proj1 (parse_rest_length f0')) in E|]
  | |- context [match parse_elements f0' ?s with _ => _ end] =>
      let E := fresh "Ee" in
      destruct (parse_elements f0' s) as [[? ?]|] eqn:E;
      [apply (proj1 (proj2 (parse_rest_length f0'))) in E|]
  | |- context [match parse_members f0' ?s with _ => _ end] =>
      let E := fresh "Em" in
      destruct (parse_members f0' s) as [[? ?]|] eqn:E;
      [apply (proj2 (proj2 (parse_rest_length f0'))) in E|]
  | |- context [if ?b then _ else _] => destruct b
  end.

(** Beyond two units for every character, more fuel changes nothing. *)
Lemma parse_fuel_enough f : forall f',
  (forall s, (2 * length s + 1 <= f)%nat -> (2 * length s + 1 <= f')%nat ->
             parse_value f s = parse_value f' s)
  /\ (forall s, (2 * length s + 2 <= f)%nat -> (2 * length s + 2 <= f')%nat ->
                parse_elements f s = parse_elements f' s)
  /\ (forall s, (2 * length s + 1 <= f)%nat -> (2 * length s + 1 <= f')%nat ->
                parse_members f s = parse_members f' s).
Proof.
  induction f as [|f0 IH]; intros f'.
  { repeat split; intros; lia. }
  destruct f' as [|f0']; [repeat split; intros; lia|].
  repeat split; intros s Hf Hf'.
  - cbn [parse_value]. repeat fuel_case f0 f0' IH; reflexivity.
  - cbn [parse_elements]. repeat fuel_case f0 f0' IH; reflexivity.
  - cbn [parse_members]. repeat fuel_case f0 f0' IH; reflexivity.
Qed.

(** [JSON_parse] gives what the parser gives with any larger amount of
    fuel. *)
Lemma JSON_parse_fuel text fuel :
  (2 * length text + 2 <= fuel)%nat ->
  parse_value fuel text = parse_value (2 * length text + 2) text.
Proof. intros H. apply (parse_fuel_enough fuel); lia. Qed.

(** ** 32-bit words and their octets *)

Lemma to_uint32_to_int32 z : to_uint32 (to_int32 z) = to_uint32 z.
Proof.
  unfold to_uint32, to_int32. change (2 ^ 32) with 4294967296.
  change (2 ^ 31) with 2147483648.
  destruct (Z.ltb_spec (z mod 4294967296) 2147483648); dlia.
Qed.

Lemma to_int32_small z : 0 <= z < 2 ^ 31 -> to_int32 z = z.
Proof.
  unfold to_int32. change (2 ^ 32) with 4294967296.
  change (2 ^ 31) with 2147483648. intros H.
  rewrite Z.mod_small by lia.
  destruct (Z.ltb_spec z 2147483648); lia.
Qed.

Lemma lor_mod_pow2 a b n :
  0 <= n -> Z.lor a b mod 2 ^ n = Z.lor (a mod 2 ^ n) (b mod 2 ^ n).
Proof.
  intros Hn. rewrite <- !Z.land_ones by assumption.
  apply Z.land_lor_distr_l.
Qed.

Lemma to_uint32_js_or x y :
  to_uint32 (js_or x y) = Z.lor (to_uint32 x) (to_uint32 y).
Proof.
  unfold js_or. rewrite to_uint32_to_int32. unfold to_uint32 at 1.
  rewrite lor_mod_pow2 by lia.
  fold (to_uint32 (to_int32 x)). fold (to_uint32 (to_int32 y)).
  now rewrite !to_uint32_to_int32.
Qed.

Lemma to_uint32_js_shl b k :
  is_byte b -> 0 <= k <= 24 -> to_uint32 (js_shl b k) = b * 2 ^ k.
Proof.
  unfold is_byte. intros Hb Hk. unfold js_shl.
  rewrite to_uint32_to_int32.
  rewrite to_int32_small by (change (2 ^ 31) with 2147483648; lia).
  unfold to_uint32 at 2. change (2 ^ 32) with 4294967296.
  rewrite (Z.mod_small k) by lia.
  replace (k mod 32) with k by (symmetry; apply Z.mod_small; lia).
  rewrite Z.shiftl_mul_pow2 by lia.
  unfold to_uint32. apply Z.mod_small.
  assert (0 < 2 ^ k <= 2 ^ 24).
  { split; [apply Z.pow_pos_nonneg; lia|apply Z.pow_le_mono_r; lia]. }
  change (2 ^ 24) with 16777216 in *. change (2 ^ 32) with 4294967296. nia.
Qed.

Lemma lor_disjoint hi lo k :
  0 <= k -> 0 <= lo < 2 ^ k -> Z.lor (hi * 2 ^ k) lo = hi * 2 ^ k + lo.
Proof.
  intros Hk Hlo.
  rewrite <- Z.lxor_lor; [symmetry; apply Z.add_nocarry_lxor|].
  all: apply Z.bits_inj'; intros n Hn; rewrite Z.land_spec, Z.bits_0.
  all: destruct (Z.lt_ge_cases n k) as [Hlt|Hge].
  all: try (rewrite Z.mul_pow2_bits_low by lia; reflexivity).
  all: rewrite <- (Z.mod_small lo (2 ^ k)) by lia.
  all: rewrite Z.mod_pow2_bits_high by lia; apply andb_false_r.
Qed.

Lemma or_shl_step w hi b k :
  is_byte b -> 0 <= k <= 24 -> to_uint32 w = hi * 2 ^ (k + 8) ->
  to_uint32 (js_or w (js_shl b k)) = to_uint32 w + b * 2 ^ k.
Proof.
  intros Hb Hk Hw.
  rewrite to_uint32_js_or, to_uint32_js_shl, Hw by assumption.
  apply lor_disjoint; [lia|].
  unfold is_byte in Hb. rewrite Z.pow_add_r by lia.
  assert (0 < 2 ^ k) by (apply Z.pow_pos_nonneg; lia).
  change (2 ^ 8) with 256. nia.
Qed.

Lemma byte_of_shift w k :
  0 <= k <= 24 -> js_and (js_ushr w k) 255 = to_uint32 w / 2 ^ k mod 256.
Proof.
  intros Hk. unfold js_and, js_ushr.
  replace (to_uint32 k mod 32) with k.
  2:{ unfold to_uint32. change (2 ^ 32) with 4294967296.
      rewrite (Z.mod_small k) by lia. symmetry. apply Z.mod_small. lia. }
  rewrite Z.shiftr_div_pow2 by lia.
  set (x := to_uint32 w / 2 ^ k).
  rewrite (to_int32_small 255) by (change (2 ^ 31) with 2147483648; lia).
  change 255 with (Z.ones 8). rewrite Z.land_ones by lia.
  assert (E : to_int32 x mod 2 ^ 8 = x mod 2 ^ 8).
  { pose proof (to_uint32_to_int32 x) as H. unfold to_uint32 in H.
    change (2 ^ 32) with 4294967296 in H. change (2 ^ 8) with 256.
    revert H. dlia. }
  rewrite E. change (2 ^ 8) with 256.
  apply to_int32_small. change (2 ^ 31) with 2147483648. dlia.
Qed.

Lemma word_byte_spec w j :
  0 <= j <= 3 -> word_byte w j = to_uint32 w / 2 ^ (24 - j * 8) mod 256.
Proof. intros Hj. unfold word_byte. apply byte_of_shift. lia. Qed.

Lemma word_byte_range w j : 0 <= j <= 3 -> is_byte (word_byte w j).
Proof.
  intros Hj. rewrite word_byte_spec by assumption. unfold is_byte. dlia.
Qed.

(** ** Packing octets into words *)

Lemma fill_word_value bs : forall w j hi,
  Forall is_byte bs -> 0 <= j -> j + len bs <= 4 ->
  to_uint32 w = hi * 2 ^ (32 - j * 8) ->
  to_uint32 (fill_word w j bs) = to_uint32 w + octets_value j bs.
Proof.
  induction bs as [|b bs IH]; intros w j hi Hbs Hj Hlen Hw.
  - cbn [fill_word octets_value]. lia.
  - inv Hbs. rewrite len_cons in Hlen. pose proof (len_nonneg _ bs).
    cbn [fill_word octets_value].
    assert (Hstep : to_uint32 (js_or w (js_shl b (24 - j * 8)))
                    = to_uint32 w + b * 2 ^ (24 - j * 8)).
    { apply (or_shl_step w hi); [assumption|lia|].
      rewrite Hw. do 2 f_equal. lia. }
    rewrite (IH _ (j + 1) (hi * 256 + b)); auto; try lia.
    rewrite Hstep, Hw.
    replace (32 - j * 8) with (24 - j * 8 + 8) by lia.
    replace (32 - (j + 1) * 8) with (24 - j * 8) by lia.
    rewrite Z.pow_add_r by lia. change (2 ^ 8) with 256. lia.
Qed.

Lemma fill_word_0 bs :
  Forall is_byte bs -> len bs <= 4 ->
  to_uint32 (fill_word 0 0 bs) = octets_value 0 bs.
Proof.
  intros Hbs Hlen.
  rewrite (fill_word_value bs 0 0 0); auto; try lia.
Qed.

Lemma word_bytes_of w a b c d :
  is_byte a -> is_byte b -> is_byte c -> is_byte d ->
  to_uint32 w = a * 16777216 + b * 65536 + c * 256 + d ->
  map (word_byte w) [0; 1; 2; 3] = [a; b; c; d].
Proof.
  unfold is_byte. intros Ha Hb Hc Hd Hw. cbn [map].
  rewrite !word_byte_spec by lia. rewrite Hw.
  change (2 ^ (24 - 0 * 8)) with 16777216.
  change (2 ^ (24 - 1 * 8)) with 65536.
  change (2 ^ (24 - 2 * 8)) with 256.
  change (2 ^ (24 - 3 * 8)) with 1.
  repeat f_equal; dlia.
Qed.

Ltac bytes_tac := repeat (apply Forall_cons; [assumption|]); apply Forall_nil.

(** The octets of the packed words are the octets that were packed,
    followed by at most three zeros. *)
Lemma words_bytes_pack bs :
  Forall is_byte bs ->
  exists tail, words_bytes (pack_words bs) = bs ++ tail
               /\ Forall is_byte tail.
Proof.
  assert (Z0 : is_byte 0) by (unfold is_byte; lia).
  induction bs as [| a | a b | a b c | a b c d bs IH] using list_ind4;
    intros H.
  - exists []. split; [reflexivity|constructor].
  - inv H. exists [0; 0; 0]. split; [|bytes_tac].
    cbn [pack_words words_bytes flat_map app].
    apply (word_bytes_of _ a 0 0 0); auto.
    rewrite fill_word_0 by (first [bytes_tac | cbn; lia]).
    cbn. lia.
  - inv H. inv H3. exists [0; 0]. split; [|bytes_tac].
    cbn [pack_words words_bytes flat_map app].
    apply (word_bytes_of _ a b 0 0); auto.
    rewrite fill_word_0 by (first [bytes_tac | cbn; lia]).
    cbn. lia.
  - inv H. inv H3. inv H4. exists [0]. split; [|bytes_tac].
    cbn [pack_words words_bytes flat_map app].
    apply (word_bytes_of _ a b c 0); auto.
    rewrite fill_word_0 by (first [bytes_tac | cbn; lia]).
    cbn. lia.
  - inv H. inv H3. inv H4. inv H5.
    destruct (IH H6) as (tail & E & Ht). exists tail. split; [|assumption].
    cbn [pack_words]. unfold words_bytes in *. cbn [flat_map].
    rewrite E.
    rewrite (word_bytes_of _ a b c d); auto.
    rewrite fill_word_0 by (first [bytes_tac | cbn; lia]).
    cbn. lia.
Qed.

Lemma words_bytes_range ws : Forall is_byte (words_bytes ws).
Proof.
  induction ws as [|w ws IH]; [constructor|].
  unfold words_bytes in *. cbn [flat_map map].
  repeat (apply Forall_cons; [apply word_byte_range; lia|]). exact IH.
Qed.

Lemma Forall_firstn_of (A : Type) (P : A -> Prop) n l :
  Forall P l -> Forall P (firstn n l).
Proof.
  intros H. revert n. induction H as [|a l Ha _ IH]; intros [|n];
    cbn [firstn]; constructor; auto.
Qed.

Lemma wa_bytes_range wa : Forall is_byte (wa_bytes wa).
Proof.
  unfold wa_bytes. apply Forall_firstn_of. apply Forall_app. split.
  - apply words_bytes_range.
  - apply Forall_forall. intros x Hx. apply repeat_spec in Hx. subst.
    unfold is_byte. lia.
Qed.

Lemma firstn_length_app (A : Type) (l l' : list A) :
  firstn (length l) (l ++ l') = l.
Proof.
  rewrite firstn_app, Nat.sub_diag, firstn_all. cbn [firstn].
  apply app_nil_r.
Qed.

Lemma wa_bytes_create bs :
  Forall is_byte bs -> wa_bytes (WordArray_create bs) = bs.
Proof.
  intros H. unfold wa_bytes, WordArray_create. cbn [sigBytes words].
  destruct (words_bytes_pack bs H) as (tail & E & _). rewrite E.
  unfold len. rewrite Nat2Z.id, <- app_assoc. apply firstn_length_app.
Qed.

(** ** Hexadecimal text *)

Lemma js_ushr_byte b : is_byte b -> js_ushr b 4 = b / 16.
Proof.
  unfold is_byte. intros Hb. unfold js_ushr, to_uint32.
  change (2 ^ 32) with 4294967296. rewrite (Z.mod_small b) by lia.
  change (4 mod 4294967296 mod 32) with 4.
  now rewrite Z.shiftr_div_pow2 by lia.
Qed.

Lemma js_and_byte b : is_byte b -> js_and b 15 = b mod 16.
Proof.
  unfold is_byte. intros Hb.
  unfold js_and.
  rewrite (to_int32_small b), (to_int32_small 15)
    by (change (2 ^ 31) with 2147483648; lia).
  change 15 with (Z.ones 4). rewrite Z.land_ones by lia.
  change (2 ^ 4) with 16.
  apply to_int32_small. change (2 ^ 31) with 2147483648. dlia.
Qed.

Lemma hex_val_digit n : 0 <= n < 16 -> hex_val (hex_digit n) = Some n.
Proof.
  intros Hn. unfold hex_digit.
  destruct (Z.ltb_spec n 10); unfold hex_val, is_digit; cmp_cases;
    f_equal; lia.
Qed.

Lemma hex_digit_plain n : 0 <= n < 16 -> plain_char (hex_digit n).
Proof.
  intros Hn. unfold hex_digit, plain_char, c_quote, c_backslash.
  destruct (Z.ltb_spec n 10); lia.
Qed.

Lemma Hex_stringify_pairs wa :
  Hex_stringify wa = flat_map hex_pair (wa_bytes wa).
Proof.
  unfold Hex_stringify. pose proof (wa_bytes_range wa) as H.
  induction H as [|b l Hb _ IH]; [reflexivity|].
  cbn [flat_map]. rewrite IH. unfold hex_pair.
  now rewrite js_ushr_byte, js_and_byte.
Qed.

Lemma Hex_stringify_plain wa : Forall plain_char (Hex_stringify wa).
Proof.
  rewrite Hex_stringify_pairs. pose proof (wa_bytes_range wa) as H.
  induction H as [|b l Hb _ IH]; [constructor|].
  cbn [flat_map hex_pair app]. unfold is_byte in Hb.
  repeat (apply Forall_cons; [apply hex_digit_plain; dlia|]). exact IH.
Qed.

Lemma wa_bytes_length wa : length (wa_bytes wa) = Z.to_nat (sigBytes wa).
Proof.
  unfold wa_bytes. rewrite length_firstn, length_app, repeat_length. lia.
Qed.

Lemma Hex_stringify_length wa :
  len (Hex_stringify wa) = 2 * Z.max 0 (sigBytes wa).
Proof.
  rewrite Hex_stringify_pairs. unfold len.
  assert (E : forall l, length (flat_map hex_pair l) = (2 * length l)%nat).
  { induction l as [|b l IH]; [reflexivity|].
    cbn [flat_map hex_pair app length]. lia. }
  rewrite E, wa_bytes_length. lia.
Qed.

Lemma Hex_stringify_nonempty wa : 0 < sigBytes wa -> Hex_stringify wa <> [].
Proof.
  intros H E. pose proof (Hex_stringify_length wa) as L.
  rewrite E in L. unfold len in L. cbn [length] in L. lia.
Qed.

Lemma hex_octets_pairs l :
  Forall is_byte l -> RefHost.hex_octets (flat_map hex_pair l) = l.
Proof.
  induction 1 as [|b l Hb _ IH]; [reflexivity|].
  cbn [flat_map hex_pair app RefHost.hex_octets].
  unfold RefHost.hex_val0. unfold is_byte in Hb.
  rewrite !hex_val_digit by dlia. rewrite IH. f_equal. dlia.
Qed.

(** Hex text determines the octets. *)
Lemma hex_octets_stringify wa :
  RefHost.hex_octets (Hex_stringify wa) = wa_bytes wa.
Proof.
  rewrite Hex_stringify_pairs. apply hex_octets_pairs, wa_bytes_range.
Qed.

(** ** The length field as a Number *)

Lemma num_mantissa_nat n : 0 <= n -> num_mantissa (nat_literal n) = n.
Proof.
  intros Hn. unfold num_mantissa, nat_literal, uint_of_int.
  rewrite DecimalFacts.app_nil_r, DecimalN.Unsigned.of_to. lia.
Qed.

Lemma num_is_zero_nat n : 0 <= n -> num_is_zero (nat_literal n) = (n =? 0).
Proof.
  intros Hn. unfold num_is_zero. rewrite num_mantissa_nat by assumption.
  change (num_exp10 (nat_literal n)) with 0. cbn [Z.ltb Z.compare andb].
  apply orb_false_r.
Qed.

Lemma num_int_value_nat n : 0 <= n -> num_int_value (nat_literal n) = Some n.
Proof.
  intros Hn. unfold num_int_value. rewrite num_mantissa_nat by assumption.
  change (num_exp10 (nat_literal n)) with 0.
  change (num_neg (nat_literal n)) with false.
  cbn [Z.leb Z.compare]. f_equal. change (10 ^ 0) with 1. lia.
Qed.

(** ** The copy loop *)

Lemma store_nat_app done x rest b :
  store_nat (done ++ x :: rest) (length done) b = done ++ b :: rest.
Proof.
  induction done as [|a done IH]; [reflexivity|].
  cbn [app length store_nat]. now rewrite IH.
Qed.

Lemma store_app done x rest b :
  is_byte b -> store (done ++ x :: rest) (len done) b = done ++ b :: rest.
Proof.
  intros Hb. unfold store.
  rewrite len_app, len_cons. pose proof (len_nonneg _ done).
  pose proof (len_nonneg _ rest).
  replace ((0 <=? len done) && (len done <? len done + (1 + len rest)))
    with true by (symmetry; cmp_cases).
  unfold len at 1. rewrite Nat2Z.id, store_nat_app.
  unfold is_byte in Hb. now rewrite Z.mod_small by lia.
Qed.

Lemma firstn_done (A : Type) n (done rest : list A) :
  len done = n -> firstn (Z.to_nat n) (done ++ rest) = done.
Proof.
  intros <-. unfold len. rewrite Nat2Z.id. apply firstn_length_app.
Qed.

Lemma firstn_firstn_app (A : Type) n (l r : list A) :
  firstn n (firstn n l ++ r) = firstn n (l ++ r).
Proof.
  destruct (Nat.le_gt_cases n (length l)) as [H|H].
  - rewrite !firstn_app, firstn_firstn, Nat.min_id.
    rewrite length_firstn. replace (n - Nat.min n (length l))%nat with 0%nat by lia.
    replace (n - length l)%nat with 0%nat by lia. reflexivity.
  - now rewrite (firstn_all2 l) by lia.
Qed.

Section Loops.

Context {host : Host}.
Variable sigBytes : JsValue.
Variable n : Z.
Hypothesis sigBytes_n : safe_integer sigBytes = Some n.

Lemma js_lt_n offset : js_lt offset sigBytes = (offset <? n).
Proof. unfold js_lt. now rewrite sigBytes_n. Qed.

Lemma copy_word_copied word js : forall done,
  Forall (fun j => 0 <= j <= 3) js -> len done <= n ->
  copy_word sigBytes word js (copied n done)
  = copied n (firstn (Z.to_nat n) (done ++ map (word_byte word) js)).
Proof.
  induction js as [|j js IH]; intros done Hjs Hdone.
  - cbn [copy_word map]. rewrite app_nil_r.
    rewrite firstn_all2; [reflexivity|]. unfold len in Hdone. lia.
  - inv Hjs. unfold copied at 1. cbn [copy_word map].
    rewrite js_lt_n. destruct (Z.ltb_spec (len done) n) as [Hlt|Hge].
    + destruct (Z.to_nat (n - len done)) as [|m] eqn:Em; [lia|].
      cbn [repeat]. rewrite store_app by (apply word_byte_range; lia).
      replace (done ++ word_byte word j :: repeat 0 m, len done + 1)
        with (copied n (done ++ [word_byte word j])).
      2:{ unfold copied. rewrite len_app, <- app_assoc. cbn [app].
          change (len [word_byte word j]) with 1.
          replace (Z.to_nat (n - (len done + 1))) with m by lia.
          reflexivity. }
      rewrite IH; auto.
      * now rewrite <- app_assoc.
      * rewrite len_app. change (len [word_byte word j]) with 1. lia.
    + assert (E : len done = n) by lia.
      rewrite (firstn_done _ n done _ E). reflexivity.
Qed.

Lemma copy_words_copied ws : forall done,
  len done <= n ->
  copy_words sigBytes ws (copied n done)
  = copied n (firstn (Z.to_nat n) (done ++ words_bytes ws)).
Proof.
  induction ws as [|w ws IH]; intros done Hdone.
  - cbn [copy_words words_bytes flat_map]. rewrite app_nil_r.
    rewrite firstn_all2; [reflexivity|]. unfold len in Hdone. lia.
  - cbn [copy_words]. unfold copied at 1. cbn [snd]. rewrite js_lt_n.
    destruct (Z.ltb_spec (len done) n) as [Hlt|Hge].
    + fold (copied n done). rewrite copy_word_copied; auto.
      2:{ repeat (constructor; [lia|]). constructor. }
      rewrite IH.
      * rewrite firstn_firstn_app, <- app_assoc. reflexivity.
      * pose proof (len_nonneg _ done).
        unfold len. rewrite length_firstn. lia.
    + assert (E : len done = n) by lia.
      rewrite (firstn_done _ n done _ E). reflexivity.
Qed.

(** From a zero-filled array of [n] octets the loops produce the first
    [n] octets of the words, followed by zeros when the words run out. *)
Lemma copy_words_from_zero ws :
  0 <= n ->
  copy_words sigBytes ws (repeat 0 (Z.to_nat n), 0)
  = (firstn (Z.to_nat n) (words_bytes ws)
     ++ repeat 0 (Z.to_nat n - length (words_bytes ws)),
     Z.min n (len (words_bytes ws))).
Proof.
  intros Hn. pose proof (copy_words_copied ws [] Hn) as H.
  unfold copied in H. cbn [app] in H. change (len (@nil Z)) with 0 in H.
  rewrite Z.sub_0_r in H. rewrite H. f_equal.
  - f_equal. f_equal. unfold len. rewrite length_firstn. lia.
  - unfold len. rewrite length_firstn. lia.
Qed.

End Loops.

(** ** The envelope text *)

Ltac plain_lit := apply plain_letter; cbv; split; discriminate.

Lemma uint_chars_plain u : Forall plain_char (uint_chars u).
Proof.
  induction u; cbn [uint_chars]; constructor; auto;
    unfold plain_char, c_quote, c_backslash; lia.
Qed.

Lemma JSON_stringify_envelope kh ih ct n :
  Forall plain_char kh -> Forall plain_char ih -> Forall plain_char ct ->
  0 <= n ->
  JSON_stringify {| k := kh; i := ih; d := ct; s := n |}
  = envelope_text kh ih ct n.
Proof.
  intros Hk Hi Hc Hn. unfold JSON_stringify, envelope_text. cbn [k i d s].
  rewrite !JSON_quote_plain by (assumption || plain_lit).
  unfold JSON_number. destruct (Z.ltb_spec n 0); [lia|reflexivity].
Qed.

Lemma plain_quoted x : Forall ascii_char x -> Forall ascii_char (quoted x).
Proof.
  intros H. unfold quoted. constructor; [unfold ascii_char, c_quote; lia|].
  apply Forall_app. split; [assumption|].
  constructor; [unfold ascii_char, c_quote; lia|constructor].
Qed.

Lemma Forall_plain_ascii l : Forall plain_char l -> Forall ascii_char l.
Proof. apply Forall_impl. exact plain_ascii. Qed.

Lemma envelope_text_ascii kh ih ct n :
  Forall plain_char kh -> Forall plain_char ih -> Forall plain_char ct ->
  Forall ascii_char (envelope_text kh ih ct n).
Proof.
  intros Hk Hi Hc. unfold envelope_text.
  repeat (apply Forall_app; split);
    try (apply plain_quoted, Forall_plain_ascii;
         (assumption || plain_lit));
    try (apply Forall_plain_ascii, uint_chars_plain);
    repeat constructor; unfold ascii_char; cbn; lia.
Qed.

Lemma envelope_text_nonempty kh ih ct n : envelope_text kh ih ct n <> [].
Proof. rewrite envelope_text_eq. discriminate. Qed.

(** Decoding the transport string of an ASCII text gives the text. *)
Lemma transport_decode_base64url text :
  Forall ascii_char text ->
  transport_decode (base64url_nopad text) = inr text.
Proof.
  intros H. unfold transport_decode.
  rewrite atob_pad4_base64url by now apply ascii_is_byte.
  now apply utf8_decode_ascii.
Qed.

Section Envelope.

Context {host : Host}.

(** *** Running [encryptFile] *)

Lemma encryptFile_within_bound file w :
  cipher_text_plain host ->
  size file <= MAX_FILE_SIZE ->
  encryptFile file w = (inr (envelope_of file w), after_encrypt w).
Proof.
  intros Hplain Hsize.
  destruct (Hplain (WordArray_create (file_bytes file))
              (drawn_key w) (drawn_iv w)) as [_ Hct].
  cbn zeta in Hct.
  pose proof (Hex_stringify_plain (drawn_key w)) as Hk.
  pose proof (Hex_stringify_plain (drawn_iv w)) as Hi.
  unfold envelope_of, after_encrypt, base64url_nopad.
  unfold drawn_key, drawn_iv in *.
  unfold encryptFile, try_catch, bind.
  destruct (Z.gtb_spec (size file) MAX_FILE_SIZE) as [Hgt|_]; [lia|].
  unfold WordArray_random. change (Z.to_nat ((32 + 3) / 4)) with 8%nat.
  cbn [rng_cursor events].
  change (Z.to_nat ((16 + 3) / 4)) with 4%nat.
  unfold encrypt, bind, emit, ret, lift. cbn [rng_cursor events].
  rewrite JSON_stringify_envelope; auto.
  2:{ cbn [WordArray_create sigBytes]. apply len_nonneg. }
  rewrite utf8_encode_ascii by (apply envelope_text_ascii; auto).
  rewrite btoa_bytes
    by (apply ascii_is_byte, envelope_text_ascii; auto).
  reflexivity.
Qed.


(** *** Running [decryptFile] *)

(** The steps of the body up to the parsed value. *)
Ltac run_to_parse Hne Htd Hparse :=
  unfold decryptFile_body;
  match goal with
  | |- context [match ?input with [] => _ | _ :: _ => _ end] =>
      destruct input; [contradiction|]
  end;
  unfold transport_decode in Htd;
  unfold try_catch, bind, lift;
  match type of Htd with
  | match ?a with _ => _ end = _ =>
      destruct a eqn:?; [discriminate Htd|]
  end;
  rewrite Htd, Hparse.

Lemma body_incomplete input f m w json v dk di dd ds :
  input <> [] ->
  transport_decode input = inr json ->
  JSON_parse json = inr v ->
  get_prop v "k" = inr dk -> get_prop v "i" = inr di ->
  get_prop v "d" = inr dd -> get_prop v "s" = inr ds ->
  truthy dk && truthy di && truthy dd && truthy ds = false ->
  decryptFile_body input f m w = (inl (Error (js "Incomplete file data")), w).
Proof.
  intros Hne Htd Hparse Hk Hi Hd Hs Hfalsy.
  run_to_parse Hne Htd Hparse.
  rewrite Hk, Hi, Hd, Hs.
  replace (negb (truthy dk) || negb (truthy di) || negb (truthy dd)
           || negb (truthy ds)) with true; [reflexivity|].
  destruct (truthy dk), (truthy di), (truthy dd), (truthy ds);
    try reflexivity; discriminate Hfalsy.
Qed.

Lemma body_delivers input f m w json v dk di dd ds key iv decrypted u8 :
  input <> [] ->
  transport_decode input = inr json ->
  JSON_parse json = inr v ->
  get_prop v "k" = inr dk -> get_prop v "i" = inr di ->
  get_prop v "d" = inr dd -> get_prop v "s" = inr ds ->
  truthy dk = true -> truthy di = true ->
  truthy dd = true -> truthy ds = true ->
  Hex_parse dk = inr key -> Hex_parse di = inr iv ->
  AES_decrypt dd key iv = inr decrypted ->
  new_Uint8Array ds = inr u8 ->
  decryptFile_body input f m w
  = (inr tt,
     delivered w f m (fst (copy_words ds (words decrypted) (u8, 0)))).
Proof.
  intros Hne Htd Hparse Hk Hi Hd Hs Tk Ti Td Ts Pk Pi Hdec Hu8.
  run_to_parse Hne Htd Hparse.
  rewrite Hk, Hi, Hd, Hs, Tk, Ti, Td, Ts. cbn [negb orb].
  rewrite Pk, Pi. unfold decrypt, bind, emit, lift. rewrite Hdec, Hu8.
  destruct (copy_words ds (words decrypted) (u8, 0)) as [out off].
  reflexivity.
Qed.

Lemma body_bad_transport input f m w e :
  input <> [] ->
  transport_decode input = inl e ->
  decryptFile_body input f m w
  = (inl (Error (js "Invalid file data format")),
     logged w (EvConsoleError (js "Base64 decoding error:") e)).
Proof.
  intros Hne Htd. unfold decryptFile_body.
  destruct input; [contradiction|].
  unfold transport_decode in Htd. unfold try_catch, bind, lift.
  destruct (atob _) eqn:Ea.
  - inv Htd. reflexivity.
  - rewrite Htd. reflexivity.
Qed.

Lemma body_bad_json input f m w json e :
  input <> [] ->
  transport_decode input = inr json ->
  JSON_parse json = inl e ->
  decryptFile_body input f m w
  = (inl (Error (js "Invalid file data structure")),
     logged w (EvConsoleError (js "JSON parsing error:") e)).
Proof.
  intros Hne Htd Hparse. run_to_parse Hne Htd Hparse. reflexivity.
Qed.

Lemma body_null input f m w json :
  input <> [] ->
  transport_decode input = inr json ->
  JSON_parse json = inr JNull ->
  decryptFile_body input f m w = (inl (TypeError_null (js "k")), w).
Proof.
  intros Hne Htd Hparse. run_to_parse Hne Htd Hparse. reflexivity.
Qed.

(** The outer [catch]: whatever the body throws reaches the caller as
    an [Error] whose message is the prefix and the message thrown. *)
Lemma decryptFile_catch input f m w e w' :
  decryptFile_body input f m w = (inl e, w') ->
  decryptFile input f m w
  = (inl (surfaced e),
     logged w' (EvConsoleError (js "Decryption error:") e)).
Proof. intros H. unfold decryptFile, try_catch. rewrite H. reflexivity. Qed.

Lemma decryptFile_return input f m w w' :
  decryptFile_body input f m w = (inr tt, w') ->
  decryptFile input f m w = (inr tt, w').
Proof. intros H. unfold decryptFile, try_catch. rewrite H. reflexivity. Qed.

(** *** Facts about the fields of a parsed envelope *)

Lemma num_int_value_zero ds : num_int_value ds = Some 0 -> num_is_zero ds = true.
Proof.
  unfold num_int_value, num_is_zero.
  set (mt := num_mantissa ds). set (e := num_exp10 ds).
  assert (Hm : 0 <= mt).
  { subst mt. unfold num_mantissa. destruct ds; lia. }
  intros H. apply orb_true_iff. left. apply Z.eqb_eq.
  destruct (Z.leb_spec 0 e) as [He|He].
  - assert (0 < 10 ^ e) by (apply Z.pow_pos_nonneg; lia).
    inv H. destruct (num_neg ds); nia.
  - assert (0 < 10 ^ (- e)) by (apply Z.pow_pos_nonneg; lia).
    destruct (Z.eqb_spec (mt mod 10 ^ (- e)) 0) as [Hmod|]; [|discriminate].
    inv H.
    assert (Hq : mt / 10 ^ (- e) = 0) by (destruct (num_neg ds); lia).
    pose proof (Z.div_mod mt (10 ^ (- e)) ltac:(lia)) as D.
    rewrite Hq, Hmod in D. lia.
Qed.

Lemma safe_integer_value ds n :
  num_int_value ds = Some n -> 0 < n <= 2 ^ 53 - 1 ->
  safe_integer (JNum ds) = Some n /\ truthy (JNum ds) = true.
Proof.
  intros Hv Hn. split.
  - unfold safe_integer. rewrite Hv.
    destruct (Z.leb_spec (Z.abs n) (2 ^ 53 - 1)); [reflexivity|lia].
  - cbn [truthy]. apply negb_true_iff.
    unfold num_int_value in Hv. unfold num_is_zero.
    set (mt := num_mantissa ds) in *. set (e := num_exp10 ds) in *.
    assert (Hm : 0 <= mt).
    { subst mt. unfold num_mantissa. destruct ds; lia. }
    apply orb_false_iff. split.
    + apply Z.eqb_neq. intros E. rewrite E in Hv.
      destruct (Z.leb_spec 0 e).
      * rewrite Z.mul_0_l, Z.mul_0_r in Hv. inv Hv. lia.
      * rewrite Z.mod_0_l, Z.div_0_l in Hv by (apply Z.pow_nonzero; lia).
        cbn [Z.eqb] in Hv. rewrite Z.mul_0_r in Hv. inv Hv. lia.
    + apply andb_false_iff.
      destruct (Z.ltb_spec e 0) as [He|He]; [right|now left].
      apply Z.leb_gt.
      destruct (Z.leb_spec 0 e); [lia|].
      assert (0 < 10 ^ (- e)) by (apply Z.pow_pos_nonneg; lia).
      destruct (Z.eqb_spec (mt mod 10 ^ (- e)) 0) as [Hmod|]; [|discriminate].
      inv Hv.
      assert (Hq0 : 0 <= mt / 10 ^ (- e)) by (apply Z.div_pos; lia).
      assert (Hq : 1 <= mt / 10 ^ (- e)) by (destruct (num_neg ds); lia).
      assert (10 ^ (- e) <= mt).
      { pose proof (Z.div_mod mt (10 ^ (- e)) ltac:(lia)) as D.
        rewrite Hmod in D. nia. }
      assert (1 < 2 ^ 1075) by (apply Z.pow_gt_1; lia).
      nia.
Qed.

Lemma nonempty_truthy x : x <> [] -> truthy (JStr x) = true.
Proof. destruct x; [congruence|reflexivity]. Qed.

Lemma new_Uint8Array_safe v n :
  safe_integer v = Some n -> 0 <= n -> Uint8Array_allocates n = true ->
  new_Uint8Array v = inr (repeat 0 (Z.to_nat n)).
Proof.
  intros Hv Hn Ha. unfold new_Uint8Array. rewrite Hv, Ha.
  destruct (Z.leb_spec 0 n); [reflexivity|lia].
Qed.

Lemma new_Uint8Array_refused v n :
  safe_integer v = Some n -> 0 <= n -> Uint8Array_allocates n = false ->
  new_Uint8Array v = inl RangeError_allocation.
Proof.
  intros Hv Hn Ha. unfold new_Uint8Array. rewrite Hv, Ha.
  destruct (Z.leb_spec 0 n); [reflexivity|lia].
Qed.

Lemma len_words_bytes ws : length (words_bytes ws) = (4 * length ws)%nat.
Proof.
  induction ws as [|w ws IH]; [reflexivity|].
  unfold words_bytes in *. cbn [flat_map].
  rewrite length_app, IH. cbn [map length]. lia.
Qed.

(** A well-formed envelope whose key, IV and ciphertext the library
    accepts is delivered: the output is the first [n] octets of the
    decrypted words, then zeros. *)
Lemma well_formed_delivers input kh ih ct n key iv decrypted f m w :
  well_formed_envelope input kh ih ct n ->
  Hex_parse (JStr kh) = inr key -> Hex_parse (JStr ih) = inr iv ->
  AES_decrypt (JStr ct) key iv = inr decrypted ->
  Uint8Array_allocates n = true ->
  decryptFile input f m w
  = (inr tt,
     delivered w f m
       (firstn (Z.to_nat n) (words_bytes (words decrypted))
        ++ repeat 0 (Z.to_nat n - length (words_bytes (words decrypted))))).
Proof.
  intros (json & ms & ds & Hne & Htd & Hparse & Lk & Nk & Li & Ni & Ld & Nd
          & Ls & Hv & Hn) Pk Pi Hdec Halloc.
  destruct (safe_integer_value ds n Hv Hn) as [Hsafe Ts].
  apply decryptFile_return.
  rewrite (body_delivers input f m w json (JObj ms)
             (JStr kh) (JStr ih) (JStr ct) (JNum ds) key iv decrypted
             (repeat 0 (Z.to_nat n))); auto using nonempty_truthy.
  - rewrite (copy_words_from_zero (JNum ds) n Hsafe) by lia. reflexivity.
  - cbn [get_prop]. now rewrite Lk.
  - cbn [get_prop]. now rewrite Li.
  - cbn [get_prop]. now rewrite Ld.
  - cbn [get_prop]. now rewrite Ls.
  - apply new_Uint8Array_safe; [assumption|lia|assumption].
Qed.

(** The engine can allocate the array for a file within the bound. *)
Lemma file_size_allocates file :
  size file <= MAX_FILE_SIZE -> Uint8Array_allocates (size file) = true.
Proof.
  intros H. apply Uint8Array_allocates_file.
  unfold size, len, MAX_FILE_SIZE in *. lia.
Qed.

(** A well-formed envelope whose length the engine cannot allocate is
    decrypted and then refused: [new Uint8Array(s)] throws, and nothing
    is delivered. *)
Lemma well_formed_refused input kh ih ct n key iv decrypted f m w :
  well_formed_envelope input kh ih ct n ->
  Hex_parse (JStr kh) = inr key -> Hex_parse (JStr ih) = inr iv ->
  AES_decrypt (JStr ct) key iv = inr decrypted ->
  Uint8Array_allocates n = false ->
  decryptFile input f m w
  = (inl (surfaced RangeError_allocation),
     logged (logged w EvDecrypt)
       (EvConsoleError (js "Decryption error:") RangeError_allocation)).
Proof.
  intros (json & ms & ds & Hne & Htd & Hparse & Lk & Nk & Li & Ni & Ld & Nd
          & Ls & Hv & Hn) Pk Pi Hdec Halloc.
  destruct (safe_integer_value ds n Hv Hn) as [Hsafe Ts].
  apply (decryptFile_catch input f m w RangeError_allocation
           (logged w EvDecrypt)).
  unfold decryptFile_body.
  destruct input as [|c0 input]; [contradiction|].
  unfold transport_decode in Htd. unfold try_catch, bind, lift.
  destruct (atob _) as [e|decoded]; [discriminate Htd|].
  rewrite Htd, Hparse. cbn [get_prop]. rewrite Lk, Li, Ld, Ls.
  rewrite (nonempty_truthy kh Nk), (nonempty_truthy ih Ni),
    (nonempty_truthy ct Nd), Ts.
  cbn [negb orb]. rewrite Pk, Pi.
  unfold decrypt, bind, emit, lift. rewrite Hdec.
  rewrite (new_Uint8Array_refused (JNum ds) n Hsafe) by (assumption || lia).
  reflexivity.
Qed.

(** The envelope that [encryptFile] makes is well formed when the file
    is not empty. *)
Lemma envelope_of_well_formed file w :
  cipher_text_plain host ->
  0 < size file <= MAX_FILE_SIZE ->
  well_formed_envelope (envelope_of file w)
    (Hex_stringify (drawn_key w)) (Hex_stringify (drawn_iv w))
    (CipherParams_toString
       (AES_encrypt (WordArray_create (file_bytes file))
          (drawn_key w) (drawn_iv w)))
    (size file).
Proof.
  intros Hplain Hsize.
  destruct (Hplain (WordArray_create (file_bytes file))
              (drawn_key w) (drawn_iv w)) as [Hne Hct].
  cbn zeta in Hne, Hct.
  pose proof (Hex_stringify_plain (drawn_key w)) as Hk.
  pose proof (Hex_stringify_plain (drawn_iv w)) as Hi.
  eexists _, _, (nat_literal (size file)). unfold envelope_of.
  split; [|split; [|split; [|repeat split]]].
  - apply base64url_nopad_nonempty.
    + apply ascii_is_byte, envelope_text_ascii; assumption.
    + apply envelope_text_nonempty.
  - apply transport_decode_base64url, envelope_text_ascii; assumption.
  - rewrite JSON_parse_envelope by assumption. reflexivity.
  - reflexivity.
  - apply Hex_stringify_nonempty. reflexivity.
  - reflexivity.
  - apply Hex_stringify_nonempty. reflexivity.
  - reflexivity.
  - assumption.
  - reflexivity.
  - apply num_int_value_nat. lia.
  - lia.
  - unfold MAX_FILE_SIZE in Hsize. change (2 ^ 53 - 1) with 9007199254740991.
    lia.
Qed.

(** *** The envelope of a file, read back *)

Lemma envelope_of_parses file w :
  cipher_text_plain host ->
  envelope_of file w <> []
  /\ transport_decode (envelope_of file w)
     = inr (envelope_text
              (Hex_stringify (drawn_key w)) (Hex_stringify (drawn_iv w))
              (CipherParams_toString
                 (AES_encrypt (WordArray_create (file_bytes file))
                    (drawn_key w) (drawn_iv w)))
              (size file))
  /\ JSON_parse
       (envelope_text
          (Hex_stringify (drawn_key w)) (Hex_stringify (drawn_iv w))
          (CipherParams_toString
             (AES_encrypt (WordArray_create (file_bytes file))
                (drawn_key w) (drawn_iv w)))
          (size file))
     = inr (envelope_value
              (Hex_stringify (drawn_key w)) (Hex_stringify (drawn_iv w))
              (CipherParams_toString
                 (AES_encrypt (WordArray_create (file_bytes file))
                    (drawn_key w) (drawn_iv w)))
              (size file)).
Proof.
  intros Hplain.
  destruct (Hplain (WordArray_create (file_bytes file))
              (drawn_key w) (drawn_iv w)) as [_ Hct].
  cbn zeta in Hct.
  pose proof (Hex_stringify_plain (drawn_key w)) as Hk.
  pose proof (Hex_stringify_plain (drawn_iv w)) as Hi.
  unfold envelope_of. repeat split.
  - apply base64url_nopad_nonempty.
    + apply ascii_is_byte, envelope_text_ascii; assumption.
    + apply envelope_text_nonempty.
  - apply transport_decode_base64url, envelope_text_ascii; assumption.
  - apply JSON_parse_envelope; assumption.
Qed.

(** Envelopes are equal only when key and IV have the same octets. *)
Lemma envelope_of_injective file w1 w2 :
  cipher_text_plain host ->
  envelope_of file w1 = envelope_of file w2 ->
  wa_bytes (drawn_key w1) = wa_bytes (drawn_key w2)
  /\ wa_bytes (drawn_iv w1) = wa_bytes (drawn_iv w2).
Proof.
  intros Hplain E.
  destruct (envelope_of_parses file w1 Hplain) as (_ & T1 & P1).
  destruct (envelope_of_parses file w2 Hplain) as (_ & T2 & P2).
  rewrite <- !hex_octets_stringify.
  remember (Hex_stringify (drawn_key w1)) as k1.
  remember (Hex_stringify (drawn_key w2)) as k2.
  remember (Hex_stringify (drawn_iv w1)) as i1.
  remember (Hex_stringify (drawn_iv w2)) as i2.
  remember (CipherParams_toString
              (AES_encrypt (WordArray_create (file_bytes file))
                 (drawn_key w1) (drawn_iv w1))) as c1.
  remember (CipherParams_toString
              (AES_encrypt (WordArray_create (file_bytes file))
                 (drawn_key w2) (drawn_iv w2))) as c2.
  rewrite E, T2 in T1.
  assert (Et : envelope_text k2 i2 c2 (size file)
               = envelope_text k1 i1 c1 (size file)) by congruence.
  rewrite Et, P1 in P2. unfold envelope_value in P2.
  assert (Ek : k1 = k2) by congruence.
  assert (Ei : i1 = i2) by congruence.
  now rewrite Ek, Ei.
Qed.

(** The envelope of the empty file fails the field check. *)
Lemma empty_file_envelope_incomplete w f m w' :
  cipher_text_plain host ->
  decryptFile (envelope_of empty_file w) f m w' = incomplete_outcome w'.
Proof.
  intros Hplain.
  destruct (envelope_of_parses empty_file w Hplain) as (Hne & Td & Pj).
  apply (decryptFile_catch _ f m w' (Error (js "Incomplete file data")) w').
  apply (body_incomplete _ f m w' _ _
           (JStr (Hex_stringify (drawn_key w)))
           (JStr (Hex_stringify (drawn_iv w)))
           (JStr (CipherParams_toString
                    (AES_encrypt (WordArray_create (file_bytes empty_file))
                       (drawn_key w) (drawn_iv w))))
           (JNum (nat_literal (size empty_file))) Hne Td Pj);
    try reflexivity.
  cbn [truthy]. rewrite num_is_zero_nat by discriminate. apply andb_false_r.
Qed.

Lemma empty_file_within_bound : size empty_file <= MAX_FILE_SIZE.
Proof. discriminate. Qed.


(** *** The stores of the copy loop stay inside the array *)

Lemma store_length u8 offset x : len (store u8 offset x) = len u8.
Proof.
  unfold store. destruct ((0 <=? offset) && (offset <? len u8)); [|reflexivity].
  unfold len. f_equal. generalize (Z.to_nat offset). intros p. revert p.
  induction u8 as [|a u8 IH]; intros [|p]; cbn [store_nat length]; auto.
Qed.

Lemma copy_word_checked_ok sv n word js : forall u8 offset,
  safe_integer sv = Some n -> len u8 = n -> 0 <= offset ->
  copy_word_checked sv word js (u8, offset)
  = Some (copy_word sv word js (u8, offset))
  /\ len (fst (copy_word sv word js (u8, offset))) = n
  /\ 0 <= snd (copy_word sv word js (u8, offset)).
Proof.
  induction js as [|j js IH]; intros u8 offset Hsv Hlen Hoff.
  - cbn [copy_word_checked copy_word fst snd]. auto.
  - cbn [copy_word_checked copy_word]. unfold js_lt. rewrite Hsv.
    destruct (Z.ltb_spec offset n) as [Hlt|Hge].
    + unfold store_checked.
      replace ((0 <=? offset) && (offset <? len u8)) with true
        by (symmetry; cmp_cases).
      apply IH; [assumption| |lia]. now rewrite store_length.
    + cbn [fst snd]. auto.
Qed.

Lemma copy_words_checked_ok sv n ws : forall u8 offset,
  safe_integer sv = Some n -> len u8 = n -> 0 <= offset ->
  copy_words_checked sv ws (u8, offset)
  = Some (copy_words sv ws (u8, offset)).
Proof.
  induction ws as [|w ws IH]; intros u8 offset Hsv Hlen Hoff.
  - reflexivity.
  - cbn [copy_words_checked copy_words snd].
    destruct (js_lt offset sv); [|reflexivity].
    destruct (copy_word_checked_ok sv n w [0; 1; 2; 3] u8 offset Hsv Hlen Hoff)
      as (E & L & O).
    rewrite E.
    destruct (copy_word sv w [0; 1; 2; 3] (u8, offset)) as [u8' offset'].
    cbn [fst snd] in L, O. now apply IH.
Qed.

Lemma hex_digit_hex n : 0 <= n < 16 -> hex_char (hex_digit n).
Proof.
  intros Hn. unfold hex_digit, hex_char. destruct (Z.ltb_spec n 10); lia.
Qed.

Lemma Hex_stringify_hex wa : Forall hex_char (Hex_stringify wa).
Proof.
  rewrite Hex_stringify_pairs. pose proof (wa_bytes_range wa) as H.
  induction H as [|b l Hb _ IH]; [constructor|].
  cbn [flat_map hex_pair app]. unfold is_byte in Hb.
  repeat (apply Forall_cons; [apply hex_digit_hex; dlia|]). exact IH.
Qed.

(* ================================================================= *)
(** ** Properties of the envelope functions *)

(** C1 (round trip), at the input where the code departs from it: the
    empty file.  [encryptFile] accepts the empty file and returns its
    envelope, whose length field is 0; [decryptFile] rejects that
    envelope with "Incomplete file data" and delivers nothing, whatever
    key and IV were drawn. *)
Theorem empty_file_is_not_recovered w f m w' :
  cipher_text_plain host ->
  encryptFile empty_file w = (inr (envelope_of empty_file w), after_encrypt w)
  /\ decryptFile (envelope_of empty_file w) f m w' = incomplete_outcome w'.
Proof.
  intros Hplain. split.
  - apply encryptFile_within_bound; [assumption|apply empty_file_within_bound].
  - now apply empty_file_envelope_incomplete.
Qed.

(** C2: an envelope that decodes and parses to an object whose length
    field [s] is exactly 0 is rejected with "Incomplete file data",
    whatever its other fields are: the field check [!decryptionData.s]
    takes 0 for a missing field. *)
Theorem zero_length_is_incomplete input f m w json ms ds :
  input <> [] ->
  transport_decode input = inr json ->
  JSON_parse json = inr (JObj ms) ->
  lookup (js "s") ms = Some (JNum ds) ->
  num_int_value ds = Some 0 ->
  decryptFile input f m w
  = (inl (Error (js "Failed to decrypt file: Incomplete file data")),
     logged w (EvConsoleError (js "Decryption error:")
                 (Error (js "Incomplete file data")))).
Proof.
  intros Hne Htd Hparse Ls Hz.
  assert (Hs : get_prop (JObj ms) "s" = inr (JNum ds)).
  { cbn [get_prop]. now rewrite Ls. }
  assert (Hbody : decryptFile_body input f m w
                  = (inl (Error (js "Incomplete file data")), w)).
  { eapply body_incomplete; [exact Hne|exact Htd|exact Hparse| | | |exact Hs|];
      try reflexivity.
    cbn [truthy]. rewrite (num_int_value_zero ds Hz). apply andb_false_r. }
  unfold decryptFile, try_catch. rewrite Hbody. reflexivity.
Qed.

(** C3: [encryptFile] fails with "File size exceeds 10MB limit" exactly
    when the file has more than 10_485_760 octets; it fails at
    10_485_761 octets and returns an envelope at 10_485_760 octets and
    at every smaller size. *)
Theorem encryptFile_size_boundary file w :
  cipher_text_plain host ->
  (fst (encryptFile file w) = inl (Error (js "File size exceeds 10MB limit"))
   <-> size file > 10485760)
  /\ (size file = 10485761 ->
      fst (encryptFile file w)
      = inl (Error (js "File size exceeds 10MB limit")))
  /\ (size file = 10485760 ->
      exists envelope, fst (encryptFile file w) = inr envelope)
  /\ (size file <= 10485760 ->
      exists envelope, fst (encryptFile file w) = inr envelope).
Proof.
  intros Hplain.
  assert (Hbig : size file > 10485760 ->
                 fst (encryptFile file w)
                 = inl (Error (js "File size exceeds 10MB limit"))).
  { intros Hgt. unfold encryptFile, try_catch.
    destruct (Z.gtb_spec (size file) MAX_FILE_SIZE) as [_|Hle];
      [reflexivity|unfold MAX_FILE_SIZE in Hle; lia]. }
  assert (Hsmall : size file <= 10485760 ->
                   exists envelope, fst (encryptFile file w) = inr envelope).
  { intros Hle. exists (envelope_of file w).
    rewrite encryptFile_within_bound; [reflexivity|assumption|].
    unfold MAX_FILE_SIZE. lia. }
  repeat split.
  - intros Hfail. destruct (Z.le_gt_cases (size file) 10485760) as [Hle|Hgt];
      [|lia].
    destruct (Hsmall Hle) as [envelope E]. rewrite E in Hfail. discriminate.
  - exact Hbig.
  - intros E. apply Hbig. lia.
  - intros E. apply Hsmall. lia.
  - exact Hsmall.
Qed.

(** C4: when the file is too large, [encryptFile] throws after the size
    check alone: the random source is where it was, and the only event
    is the [console.error] of the handler; no key or IV was drawn and
    nothing was encrypted. *)
Theorem oversize_fails_before_any_draw file w :
  size file > MAX_FILE_SIZE ->
  encryptFile file w
  = (inl (Error (js "File size exceeds 10MB limit")),
     logged w (EvConsoleError (js "Encryption error:")
                 (Error (js "File size exceeds 10MB limit"))))
  /\ rng_cursor (snd (encryptFile file w)) = rng_cursor w
  /\ (forall nBytes, ~ In (EvRandom nBytes) (skipn (length (events w))
                                            (events (snd (encryptFile file w)))))
  /\ ~ In EvEncrypt (skipn (length (events w))
                       (events (snd (encryptFile file w)))).
Proof.
  intros Hgt.
  assert (E : encryptFile file w
              = (inl (Error (js "File size exceeds 10MB limit")),
                 logged w (EvConsoleError (js "Encryption error:")
                             (Error (js "File size exceeds 10MB limit"))))).
  { unfold encryptFile, try_catch.
    destruct (Z.gtb_spec (size file) MAX_FILE_SIZE) as [_|Hle];
      [reflexivity|lia]. }
  rewrite E. cbn [snd logged rng_cursor events].
  rewrite skipn_app, skipn_all, Nat.sub_diag. cbn [skipn app].
  repeat split; intros; cbn [In]; intros [H|[]]; discriminate H.
Qed.

(** C5, at the input where the code departs from it: the envelope
    [bnVsbA], the transport encoding of the JSON text [null].  Every
    earlier stage succeeds and the value has none of the four fields,
    yet the body does not throw "Incomplete file data": reading [.k] of
    [null] throws a TypeError, which is what the caller's error
    carries. *)
Theorem null_envelope_is_a_type_error f m w :
  transport_decode (js "bnVsbA") = inr (js "null")
  /\ JSON_parse (js "null") = inr JNull
  /\ decryptFile_body (js "bnVsbA") f m w = (inl (TypeError_null (js "k")), w)
  /\ TypeError_null (js "k") <> Error (js "Incomplete file data")
  /\ decryptFile (js "bnVsbA") f m w
     = (inl (surfaced (TypeError_null (js "k"))),
        logged w (EvConsoleError (js "Decryption error:")
                    (TypeError_null (js "k")))).
Proof.
  assert (Td : transport_decode (js "bnVsbA") = inr (js "null"))
    by reflexivity.
  assert (Pj : JSON_parse (js "null") = inr JNull) by reflexivity.
  assert (Hb : decryptFile_body (js "bnVsbA") f m w
               = (inl (TypeError_null (js "k")), w)).
  { apply (body_null _ f m w (js "null")); [discriminate|exact Td|exact Pj]. }
  split; [exact Td|split; [exact Pj|split; [exact Hb|split]]].
  - discriminate.
  - now apply decryptFile_catch.
Qed.

(** C6: for a file within the bound, [encryptFile] returns the base64
    of the JSON text
    [{"k":"<hex key>","i":"<hex iv>","d":"<cipher text>","s":<size>}]
    in the URL-safe alphabet and without padding, as RFC 4648 defines
    it; that string is the standard base64 of the text, as [btoa]
    gives it, with every [+] replaced by [-], every [/] by [_] and the
    [=] at its end removed.  The key is the next 8 random words (32
    octets, 64 lower-case hex digits), the IV the 4 words after them
    (16 octets, 32 digits), and the random source has moved past
    both. *)
Theorem encryptFile_wire_format file w :
  cipher_text_plain host ->
  size file <= MAX_FILE_SIZE ->
  let text :=
    envelope_text
      (Hex_stringify (drawn_key w)) (Hex_stringify (drawn_iv w))
      (CipherParams_toString
         (AES_encrypt (WordArray_create (file_bytes file))
            (drawn_key w) (drawn_iv w)))
      (len (file_bytes file)) in
  encryptFile file w = (inr (rfc4648_base64url text), after_encrypt w)
  /\ url_safe_unpadded (b64_encode text) (rfc4648_base64url text)
  /\ len (wa_bytes (drawn_key w)) = 32
  /\ len (wa_bytes (drawn_iv w)) = 16
  /\ len (Hex_stringify (drawn_key w)) = 64
  /\ len (Hex_stringify (drawn_iv w)) = 32
  /\ Forall hex_char (Hex_stringify (drawn_key w))
  /\ Forall hex_char (Hex_stringify (drawn_iv w)).
Proof.
  intros Hplain Hsize. cbv zeta.
  assert (Hb : Forall is_byte
                 (envelope_text
                    (Hex_stringify (drawn_key w)) (Hex_stringify (drawn_iv w))
                    (CipherParams_toString
                       (AES_encrypt (WordArray_create (file_bytes file))
                          (drawn_key w) (drawn_iv w)))
                    (len (file_bytes file)))).
  { apply ascii_is_byte, envelope_text_ascii;
      try apply Hex_stringify_plain.
    apply (Hplain _ _ _). }
  split; [|split; [|split; [|split; [|split; [|split; [|split]]]]]].
  - rewrite encryptFile_within_bound by assumption.
    unfold envelope_of, size.
    rewrite base64url_nopad_core by exact Hb.
    now rewrite rfc4648_base64url_core by exact Hb.
  - rewrite <- rfc4648_base64url_core by exact Hb.
    now apply url_safe_unpadded_core.
  - unfold len. rewrite wa_bytes_length. reflexivity.
  - unfold len. rewrite wa_bytes_length. reflexivity.
  - rewrite Hex_stringify_length. reflexivity.
  - rewrite Hex_stringify_length. reflexivity.
  - apply Hex_stringify_hex.
  - apply Hex_stringify_hex.
Qed.


(** C8, as the code has it: whatever the body of [decryptFile] throws,
    the four malformed-envelope errors included, reaches the caller as
    a new error whose message is "Failed to decrypt file: " followed by
    the message thrown, after the thrown error was written to the
    console; no error is swallowed. *)
Theorem decryptFile_surfaces_with_prefix input f m w e w' :
  decryptFile_body input f m w = (inl e, w') ->
  decryptFile input f m w
  = (inl (Error (js "Failed to decrypt file: " ++ message e)),
     logged w' (EvConsoleError (js "Decryption error:") e)).
Proof.
  intros Hbody. unfold decryptFile, try_catch. rewrite Hbody.
  unfold bind, console_error, emit, throw. reflexivity.
Qed.

(** C9 (uniqueness), at the input where the code departs from it: the
    empty file.  Two calls that draw key or IV with different octets
    return different envelopes, but neither envelope decodes: both are
    rejected with "Incomplete file data". *)
Theorem empty_file_envelopes_differ_and_fail w1 w2 f m w' :
  cipher_text_plain host ->
  wa_bytes (drawn_key w1) <> wa_bytes (drawn_key w2)
  \/ wa_bytes (drawn_iv w1) <> wa_bytes (drawn_iv w2) ->
  encryptFile empty_file w1
  = (inr (envelope_of empty_file w1), after_encrypt w1)
  /\ encryptFile empty_file w2
     = (inr (envelope_of empty_file w2), after_encrypt w2)
  /\ envelope_of empty_file w1 <> envelope_of empty_file w2
  /\ decryptFile (envelope_of empty_file w1) f m w' = incomplete_outcome w'
  /\ decryptFile (envelope_of empty_file w2) f m w' = incomplete_outcome w'.
Proof.
  intros Hplain Hdiff.
  repeat split;
    try (apply encryptFile_within_bound;
         [assumption|apply empty_file_within_bound]);
    try (now apply empty_file_envelope_incomplete).
  intros E. destruct (envelope_of_injective empty_file w1 w2 Hplain E).
  tauto.
Qed.

(** C10, as the code has it: for a well-formed envelope whose [s]
    exceeds the octets that decryption produced, what happens depends
    on whether the engine can allocate an array of [s] octets.  When it
    can, [decryptFile] does not throw: it delivers the decrypted octets
    followed by zeros, [s] octets in all, and no store of the copy loop
    falls outside the array.  When it cannot, [new Uint8Array(s)]
    throws a RangeError after the decryption: the caller reads the
    engine's message behind the prefix and nothing is delivered. *)
Theorem short_decryption_is_zero_filled
  input kh ih ct n key iv decrypted f m w :
  well_formed_envelope input kh ih ct n ->
  Hex_parse (JStr kh) = inr key -> Hex_parse (JStr ih) = inr iv ->
  AES_decrypt (JStr ct) key iv = inr decrypted ->
  4 * len (words decrypted) < n ->
  (Uint8Array_allocates n = true ->
   decryptFile input f m w
   = (inr tt,
      delivered w f m
        (words_bytes (words decrypted)
         ++ repeat 0 (Z.to_nat (n - 4 * len (words decrypted)))))
   /\ len (words_bytes (words decrypted)
           ++ repeat 0 (Z.to_nat (n - 4 * len (words decrypted)))) = n
   /\ (forall sv, safe_integer sv = Some n ->
         copy_words_checked sv (words decrypted) (repeat 0 (Z.to_nat n), 0)
         = Some (copy_words sv (words decrypted)
                   (repeat 0 (Z.to_nat n), 0))))
  /\ (Uint8Array_allocates n = false ->
      decryptFile input f m w
      = (inl (Error (js "Failed to decrypt file: "
                     ++ engine_message RangeError_allocation)),
         logged (logged w EvDecrypt)
           (EvConsoleError (js "Decryption error:") RangeError_allocation))).
Proof.
  intros Hwf Pk Pi Hdec Hshort.
  pose proof (len_words_bytes (words decrypted)) as Lw.
  unfold len in Hshort.
  split; [intros Halloc; split; [|split]|intros Halloc].
  - rewrite (well_formed_delivers input kh ih ct n key iv decrypted)
      by assumption.
    rewrite firstn_all2 by lia.
    do 4 f_equal. unfold len. lia.
  - unfold len. rewrite length_app, repeat_length. lia.
  - intros sv Hsv. apply (copy_words_checked_ok sv n); auto; [|lia].
    unfold len. rewrite repeat_length. lia.
  - now apply (well_formed_refused input kh ih ct n key iv decrypted).
Qed.

(** *** Further properties *)

(** X1: round trip for every non-empty file within the bound, for any
    key and IV drawn, on a host whose cipher decrypts what it
    encrypted: [decryptFile] of the envelope delivers the octets of the
    file. *)
Theorem round_trip_nonempty file w f m w' :
  cipher_text_plain host -> cipher_inverts host ->
  Forall is_byte (file_bytes file) ->
  0 < size file <= MAX_FILE_SIZE ->
  encryptFile file w = (inr (envelope_of file w), after_encrypt w)
  /\ decryptFile (envelope_of file w) f m w'
     = (inr tt, delivered w' f m (file_bytes file)).
Proof.
  intros Hplain Hinv Hbytes Hsize. split.
  - apply encryptFile_within_bound; [assumption|lia].
  - destruct (Hinv (file_bytes file) (drawn_key w) (drawn_iv w) Hbytes
                eq_refl eq_refl) as (key & iv & dec & Pk & Pi & Hdec & Hfirst).
    rewrite (well_formed_delivers _ _ _ _ (size file) key iv dec f m w'
               (envelope_of_well_formed file w Hplain Hsize) Pk Pi Hdec
               (file_size_allocates file (proj2 Hsize))).
    do 2 f_equal. unfold size, len in *. rewrite Nat2Z.id, Hfirst.
    assert (L : (length (file_bytes file)
                 <= length (words_bytes (words dec)))%nat).
    { rewrite <- Hfirst at 1. rewrite length_firstn. lia. }
    replace (length (file_bytes file) - length (words_bytes (words dec)))%nat
      with 0%nat by lia.
    apply app_nil_r.
Qed.

(** X2: uniqueness for every non-empty file within the bound: two calls
    that draw key or IV with different octets return different
    envelopes, and each envelope decodes to the octets of the file. *)
Theorem distinct_draws_distinct_envelopes file w1 w2 f m w' :
  cipher_text_plain host -> cipher_inverts host ->
  Forall is_byte (file_bytes file) ->
  0 < size file <= MAX_FILE_SIZE ->
  wa_bytes (drawn_key w1) <> wa_bytes (drawn_key w2)
  \/ wa_bytes (drawn_iv w1) <> wa_bytes (drawn_iv w2) ->
  envelope_of file w1 <> envelope_of file w2
  /\ decryptFile (envelope_of file w1) f m w'
     = (inr tt, delivered w' f m (file_bytes file))
  /\ decryptFile (envelope_of file w2) f m w'
     = (inr tt, delivered w' f m (file_bytes file)).
Proof.
  intros Hplain Hinv Hbytes Hsize Hdiff.
  assert (Hrt : forall w,
             decryptFile (envelope_of file w) f m w'
             = (inr tt, delivered w' f m (file_bytes file))).
  { intros w.
    destruct (Hinv (file_bytes file) (drawn_key w) (drawn_iv w) Hbytes
                eq_refl eq_refl) as (key & iv & dec & Pk & Pi & Hdec & Hfirst).
    rewrite (well_formed_delivers _ _ _ _ (size file) key iv dec f m w'
               (envelope_of_well_formed file w Hplain Hsize) Pk Pi Hdec
               (file_size_allocates file (proj2 Hsize))).
    do 2 f_equal. unfold size, len in *. rewrite Nat2Z.id, Hfirst.
    assert (L : (length (file_bytes file)
                 <= length (words_bytes (words dec)))%nat).
    { rewrite <- Hfirst at 1. rewrite length_firstn. lia. }
    replace (length (file_bytes file) - length (words_bytes (words dec)))%nat
      with 0%nat by lia.
    apply app_nil_r. }
  repeat split; auto.
  intros E. destruct (envelope_of_injective file w1 w2 Hplain E). tauto.
Qed.

(** X3: the order of the checks of [decryptFile], for every input: an
    empty string gives "No data provided for decryption"; otherwise a
    transport encoding that cannot be reversed gives "Invalid file data
    format"; otherwise a text that is not JSON gives "Invalid file data
    structure"; otherwise, when the value is not [null], a field among
    [k], [i], [d], [s] that is missing or falsy gives "Incomplete file
    data".  Each message reaches the caller behind the prefix
    "Failed to decrypt file: ". *)
Theorem validation_order input f m w :
  (input = [] ->
   fst (decryptFile input f m w)
   = inl (Error (js "Failed to decrypt file: No data provided for decryption")))
  /\ (input <> [] ->
      forall e, transport_decode input = inl e ->
      fst (decryptFile input f m w)
      = inl (Error (js "Failed to decrypt file: Invalid file data format")))
  /\ (input <> [] ->
      forall json e, transport_decode input = inr json ->
      JSON_parse json = inl e ->
      fst (decryptFile input f m w)
      = inl (Error (js "Failed to decrypt file: Invalid file data structure")))
  /\ (input <> [] ->
      forall json v dk di dd ds, transport_decode input = inr json ->
      JSON_parse json = inr v ->
      get_prop v "k" = inr dk -> get_prop v "i" = inr di ->
      get_prop v "d" = inr dd -> get_prop v "s" = inr ds ->
      truthy dk && truthy di && truthy dd && truthy ds = false ->
      fst (decryptFile input f m w)
      = inl (Error (js "Failed to decrypt file: Incomplete file data"))).
Proof.
  split; [|split; [|split]].
  - intros ->. reflexivity.
  - intros Hne e Htd.
    now rewrite (decryptFile_catch _ _ _ _ _ _
                   (body_bad_transport input f m w e Hne Htd)).
  - intros Hne json e Htd Hp.
    now rewrite (decryptFile_catch _ _ _ _ _ _
                   (body_bad_json input f m w json e Hne Htd Hp)).
  - intros Hne json v dk di dd ds Htd Hp Hk Hi Hd Hs Hf.
    now rewrite (decryptFile_catch _ _ _ _ _ _
                   (body_incomplete input f m w json v dk di dd ds
                      Hne Htd Hp Hk Hi Hd Hs Hf)).
Qed.

End Envelope.

(** ** UTF-8 on every string *)

(** Two characters at a time. *)
Lemma list_ind2 (A : Type) (P : list A -> Prop) :
  P [] -> (forall a, P [a]) ->
  (forall a b l, P l -> P (b :: l) -> P (a :: b :: l)) ->
  forall l, P l.
Proof.
  intros H0 H1 H2 l.
  assert (H : P l /\ forall a, P (a :: l)).
  { induction l as [|b l [IH1 IH2]].
    - split; [exact H0|exact H1].
    - split; [apply IH2|]. intros a. apply H2; [exact IH1|apply IH2]. }
  apply H.
Qed.

Lemma inr_eq (A B : Type) (x y : B) : @inr A B x = inr y -> x = y.
Proof. congruence. Qed.

(** The sequences that [utf8_decode] accepts, one lemma for each
    length. *)
Lemma utf8_decode_1 b r :
  0 <= b <= 127 ->
  utf8_decode (b :: r)
  = match utf8_decode r with inr t => inr (b :: t) | inl e => inl e end.
Proof.
  intros H. cbn [utf8_decode].
  replace (in_range 0 127 b) with true by (unfold in_range; cmp_cases).
  reflexivity.
Qed.

Lemma utf8_decode_2 b c1 r :
  194 <= b <= 223 -> 128 <= c1 <= 191 ->
  utf8_decode (b :: c1 :: r)
  = match utf8_decode r with
    | inr t => inr ((b - 192) * 64 + (c1 - 128) :: t)
    | inl e => inl e
    end.
Proof.
  intros Hb H1. cbn [utf8_decode].
  replace (in_range 0 127 b) with false by (unfold in_range; cmp_cases).
  replace (in_range 194 223 b) with true by (unfold in_range; cmp_cases).
  replace (in_range 128 191 c1) with true by (unfold in_range; cmp_cases).
  reflexivity.
Qed.

Lemma utf8_decode_3 b c1 c2 r :
  224 <= b <= 239 ->
  (if b =? 224 then 160 else 128) <= c1 <= (if b =? 237 then 159 else 191) ->
  128 <= c2 <= 191 ->
  utf8_decode (b :: c1 :: c2 :: r)
  = match utf8_decode r with
    | inr t => inr ((b - 224) * 4096 + (c1 - 128) * 64 + (c2 - 128) :: t)
    | inl e => inl e
    end.
Proof.
  intros Hb H1 H2. cbn [utf8_decode].
  replace (in_range 0 127 b) with false by (unfold in_range; cmp_cases).
  replace (in_range 194 223 b) with false by (unfold in_range; cmp_cases).
  replace (in_range 224 239 b) with true by (unfold in_range; cmp_cases).
  replace (in_range (if b =? 224 then 160 else 128)
             (if b =? 237 then 159 else 191) c1) with true
    by (unfold in_range; symmetry; apply andb_true_iff;
        split; apply Z.leb_le; lia).
  replace (in_range 128 191 c2) with true by (unfold in_range; cmp_cases).
  reflexivity.
Qed.

Lemma utf8_decode_4 b c1 c2 c3 r :
  240 <= b <= 244 ->
  (if b =? 240 then 144 else 128) <= c1 <= (if b =? 244 then 143 else 191) ->
  128 <= c2 <= 191 -> 128 <= c3 <= 191 ->
  utf8_decode (b :: c1 :: c2 :: c3 :: r)
  = match utf8_decode r with
    | inr t =>
        let cp := (b - 240) * 262144 + (c1 - 128) * 4096
                  + (c2 - 128) * 64 + (c3 - 128) in
        inr (55296 + (cp - 65536) / 1024 :: 56320 + (cp - 65536) mod 1024 :: t)
    | inl e => inl e
    end.
Proof.
  intros Hb H1 H2 H3. cbn [utf8_decode].
  replace (in_range 0 127 b) with false by (unfold in_range; cmp_cases).
  replace (in_range 194 223 b) with false by (unfold in_range; cmp_cases).
  replace (in_range 224 239 b) with false by (unfold in_range; cmp_cases).
  replace (in_range 240 244 b) with true by (unfold in_range; cmp_cases).
  replace (in_range (if b =? 240 then 144 else 128)
             (if b =? 244 then 143 else 191) c1) with true
    by (unfold in_range; symmetry; apply andb_true_iff;
        split; apply Z.leb_le; lia).
  replace (in_range 128 191 c2) with true by (unfold in_range; cmp_cases).
  replace (in_range 128 191 c3) with true by (unfold in_range; cmp_cases).
  reflexivity.
Qed.

Lemma utf8_encode_unit c r :
  is_high_surrogate c = false -> is_low_surrogate c = false ->
  utf8_encode (c :: r)
  = match utf8_encode r with
    | inr t => inr (utf8_unit c ++ t)
    | inl e => inl e
    end.
Proof.
  intros Hh Hl. cbn [utf8_encode]. unfold utf8_unit. rewrite Hh, Hl.
  destruct (c <? 128); [destruct (utf8_encode r); reflexivity|].
  destruct (c <? 2048); destruct (utf8_encode r); reflexivity.
Qed.

Lemma utf8_encode_pair c d r :
  is_high_surrogate c = true -> is_low_surrogate d = true ->
  utf8_encode (c :: d :: r)
  = match utf8_encode r with
    | inr t => inr (utf8_pair c d ++ t)
    | inl e => inl e
    end.
Proof.
  intros Hh Hl.
  assert (H1 : (c <? 128) = false).
  { unfold is_high_surrogate in Hh. apply Z.ltb_ge. lia. }
  assert (H2 : (c <? 2048) = false).
  { unfold is_high_surrogate in Hh. apply Z.ltb_ge. lia. }
  cbn [utf8_encode]. rewrite H1, H2, Hh, Hl. unfold utf8_pair.
  destruct (utf8_encode r); reflexivity.
Qed.

Lemma utf8_encode_lone c r :
  is_high_surrogate c = true ->
  match r with d :: _ => is_low_surrogate d = false | [] => True end ->
  utf8_encode (c :: r) = inl URIError.
Proof.
  intros Hh Hr.
  assert (H1 : (c <? 128) = false).
  { unfold is_high_surrogate in Hh. apply Z.ltb_ge. lia. }
  assert (H2 : (c <? 2048) = false).
  { unfold is_high_surrogate in Hh. apply Z.ltb_ge. lia. }
  cbn [utf8_encode]. rewrite H1, H2, Hh.
  destruct r as [|d r']; [reflexivity|]. now rewrite Hr.
Qed.

Lemma utf8_decode_unit c r :
  code_unit c -> is_high_surrogate c = false -> is_low_surrogate c = false ->
  utf8_decode (utf8_unit c ++ r)
  = match utf8_decode r with inr t => inr (c :: t) | inl e => inl e end.
Proof.
  unfold code_unit, is_high_surrogate, is_low_surrogate, utf8_unit.
  intros Hc Hh Hl.
  destruct (Z.ltb_spec c 128).
  { cbn [app]. apply utf8_decode_1. lia. }
  destruct (Z.ltb_spec c 2048).
  { cbn [app]. rewrite utf8_decode_2 by dlia.
    replace ((192 + c / 64 - 192) * 64 + (128 + c mod 64 - 128)) with c by dlia.
    reflexivity. }
  cbn [app]. rewrite utf8_decode_3.
  - replace ((224 + c / 4096 - 224) * 4096 + (128 + c / 64 mod 64 - 128) * 64
             + (128 + c mod 64 - 128)) with c by dlia.
    reflexivity.
  - dlia.
  - assert (Hs : c < 55296 \/ 57343 < c) by lia.
    destruct (Z.eqb_spec (224 + c / 4096) 224);
      destruct (Z.eqb_spec (224 + c / 4096) 237); dlia.
  - dlia.
Qed.

Lemma utf8_decode_pair c d r :
  is_high_surrogate c = true -> is_low_surrogate d = true ->
  utf8_decode (utf8_pair c d ++ r)
  = match utf8_decode r with inr t => inr (c :: d :: t) | inl e => inl e end.
Proof.
  unfold is_high_surrogate, is_low_surrogate, utf8_pair.
  intros Hh Hl. cbv zeta.
  set (cp := (c - 55296) * 1024 + (d - 56320) + 65536).
  assert (Hcp : 65536 <= cp <= 1114111) by (subst cp; lia).
  cbn [app]. rewrite utf8_decode_4.
  - cbv zeta.
    replace ((240 + cp / 262144 - 240) * 262144
             + (128 + cp / 4096 mod 64 - 128) * 4096
             + (128 + cp / 64 mod 64 - 128) * 64 + (128 + cp mod 64 - 128))
      with cp by dlia.
    replace (55296 + (cp - 65536) / 1024) with c by (subst cp; dlia).
    replace (56320 + (cp - 65536) mod 1024) with d by (subst cp; dlia).
    reflexivity.
  - dlia.
  - destruct (Z.eqb_spec (240 + cp / 262144) 240);
      destruct (Z.eqb_spec (240 + cp / 262144) 244); dlia.
  - dlia.
  - dlia.
Qed.

Lemma utf8_unit_bytes c : code_unit c -> Forall is_byte (utf8_unit c).
Proof.
  unfold code_unit, utf8_unit, is_byte. intros Hc.
  destruct (Z.ltb_spec c 128); [repeat constructor; lia|].
  destruct (Z.ltb_spec c 2048); repeat constructor; dlia.
Qed.

Lemma utf8_pair_bytes c d :
  is_high_surrogate c = true -> is_low_surrogate d = true ->
  Forall is_byte (utf8_pair c d).
Proof.
  unfold is_high_surrogate, is_low_surrogate, utf8_pair, is_byte.
  intros Hh Hl. cbv zeta.
  set (cp := (c - 55296) * 1024 + (d - 56320) + 65536).
  assert (Hcp : 65536 <= cp <= 1114111) by (subst cp; lia).
  repeat constructor; dlia.
Qed.

(** What [utf8_encode] returns is made of octets and decodes to the
    string. *)
Lemma utf8_decode_encode t : forall o,
  Forall code_unit t -> utf8_encode t = inr o ->
  utf8_decode o = inr t /\ Forall is_byte o.
Proof.
  induction t as [| a | a b t IH0 IH1] using list_ind2; intros o Ht.
  - intros E. apply inr_eq in E. subst o. split; [reflexivity|constructor].
  - inversion Ht as [|? ? Ha _]; subst.
    destruct (is_high_surrogate a) eqn:Eh.
    { now rewrite utf8_encode_lone. }
    destruct (is_low_surrogate a) eqn:El.
    { cbn [utf8_encode]. rewrite Eh, El.
      unfold is_low_surrogate in El.
      destruct (Z.ltb_spec a 128); [lia|].
      destruct (Z.ltb_spec a 2048); [lia|discriminate]. }
    rewrite utf8_encode_unit by assumption. cbn [utf8_encode].
    intros E. apply inr_eq in E. subst o.
    rewrite utf8_decode_unit by assumption. split; [reflexivity|].
    rewrite app_nil_r. now apply utf8_unit_bytes.
  - inversion Ht as [|? ? Ha Ht1]; subst.
    inversion Ht1 as [|? ? Hb Ht0]; subst.
    destruct (is_high_surrogate a) eqn:Eh.
    + destruct (is_low_surrogate b) eqn:El.
      * rewrite utf8_encode_pair by assumption.
        destruct (utf8_encode t) as [e|o0] eqn:E0; [discriminate|].
        intros E. apply inr_eq in E. subst o.
        destruct (IH0 o0 Ht0 eq_refl) as [D0 B0].
        rewrite utf8_decode_pair, D0 by assumption. split; [reflexivity|].
        apply Forall_app. split; [now apply utf8_pair_bytes|assumption].
      * now rewrite utf8_encode_lone.
    + destruct (is_low_surrogate a) eqn:El.
      { cbn [utf8_encode]. rewrite Eh, El.
        unfold is_low_surrogate in El.
        destruct (Z.ltb_spec a 128); [lia|].
        destruct (Z.ltb_spec a 2048); [lia|discriminate]. }
      rewrite utf8_encode_unit by assumption.
      destruct (utf8_encode (b :: t)) as [e|o1] eqn:E1; [discriminate|].
      intros E. apply inr_eq in E. subst o.
      destruct (IH1 o1 Ht1 eq_refl) as [D1 B1].
      rewrite utf8_decode_unit, D1 by assumption. split; [reflexivity|].
      apply Forall_app. split; [now apply utf8_unit_bytes|assumption].
Qed.

(** ** The envelope string *)

Lemma to_url_safe c : b64_alpha c -> url_safe_char (to_url c).
Proof.
  intros [v Hv]. apply b64_val_inv in Hv.
  unfold to_url, url_safe_char, c_plus, c_minus, c_slash, c_underscore.
  destruct (Z.eqb_spec c 43) as [->|N1]; [cbn; lia|].
  destruct (Z.eqb_spec c 47) as [->|N2]; [cbn; lia|].
  cbv beta iota zeta. lia.
Qed.

Lemma latin1_bytes l : forallb is_latin1 l = true -> Forall is_byte l.
Proof.
  intros H. apply Forall_forall. intros x Hx.
  rewrite forallb_forall in H. specialize (H x Hx).
  unfold is_latin1 in H. unfold is_byte. lia.
Qed.

Lemma btoa_inr l t : btoa l = inr t -> Forall is_byte l /\ t = b64_encode l.
Proof.
  unfold btoa. destruct (forallb is_latin1 l) eqn:E; [|discriminate].
  intros H. inv H. split; [now apply latin1_bytes|reflexivity].
Qed.

Lemma b64_core_mod4 l : len (b64_core l) mod 4 <> 1.
Proof.
  pose proof (b64_core_len l) as H. pose proof (b64_npad_le l) as Hn.
  revert H. dlia.
Qed.

Lemma base64url_nopad_safe l :
  Forall is_byte l ->
  Forall url_safe_char (base64url_nopad l)
  /\ len (base64url_nopad l) mod 4 <> 1.
Proof.
  intros Hl. rewrite base64url_nopad_core by assumption. split.
  - apply Forall_map. eapply Forall_impl; [|apply (b64_core_alpha _ Hl)].
    exact to_url_safe.
  - unfold len. rewrite length_map. apply b64_core_mod4.
Qed.

(** ** UTF-8 of a concatenation *)

Lemma utf8_encode_app a : forall a' b,
  utf8_encode a = inr a' ->
  utf8_encode (a ++ b)
  = match utf8_encode b with inr b' => inr (a' ++ b') | inl e => inl e end.
Proof.
  induction a as [| c | c d a IH0 IH1] using list_ind2; intros a' b.
  - intros E. apply inr_eq in E. subst a'. cbn [app].
    destruct (utf8_encode b); reflexivity.
  - destruct (is_high_surrogate c) eqn:Eh.
    { now rewrite utf8_encode_lone. }
    destruct (is_low_surrogate c) eqn:El.
    { cbn [utf8_encode]. rewrite Eh, El.
      unfold is_low_surrogate in El.
      destruct (Z.ltb_spec c 128); [lia|].
      destruct (Z.ltb_spec c 2048); [lia|discriminate]. }
    cbn [app]. rewrite (utf8_encode_unit c []), (utf8_encode_unit c b)
      by assumption. cbn [utf8_encode].
    intros E. apply inr_eq in E. subst a'. rewrite app_nil_r.
    reflexivity.
  - destruct (is_high_surrogate c) eqn:Eh.
    + destruct (is_low_surrogate d) eqn:El.
      * cbn [app]. rewrite (utf8_encode_pair c d a),
          (utf8_encode_pair c d (a ++ b)) by assumption.
        destruct (utf8_encode a) as [e|o0] eqn:E0; [discriminate|].
        intros E. apply inr_eq in E. subst a'.
        rewrite (IH0 o0 b eq_refl).
        destruct (utf8_encode b); [reflexivity|]. now rewrite app_assoc.
      * now rewrite utf8_encode_lone.
    + destruct (is_low_surrogate c) eqn:El.
      { cbn [utf8_encode]. rewrite Eh, El.
        unfold is_low_surrogate in El.
        destruct (Z.ltb_spec c 128); [lia|].
        destruct (Z.ltb_spec c 2048); [lia|discriminate]. }
      change ((c :: d :: a) ++ b) with (c :: (d :: a) ++ b).
      rewrite (utf8_encode_unit c (d :: a)),
        (utf8_encode_unit c ((d :: a) ++ b)) by assumption.
      destruct (utf8_encode (d :: a)) as [e|o1] eqn:E1; [discriminate|].
      intros E. apply inr_eq in E. subst a'.
      rewrite (IH1 o1 b eq_refl).
      destruct (utf8_encode b); [reflexivity|]. now rewrite app_assoc.
Qed.

Lemma encodable_app a b : encodable a -> encodable b -> encodable (a ++ b).
Proof.
  intros [a' Ha] [b' Hb]. exists (a' ++ b').
  now rewrite (utf8_encode_app a a' b Ha), Hb.
Qed.

Lemma encodable_ascii l : Forall ascii_char l -> encodable l.
Proof. intros H. exists l. now apply utf8_encode_ascii. Qed.

Lemma hex_digit_ascii n : 0 <= n < 16 -> ascii_char (hex_digit n).
Proof. intros H. apply plain_ascii, hex_digit_plain, H. Qed.

Lemma unicode_escape_ascii c : code_unit c -> Forall ascii_char (unicode_escape c).
Proof.
  unfold code_unit. intros Hc. unfold unicode_escape.
  repeat constructor; try (apply hex_digit_ascii; dlia);
    unfold ascii_char, c_backslash; lia.
Qed.

Lemma quote_char_encodable c :
  code_unit c -> is_high_surrogate c = false -> is_low_surrogate c = false ->
  encodable (quote_char c).
Proof.
  intros Hc Hh Hl. unfold quote_char, c_quote, c_backslash.
  repeat match goal with
  | |- context [if ?x =? ?y then _ else _] =>
      destruct (Z.eqb_spec x y);
      [apply encodable_ascii; repeat constructor; unfold ascii_char; lia|]
  end.
  destruct (Z.ltb_spec c 32).
  - apply encodable_ascii, unicode_escape_ascii, Hc.
  - exists (utf8_unit c ++ []). now rewrite utf8_encode_unit.
Qed.

(** The text [JSON.stringify] makes of a string has no surrogate
    without its partner. *)
Lemma quote_body_encodable s : Forall code_unit s -> encodable (quote_body s).
Proof.
  induction s as [| a | a b s IH0 IH1] using list_ind2; intros Hs.
  - exists []. reflexivity.
  - inversion Hs as [|? ? Ha _]; subst. cbn [quote_body].
    destruct (is_high_surrogate a) eqn:Eh.
    { apply encodable_ascii, unicode_escape_ascii, Ha. }
    destruct (is_low_surrogate a) eqn:El.
    { rewrite app_nil_r. apply encodable_ascii, unicode_escape_ascii, Ha. }
    rewrite app_nil_r. now apply quote_char_encodable.
  - inversion Hs as [|? ? Ha Hs1]; subst.
    inversion Hs1 as [|? ? Hb Hs0]; subst.
    specialize (IH0 Hs0). specialize (IH1 Hs1).
    destruct (is_high_surrogate a) eqn:Eh.
    + destruct (is_low_surrogate b) eqn:El.
      * replace (quote_body (a :: b :: s)) with (a :: b :: quote_body s)
          by (cbn [quote_body]; now rewrite Eh, El).
        destruct IH0 as [o Ho]. exists (utf8_pair a b ++ o).
        now rewrite utf8_encode_pair, Ho.
      * replace (quote_body (a :: b :: s))
          with (unicode_escape a ++ quote_body (b :: s))
          by (cbn [quote_body]; now rewrite Eh, El).
        apply encodable_app; [|assumption].
        apply encodable_ascii, unicode_escape_ascii, Ha.
    + replace (quote_body (a :: b :: s))
        with ((if is_low_surrogate a then unicode_escape a else quote_char a)
              ++ quote_body (b :: s))
        by (cbn [quote_body]; rewrite Eh; now destruct (is_low_surrogate a)).
      apply encodable_app; [|assumption].
      destruct (is_low_surrogate a) eqn:El.
      * apply encodable_ascii, unicode_escape_ascii, Ha.
      * now apply quote_char_encodable.
Qed.

Lemma JSON_quote_encodable s : Forall code_unit s -> encodable (JSON_quote s).
Proof.
  intros Hs. unfold JSON_quote.
  change (c_quote :: quote_body s ++ [c_quote])
    with ([c_quote] ++ quote_body s ++ [c_quote]).
  repeat apply encodable_app; try (now apply quote_body_encodable);
    apply encodable_ascii; repeat constructor; unfold ascii_char, c_quote; lia.
Qed.

Lemma JSON_number_ascii n : Forall ascii_char (JSON_number n).
Proof.
  unfold JSON_number. destruct (n <? 0).
  - constructor; [unfold ascii_char, c_minus; lia|].
    apply Forall_plain_ascii, uint_chars_plain.
  - apply Forall_plain_ascii, uint_chars_plain.
Qed.

Lemma ascii_literal l :
  forallb (fun c => (0 <=? c) && (c <? 128)) l = true -> Forall ascii_char l.
Proof.
  intros H. apply Forall_forall. intros x Hx.
  rewrite forallb_forall in H. specialize (H x Hx). unfold ascii_char. lia.
Qed.

(** [encodeURIComponent] accepts the JSON text of the envelope object,
    whatever its strings are. *)
Lemma JSON_stringify_encodable c :
  Forall code_unit (k c) -> Forall code_unit (i c) -> Forall code_unit (d c) ->
  encodable (JSON_stringify c).
Proof.
  intros Hk Hi Hd. unfold JSON_stringify.
  repeat apply encodable_app;
    try (apply JSON_quote_encodable; assumption);
    try (apply encodable_ascii, JSON_number_ascii);
    try (apply JSON_quote_encodable, ascii_code_unit, ascii_literal;
         reflexivity);
    apply encodable_ascii, ascii_literal; reflexivity.
Qed.

(** The code units of the JSON text. *)
Lemma ascii_code_unit l : Forall ascii_char l -> Forall code_unit l.
Proof. apply Forall_impl. unfold ascii_char, code_unit. lia. Qed.

Lemma quote_char_units c : code_unit c -> Forall code_unit (quote_char c).
Proof.
  intros Hc. unfold quote_char, c_quote, c_backslash.
  repeat match goal with
  | |- context [if ?x =? ?y then _ else _] =>
      destruct (Z.eqb_spec x y);
      [repeat constructor; unfold code_unit; lia|]
  end.
  destruct (Z.ltb_spec c 32).
  - apply ascii_code_unit, unicode_escape_ascii, Hc.
  - constructor; [exact Hc|constructor].
Qed.

Lemma quote_body_units s : Forall code_unit s -> Forall code_unit (quote_body s).
Proof.
  induction s as [| a | a b s IH0 IH1] using list_ind2; intros Hs.
  - constructor.
  - inversion Hs as [|? ? Ha _]; subst. cbn [quote_body].
    destruct (is_high_surrogate a);
      [apply ascii_code_unit, unicode_escape_ascii, Ha|].
    rewrite !app_nil_r.
    destruct (is_low_surrogate a);
      [apply ascii_code_unit, unicode_escape_ascii, Ha|].
    now apply quote_char_units.
  - inversion Hs as [|? ? Ha Hs1]; subst.
    inversion Hs1 as [|? ? Hb Hs0]; subst.
    specialize (IH0 Hs0). specialize (IH1 Hs1).
    cbn [quote_body] in *.
    destruct (is_high_surrogate a).
    + destruct (is_low_surrogate b).
      * repeat (constructor; [assumption|]). exact IH0.
      * apply Forall_app. split; [|exact IH1].
        apply ascii_code_unit, unicode_escape_ascii, Ha.
    + destruct (is_low_surrogate a); apply Forall_app; (split; [|exact IH1]).
      * apply ascii_code_unit, unicode_escape_ascii, Ha.
      * now apply quote_char_units.
Qed.

Lemma JSON_stringify_units c :
  Forall code_unit (k c) -> Forall code_unit (i c) -> Forall code_unit (d c) ->
  Forall code_unit (JSON_stringify c).
Proof.
  intros Hk Hi Hd. unfold JSON_stringify, JSON_quote.
  repeat (apply Forall_app; split);
    try (apply Forall_cons; [unfold code_unit, c_quote; lia|]);
    repeat (apply Forall_app; split);
    try (apply quote_body_units; assumption);
    try (apply ascii_code_unit, JSON_number_ascii);
    try (apply quote_body_units);
    try (apply ascii_code_unit, ascii_literal; reflexivity);
    repeat constructor; unfold code_unit, c_quote; lia.
Qed.

(** ** [JSON.parse] of what [JSON.stringify] wrote *)

Lemma parse_string_body_copy c r :
  32 <= c -> c <> c_quote -> c <> c_backslash ->
  parse_string_body (c :: r) = parse_cons c (parse_string_body r).
Proof.
  intros H1 H2 H3. cbn [parse_string_body].
  destruct (Z.eqb_spec c c_quote); [contradiction|].
  destruct (Z.eqb_spec c c_backslash); [contradiction|].
  destruct (Z.ltb_spec c 32); [lia|]. reflexivity.
Qed.

Lemma parse_string_body_u h1 h2 h3 h4 a b c d r :
  hex_val h1 = Some a -> hex_val h2 = Some b ->
  hex_val h3 = Some c -> hex_val h4 = Some d ->
  parse_string_body (c_backslash :: 117 :: h1 :: h2 :: h3 :: h4 :: r)
  = parse_cons (a * 4096 + b * 256 + c * 16 + d) (parse_string_body r).
Proof.
  intros H1 H2 H3 H4. cbn [parse_string_body].
  unfold c_backslash, c_quote. cbn [Z.eqb Pos.eqb].
  rewrite H1, H2, H3, H4. reflexivity.
Qed.

Lemma parse_string_body_unicode c r :
  code_unit c ->
  parse_string_body (unicode_escape c ++ r)
  = parse_cons c (parse_string_body r).
Proof.
  unfold code_unit. intros Hc. unfold unicode_escape. cbn [app].
  rewrite (parse_string_body_u _ _ _ _ (c / 4096) (c / 256 mod 16)
             (c / 16 mod 16) (c mod 16))
    by (apply hex_val_digit; dlia).
  f_equal. dlia.
Qed.

Lemma parse_string_body_simple e x r :
  (e = 98 /\ x = 8) \/ (e = 116 /\ x = 9) \/ (e = 110 /\ x = 10)
  \/ (e = 102 /\ x = 12) \/ (e = 114 /\ x = 13)
  \/ (e = c_quote /\ x = c_quote) \/ (e = c_backslash /\ x = c_backslash) ->
  parse_string_body (c_backslash :: e :: r)
  = parse_cons x (parse_string_body r).
Proof.
  intros H.
  repeat (destruct H as [[-> ->]|H]; [reflexivity|]).
  destruct H as [-> ->]. reflexivity.
Qed.

Lemma parse_string_body_quote_char c r :
  code_unit c -> is_high_surrogate c = false -> is_low_surrogate c = false ->
  parse_string_body (quote_char c ++ r) = parse_cons c (parse_string_body r).
Proof.
  intros Hc Hh Hl. unfold quote_char.
  destruct (Z.eqb_spec c 8) as [->|N1];
    [apply parse_string_body_simple; tauto|].
  destruct (Z.eqb_spec c 9) as [->|N2];
    [apply parse_string_body_simple; tauto|].
  destruct (Z.eqb_spec c 10) as [->|N3];
    [apply parse_string_body_simple; tauto|].
  destruct (Z.eqb_spec c 12) as [->|N4];
    [apply parse_string_body_simple; tauto|].
  destruct (Z.eqb_spec c 13) as [->|N5];
    [apply parse_string_body_simple; tauto|].
  destruct (Z.eqb_spec c c_quote) as [->|N6];
    [apply parse_string_body_simple; tauto|].
  destruct (Z.eqb_spec c c_backslash) as [->|N7];
    [apply parse_string_body_simple; tauto|].
  destruct (Z.ltb_spec c 32).
  - now apply parse_string_body_unicode.
  - cbn [app]. now apply parse_string_body_copy.
Qed.

Lemma surrogate_copy c r :
  is_high_surrogate c = true \/ is_low_surrogate c = true ->
  parse_string_body (c :: r) = parse_cons c (parse_string_body r).
Proof.
  unfold is_high_surrogate, is_low_surrogate, c_quote, c_backslash.
  intros H. apply parse_string_body_copy; unfold c_quote, c_backslash; lia.
Qed.

(** A string literal written by [JSON.stringify] reads back as the
    string. *)
Lemma parse_string_body_quote s : forall rest,
  Forall code_unit s ->
  parse_string_body (quote_body s ++ c_quote :: rest) = Some (s, rest).
Proof.
  assert (Hq : forall rest, parse_string_body (c_quote :: rest) = Some ([], rest)).
  { intros rest. cbn [parse_string_body]. now rewrite Z.eqb_refl. }
  induction s as [| a | a b s IH0 IH1] using list_ind2; intros rest Hs.
  - apply Hq.
  - inversion Hs as [|? ? Ha _]; subst. cbn [quote_body].
    destruct (is_high_surrogate a) eqn:Eh.
    { rewrite parse_string_body_unicode, Hq by assumption. reflexivity. }
    destruct (is_low_surrogate a) eqn:El; rewrite app_nil_r.
    { rewrite parse_string_body_unicode, Hq by assumption. reflexivity. }
    rewrite parse_string_body_quote_char, Hq by assumption. reflexivity.
  - inversion Hs as [|? ? Ha Hs1]; subst.
    inversion Hs1 as [|? ? Hb Hs0]; subst.
    specialize (IH0 rest Hs0). specialize (IH1 rest Hs1).
    destruct (is_high_surrogate a) eqn:Eh.
    + destruct (is_low_surrogate b) eqn:El.
      * replace (quote_body (a :: b :: s)) with (a :: b :: quote_body s)
          by (cbn [quote_body]; now rewrite Eh, El).
        cbn [app]. rewrite (surrogate_copy a), (surrogate_copy b), IH0 by tauto.
        reflexivity.
      * replace (quote_body (a :: b :: s))
          with (unicode_escape a ++ quote_body (b :: s))
          by (cbn [quote_body]; now rewrite Eh, El).
        rewrite <- app_assoc, parse_string_body_unicode, IH1 by assumption.
        reflexivity.
    + replace (quote_body (a :: b :: s))
        with ((if is_low_surrogate a then unicode_escape a else quote_char a)
              ++ quote_body (b :: s))
        by (cbn [quote_body]; rewrite Eh; now destruct (is_low_surrogate a)).
      rewrite <- app_assoc.
      destruct (is_low_surrogate a) eqn:El.
      * rewrite parse_string_body_unicode, IH1 by assumption. reflexivity.
      * rewrite parse_string_body_quote_char, IH1 by assumption. reflexivity.
Qed.

Lemma parse_value_quote fuel x rest :
  Forall code_unit x ->
  parse_value (S fuel) (c_quote :: quote_body x ++ c_quote :: rest)
  = Some (JStr x, rest).
Proof.
  intros Hx. parse_step.
  change 34 with c_quote. now rewrite parse_string_body_quote.
Qed.

Lemma parse_members_quote fuel key val rest :
  Forall plain_char key -> Forall code_unit val ->
  parse_members (S (S fuel))
    (c_quote :: key ++ c_quote :: c_colon :: c_quote :: quote_body val
               ++ c_quote :: c_comma :: rest)
  = match parse_members (S fuel) rest with
    | Some (ms, r) => Some ((key, JStr val) :: ms, r)
    | None => None
    end.
Proof.
  intros Hk Hv.
  cbn [parse_members skip_ws is_json_ws Z.eqb Pos.eqb orb c_quote].
  change 34 with c_quote. rewrite parse_string_body_plain by assumption.
  cbn [skip_ws is_json_ws Z.eqb Pos.eqb orb c_colon].
  change 34 with c_quote.
  rewrite parse_value_quote by assumption.
  cbn [skip_ws is_json_ws Z.eqb Pos.eqb orb c_comma]. reflexivity.
Qed.

Lemma JSON_stringify_eq kh ih ct n :
  0 <= n ->
  JSON_stringify {| k := kh; i := ih; d := ct; s := n |}
  = 123 :: c_quote :: [107] ++ c_quote :: c_colon :: c_quote :: quote_body kh
    ++ c_quote :: c_comma :: c_quote :: [105] ++ c_quote :: c_colon
    :: c_quote :: quote_body ih
    ++ c_quote :: c_comma :: c_quote :: [100] ++ c_quote :: c_colon
    :: c_quote :: quote_body ct
    ++ c_quote :: c_comma :: c_quote :: [115] ++ c_quote :: c_colon
    :: uint_chars (N.to_uint (Z.to_N n)) ++ 125 :: [].
Proof.
  intros Hn. unfold JSON_stringify, JSON_quote, JSON_number. cbn [k i d s].
  destruct (Z.ltb_spec n 0); [lia|].
  change (js "{") with [123]. change (quote_body (js "k")) with [107].
  change (quote_body (js "i")) with [105].
  change (quote_body (js "d")) with [100].
  change (quote_body (js "s")) with [115]. change (js ":") with [c_colon].
  change (js ",") with [c_comma]. change (js "}") with [125].
  cbn [app]. repeat (rewrite <- ?app_assoc; cbn [app]). reflexivity.
Qed.

(** [JSON.parse] gives back the object that [JSON.stringify] wrote,
    whatever its strings are. *)
Lemma JSON_parse_stringify kh ih ct n :
  Forall code_unit kh -> Forall code_unit ih -> Forall code_unit ct ->
  0 <= n ->
  JSON_parse (JSON_stringify {| k := kh; i := ih; d := ct; s := n |})
  = inr (envelope_value kh ih ct n).
Proof.
  intros Hk Hi Hc Hn. unfold JSON_parse.
  rewrite JSON_stringify_eq by assumption.
  set (f := (2 * length _ + 2)%nat).
  assert (Hf : (6 <= f)%nat) by (subst f; cbn [length]; lia).
  clearbody f. do 6 (destruct f as [|f]; [lia|]). clear Hf.
  cbn [parse_value skip_ws is_json_ws Z.eqb Pos.eqb orb c_quote].
  rewrite !parse_members_quote by (assumption || (apply plain_letter; lia)).
  rewrite parse_members_nat by (apply plain_letter; lia).
  reflexivity.
Qed.

Section Serialisation.

Context {host : Host}.

Lemma encryptFile_inr file w envelope w' :
  encryptFile file w = (inr envelope, w') ->
  size file <= MAX_FILE_SIZE
  /\ w' = after_encrypt w
  /\ exists octets,
       utf8_encode (JSON_stringify (combined_of file w)) = inr octets
       /\ Forall is_byte octets
       /\ envelope = base64url_nopad octets.
Proof.
  unfold combined_of, encryptFile, try_catch, bind.
  destruct (Z.gtb_spec (size file) MAX_FILE_SIZE) as [Hgt|Hle].
  { unfold throw, console_error, emit. cbn. discriminate. }
  unfold WordArray_random. change (Z.to_nat ((32 + 3) / 4)) with 8%nat.
  cbn [rng_cursor events].
  change (Z.to_nat ((16 + 3) / 4)) with 4%nat.
  unfold encrypt, bind, emit, ret, lift. cbn [rng_cursor events].
  fold (drawn_key w). fold (drawn_iv w).
  cbn [WordArray_create sigBytes]. fold (size file).
  destruct (utf8_encode _) as [e|octets] eqn:Eu.
  { unfold console_error, emit, throw. cbn. discriminate. }
  destruct (btoa octets) as [e|b64] eqn:Eb.
  { unfold console_error, emit, throw. cbn. discriminate. }
  intros H. inv H. apply btoa_inr in Eb. destruct Eb as [Hb ->].
  split; [lia|]. split; [reflexivity|].
  exists octets. repeat split; auto.
Qed.

Lemma combined_units file w :
  cipher_text_units host ->
  Forall code_unit (k (combined_of file w))
  /\ Forall code_unit (i (combined_of file w))
  /\ Forall code_unit (d (combined_of file w)).
Proof.
  intros Hu. unfold combined_of. cbn [k i d].
  repeat split;
    try (apply ascii_code_unit, Forall_plain_ascii, Hex_stringify_plain).
  apply Hu.
Qed.

(** Within the bound [encryptFile] returns: the JSON text has no
    surrogate without its partner and its UTF-8 form is made of
    octets, so neither [encodeURIComponent] nor [btoa] throws. *)
Lemma encryptFile_runs file w :
  cipher_text_units host ->
  size file <= MAX_FILE_SIZE ->
  exists octets,
    utf8_encode (JSON_stringify (combined_of file w)) = inr octets
    /\ Forall is_byte octets
    /\ utf8_decode octets = inr (JSON_stringify (combined_of file w))
    /\ encryptFile file w = (inr (base64url_nopad octets), after_encrypt w).
Proof.
  intros Hu Hsize.
  destruct (combined_units file w Hu) as (Uk & Ui & Ud).
  destruct (JSON_stringify_encodable _ Uk Ui Ud) as [octets Ho].
  destruct (utf8_decode_encode _ octets (JSON_stringify_units _ Uk Ui Ud) Ho)
    as [Hd Hb].
  exists octets. repeat split; auto.
  unfold combined_of in Ho.
  unfold after_encrypt, base64url_nopad.
  unfold drawn_key, drawn_iv in *.
  unfold encryptFile, try_catch, bind.
  destruct (Z.gtb_spec (size file) MAX_FILE_SIZE) as [Hgt|_]; [lia|].
  unfold WordArray_random. change (Z.to_nat ((32 + 3) / 4)) with 8%nat.
  cbn [rng_cursor events].
  change (Z.to_nat ((16 + 3) / 4)) with 4%nat.
  unfold encrypt, bind, emit, ret, lift. cbn [rng_cursor events].
  cbn [WordArray_create sigBytes]. fold (size file).
  rewrite Ho, btoa_bytes by assumption.
  reflexivity.
Qed.

Lemma encryptFile_oversize file w :
  MAX_FILE_SIZE < size file ->
  encryptFile file w
  = (inl (Error (js "File size exceeds 10MB limit")),
     logged w (EvConsoleError (js "Encryption error:")
                 (Error (js "File size exceeds 10MB limit")))).
Proof.
  intros Hgt. unfold encryptFile, try_catch.
  destruct (Z.gtb_spec (size file) MAX_FILE_SIZE) as [_|Hle];
    [reflexivity|lia].
Qed.

(** The envelope read back by the first steps of [decryptFile]. *)
Lemma envelope_parses file w envelope w' :
  cipher_text_units host ->
  encryptFile file w = (inr envelope, w') ->
  envelope <> []
  /\ transport_decode envelope = inr (JSON_stringify (combined_of file w))
  /\ JSON_parse (JSON_stringify (combined_of file w))
     = inr (envelope_value (k (combined_of file w)) (i (combined_of file w))
              (d (combined_of file w)) (size file)).
Proof.
  intros Hu He.
  destruct (encryptFile_inr file w envelope w' He)
    as (Hsize & _ & octets & Ho & Hb & ->).
  destruct (combined_units file w Hu) as (Uk & Ui & Ud).
  destruct (utf8_decode_encode _ octets (JSON_stringify_units _ Uk Ui Ud) Ho)
    as [Hd _].
  split; [|split].
  - apply base64url_nopad_nonempty; [assumption|].
    intros ->. cbn [utf8_decode] in Hd. apply inr_eq in Hd.
    unfold JSON_stringify in Hd. discriminate Hd.
  - unfold transport_decode. now rewrite atob_pad4_base64url.
  - apply (JSON_parse_stringify (k (combined_of file w))
             (i (combined_of file w)) (d (combined_of file w)) (size file));
      auto.
    apply len_nonneg.
Qed.

(** The envelope of a non-empty file is well formed. *)
Lemma envelope_well_formed file w envelope w' :
  cipher_text_units host -> cipher_text_nonempty host ->
  0 < size file ->
  encryptFile file w = (inr envelope, w') ->
  well_formed_envelope envelope
    (k (combined_of file w)) (i (combined_of file w)) (d (combined_of file w))
    (size file).
Proof.
  intros Hu Hne Hpos He.
  destruct (envelope_parses file w envelope w' Hu He) as (N & Htd & Hp).
  destruct (encryptFile_inr file w envelope w' He) as (Hsize & _).
  eexists _, _, (nat_literal (size file)).
  split; [exact N|]. split; [exact Htd|]. split; [exact Hp|].
  unfold combined_of. cbn [k i d].
  repeat split; try reflexivity.
  - apply Hex_stringify_nonempty. reflexivity.
  - apply Hex_stringify_nonempty. reflexivity.
  - apply Hne.
  - apply num_int_value_nat. lia.
  - lia.
  - unfold MAX_FILE_SIZE in Hsize. change (2 ^ 53 - 1) with 9007199254740991.
    lia.
Qed.

(** *** Every run of [decryptFile] *)

Lemma after_nil w : after w [] = w.
Proof. destruct w. unfold after. cbn. now rewrite app_nil_r. Qed.

Lemma after_after w a b : after (after w a) b = after w (a ++ b).
Proof. unfold after. cbn. now rewrite app_assoc. Qed.

(** The body either delivers, or throws before any delivery. *)
Lemma body_outcomes input f m w :
  (exists u8, decryptFile_body input f m w = (inr tt, delivered w f m u8))
  \/ (exists e evs,
        decryptFile_body input f m w = (inl e, after w evs)
        /\ Forall (fun ev => is_delivery ev = false) evs).
Proof.
  assert (Hfail : forall e,
             exists e0 evs,
               (inl e, w) = (@inl exn unit e0, after w evs)
               /\ Forall (fun ev => is_delivery ev = false) evs).
  { intros e. exists e, []. rewrite after_nil. split; [reflexivity|constructor]. }
  unfold decryptFile_body.
  destruct input as [|c input]; [right; apply Hfail|].
  unfold try_catch, bind, lift, throw, console_error, emit.
  destruct (atob _) as [e|decoded].
  { right. eexists _, [_]. split; [reflexivity|]. repeat constructor. }
  destruct (utf8_decode decoded) as [e|json].
  { right. eexists _, [_]. split; [reflexivity|]. repeat constructor. }
  destruct (JSON_parse json) as [e|v].
  { right. eexists _, [_]. split; [reflexivity|]. repeat constructor. }
  destruct (get_prop v "k") as [e|dk]; [right; apply Hfail|].
  destruct (get_prop v "i") as [e|di]; [right; apply Hfail|].
  destruct (get_prop v "d") as [e|dd]; [right; apply Hfail|].
  destruct (get_prop v "s") as [e|ds]; [right; apply Hfail|].
  destruct (negb (truthy dk) || negb (truthy di) || negb (truthy dd)
            || negb (truthy ds)); [right; apply Hfail|].
  destruct (Hex_parse dk) as [e|key]; [right; apply Hfail|].
  destruct (Hex_parse di) as [e|iv]; [right; apply Hfail|].
  unfold decrypt, bind, emit, lift.
  destruct (AES_decrypt dd key iv) as [e|decrypted].
  { right. eexists _, [_]. split; [reflexivity|]. repeat constructor. }
  destruct (new_Uint8Array ds) as [e|u8].
  { right. eexists _, [_]. split; [reflexivity|]. repeat constructor. }
  destruct (copy_words ds (words decrypted) (u8, 0)) as [out off].
  left. exists out. reflexivity.
Qed.

(** *** The two alphabets *)

Lemma from_url_idem c : from_url (from_url c) = from_url c.
Proof.
  unfold from_url, c_minus, c_plus, c_underscore, c_slash.
  destruct (Z.eqb_spec c 45) as [->|N1]; [reflexivity|].
  destruct (Z.eqb_spec c 95) as [->|N2]; [reflexivity|].
  cbv beta iota zeta.
  destruct (Z.eqb_spec c 45); [contradiction|].
  destruct (Z.eqb_spec c 95); [contradiction|reflexivity].
Qed.

Lemma map_from_url_pad n : map from_url (repeat c_eq n) = repeat c_eq n.
Proof. induction n; [reflexivity|]. cbn [repeat map]. now rewrite IHn. Qed.

Lemma pad4_shape s : exists n, pad4 s = s ++ repeat c_eq n.
Proof.
  unfold pad4. cbn [pad_loop].
  destruct (len s mod 4 =? 0); [exists 0%nat; now rewrite app_nil_r|].
  destruct (len (s ++ [c_eq]) mod 4 =? 0); [now exists 1%nat|].
  destruct (len ((s ++ [c_eq]) ++ [c_eq]) mod 4 =? 0).
  - exists 2%nat. now rewrite <- app_assoc.
  - exists 3%nat. now rewrite <- !app_assoc.
Qed.

Lemma pad4_fixed s : len s mod 4 = 0 -> pad4 s = s.
Proof. intros H. unfold pad4. cbn [pad_loop]. now rewrite H. Qed.

Lemma standard_base64_idem s :
  standard_base64 (standard_base64 s) = standard_base64 s.
Proof.
  unfold standard_base64. rewrite !replace_from_url.
  destruct (pad4_shape (map from_url s)) as [n Hn].
  rewrite Hn at 1. rewrite map_app, map_map, map_from_url_pad.
  rewrite (map_ext _ _ from_url_idem), <- Hn.
  apply pad4_fixed, pad4_multiple.
Qed.

Lemma standard_base64_nonempty s : s <> [] -> standard_base64 s <> [].
Proof.
  intros Hs. unfold standard_base64. rewrite replace_from_url.
  destruct (pad4_shape (map from_url s)) as [n ->].
  destruct s; [contradiction|discriminate].
Qed.

(** The body reads its input through [standard_base64] alone. *)
Lemma body_standard a b f m w :
  a <> [] -> b <> [] -> standard_base64 a = standard_base64 b ->
  decryptFile_body a f m w = decryptFile_body b f m w.
Proof.
  intros Ha Hb E. unfold decryptFile_body.
  destruct a as [|x a]; [contradiction|]. destruct b as [|y b]; [contradiction|].
  fold (standard_base64 (x :: a)). fold (standard_base64 (y :: b)).
  now rewrite E.
Qed.

(** *** Properties of [encryptFile] and [decryptFile], continued *)

Lemma envelope_nonempty file w envelope w' :
  encryptFile file w = (inr envelope, w') -> envelope <> [].
Proof.
  intros He.
  destruct (encryptFile_inr file w envelope w' He)
    as (_ & _ & octets & Ho & Hb & ->).
  apply base64url_nopad_nonempty; [assumption|].
  intros ->. revert Ho. unfold JSON_stringify.
  change (js "{") with [123]. cbn [app].
  rewrite (utf8_encode_unit 123) by reflexivity.
  destruct (utf8_encode _); discriminate.
Qed.

(** X4: the string that [encryptFile] returns is safe in a URL and as
    plain text: it is not empty, it is made of letters, digits, [-] and
    [_] only (no [+], [/] or [=]), and its length is never 1 modulo 4. *)
Theorem envelope_is_url_safe file w envelope w' :
  encryptFile file w = (inr envelope, w') ->
  envelope <> []
  /\ Forall url_safe_char envelope
  /\ len envelope mod 4 <> 1.
Proof.
  intros He.
  destruct (encryptFile_inr file w envelope w' He)
    as (_ & _ & octets & Ho & Hb & ->).
  destruct (base64url_nopad_safe octets Hb) as [Hs Hl].
  split; [|split; assumption].
  apply (envelope_nonempty file w _ w' He).
Qed.

(** X5: when the text of a ciphertext is a string of code units,
    [encryptFile] fails for one reason only, the size of the file: it
    returns for every file within the bound, and whatever it throws is
    "File size exceeds 10MB limit"; the handler's other message,
    "Failed to encrypt file. Please try again with a smaller file.", is
    never thrown. *)
Theorem encryptFile_fails_only_by_size file w :
  cipher_text_units host ->
  (size file <= MAX_FILE_SIZE ->
   exists envelope, encryptFile file w = (inr envelope, after_encrypt w))
  /\ (forall e w', encryptFile file w = (inl e, w') ->
      MAX_FILE_SIZE < size file
      /\ e = Error (js "File size exceeds 10MB limit")
      /\ w' = logged w (EvConsoleError (js "Encryption error:") e)).
Proof.
  intros Hu. split.
  - intros Hsize.
    destruct (encryptFile_runs file w Hu Hsize) as (octets & _ & _ & _ & E).
    eauto.
  - intros e w' E.
    destruct (Z.le_gt_cases (size file) MAX_FILE_SIZE) as [Hle|Hgt].
    + destruct (encryptFile_runs file w Hu Hle) as (octets & _ & _ & _ & E').
      rewrite E' in E. discriminate E.
    + rewrite (encryptFile_oversize file w Hgt) in E.
      split; [assumption|]. split; congruence.
Qed.

(** X6: what [encryptFile] returns, the first steps of [decryptFile]
    read back, for every file within the bound (the empty file too) and
    every string the cipher prints: reversing the transport encoding
    gives the JSON text that was serialised, and parsing it gives an
    object with the four members [k], [i], [d], [s] that were written. *)
Theorem envelope_reads_back file w envelope w' :
  cipher_text_units host ->
  encryptFile file w = (inr envelope, w') ->
  transport_decode envelope = inr (JSON_stringify (combined_of file w))
  /\ JSON_parse (JSON_stringify (combined_of file w))
     = inr (JObj [(js "k", JStr (Hex_stringify (drawn_key w)));
                  (js "i", JStr (Hex_stringify (drawn_iv w)));
                  (js "d", JStr (CipherParams_toString
                                  (AES_encrypt
                                     (WordArray_create (file_bytes file))
                                     (drawn_key w) (drawn_iv w))));
                  (js "s", JNum (nat_literal (size file)))]).
Proof.
  intros Hu He.
  destruct (envelope_parses file w envelope w' Hu He) as (_ & Htd & Hp).
  split; [exact Htd|exact Hp].
Qed.

(** The envelope of a non-empty file decrypts to the file. *)
Lemma envelope_decrypts file w envelope f m w' :
  cipher_text_units host -> cipher_text_nonempty host ->
  cipher_inverts host ->
  Forall is_byte (file_bytes file) ->
  0 < size file ->
  encryptFile file w = (inr envelope, after_encrypt w) ->
  decryptFile envelope f m w' = (inr tt, delivered w' f m (file_bytes file)).
Proof.
  intros Hu Hne Hinv Hbytes Hpos E.
  pose proof (envelope_well_formed file w _ _ Hu Hne Hpos E) as Hwf.
  destruct (Hinv (file_bytes file) (drawn_key w) (drawn_iv w) Hbytes
              eq_refl eq_refl) as (key & iv & dec & Pk & Pi & Hdec & Hfirst).
  rewrite (well_formed_delivers _ _ _ _ (size file) key iv dec f m w'
             Hwf Pk Pi Hdec
             (file_size_allocates file
                (proj1 (encryptFile_inr file w _ _ E)))).
  do 2 f_equal. unfold size, len in *. rewrite Nat2Z.id, Hfirst.
  assert (L : (length (file_bytes file)
               <= length (words_bytes (words dec)))%nat).
  { rewrite <- Hfirst at 1. rewrite length_firstn. lia. }
  replace (length (file_bytes file) - length (words_bytes (words dec)))%nat
    with 0%nat by lia.
  apply app_nil_r.
Qed.

(** X7: round trip for every non-empty file within the bound, whatever
    characters the text of the ciphertext has (quotes, control
    characters, characters outside ASCII, surrogates), provided it is
    not empty and the cipher decrypts what it encrypted. *)
Theorem round_trip_any_cipher_text file w f m w' :
  cipher_text_units host -> cipher_text_nonempty host ->
  cipher_inverts host ->
  Forall is_byte (file_bytes file) ->
  0 < size file <= MAX_FILE_SIZE ->
  exists envelope,
    encryptFile file w = (inr envelope, after_encrypt w)
    /\ decryptFile envelope f m w'
       = (inr tt, delivered w' f m (file_bytes file)).
Proof.
  intros Hu Hne Hinv Hbytes [Hpos Hsize].
  destruct (encryptFile_runs file w Hu Hsize) as (octets & _ & _ & _ & E).
  exists (base64url_nopad octets). split; [exact E|].
  now apply (envelope_decrypts file w).
Qed.

(** X8: [decryptFile] accepts the standard form of an envelope as well:
    with [-] and [_] written [+] and [/] and the [=] padding in place,
    it does exactly what it does on the envelope itself. *)
Theorem decryptFile_accepts_standard_base64 input f m w :
  input <> [] ->
  decryptFile (standard_base64 input) f m w = decryptFile input f m w.
Proof.
  intros Hne. unfold decryptFile, try_catch.
  rewrite (body_standard (standard_base64 input) input f m w);
    [reflexivity| |assumption|].
  - now apply standard_base64_nonempty.
  - apply standard_base64_idem.
Qed.

(** Every run of [decryptFile] delivers or throws before any delivery. *)
Lemma decryptFile_outcomes input f m w :
  (exists u8, decryptFile input f m w = (inr tt, delivered w f m u8))
  \/ (exists e evs,
        decryptFile input f m w
        = (inl (Error (js "Failed to decrypt file: " ++ message e)),
           after w (evs ++ [EvConsoleError (js "Decryption error:") e]))
        /\ Forall (fun ev => is_delivery ev = false) evs).
Proof.
  destruct (body_outcomes input f m w) as [[u8 E]|(e & evs & E & Hq)].
  - left. exists u8. unfold decryptFile, try_catch. now rewrite E.
  - right. exists e, evs. split; [|exact Hq].
    unfold decryptFile, try_catch. rewrite E.
    unfold console_error, bind, emit, throw. rewrite <- after_after.
    reflexivity.
Qed.

(** X9: all or nothing.  Every run of [decryptFile] either returns,
    having decrypted once, triggered one download and scheduled one
    cleanup, or throws an [Error] whose message starts with
    "Failed to decrypt file: ", having logged the error it caught and
    triggered no download and no cleanup. *)
Theorem decryptFile_all_or_nothing input f m w :
  (exists u8, decryptFile input f m w = (inr tt, delivered w f m u8))
  \/ (exists e evs,
        decryptFile input f m w
        = (inl (Error (js "Failed to decrypt file: " ++ message e)),
           after w (evs ++ [EvConsoleError (js "Decryption error:") e]))
        /\ Forall (fun ev => is_delivery ev = false) evs).
Proof.
  destruct (body_outcomes input f m w) as [[u8 E]|(e & evs & E & Hq)].
  - left. exists u8. unfold decryptFile, try_catch. now rewrite E.
  - right. exists e, evs. split; [|exact Hq].
    unfold decryptFile, try_catch. rewrite E.
    unfold console_error, bind, emit, throw. rewrite <- after_after.
    reflexivity.
Qed.

(** X10: a negative length.  For an envelope whose fields [k], [i], [d]
    are accepted and whose [s] is a negative integer, the file is
    decrypted first and the length is refused afterwards:
    [new Uint8Array(s)] throws a RangeError, which the caller reads
    behind the prefix; nothing is downloaded. *)
Theorem negative_length_is_range_error
  input json ms kh ih ct ds n key iv decrypted f m w :
  input <> [] ->
  transport_decode input = inr json ->
  JSON_parse json = inr (JObj ms) ->
  lookup (js "k") ms = Some (JStr kh) -> kh <> [] ->
  lookup (js "i") ms = Some (JStr ih) -> ih <> [] ->
  lookup (js "d") ms = Some (JStr ct) -> ct <> [] ->
  lookup (js "s") ms = Some (JNum ds) ->
  num_int_value ds = Some n -> - (2 ^ 53 - 1) <= n < 0 ->
  Hex_parse (JStr kh) = inr key -> Hex_parse (JStr ih) = inr iv ->
  AES_decrypt (JStr ct) key iv = inr decrypted ->
  decryptFile input f m w
  = (inl (Error (js "Failed to decrypt file: " ++ engine_message RangeError)),
     after w [EvDecrypt; EvConsoleError (js "Decryption error:") RangeError]).
Proof.
  intros Hne Htd Hparse Lk Nk Li Ni Ld Nd Ls Hv Hn Pk Pi Hdec.
  assert (Hsafe : safe_integer (JNum ds) = Some n).
  { unfold safe_integer. rewrite Hv.
    destruct (Z.leb_spec (Z.abs n) (2 ^ 53 - 1)); [reflexivity|lia]. }
  assert (Ts : truthy (JNum ds) = true).
  { cbn [truthy]. destruct (num_is_zero ds) eqn:Ez; [|reflexivity].
    exfalso. unfold num_is_zero, num_int_value in *.
    set (mt := num_mantissa ds) in *. set (e := num_exp10 ds) in *.
    assert (Hm : 0 <= mt).
    { subst mt. unfold num_mantissa. destruct ds; lia. }
    apply orb_true_iff in Ez. destruct Ez as [Ez|Ez].
    - apply Z.eqb_eq in Ez. rewrite Ez in Hv.
      destruct (Z.leb_spec 0 e).
      + rewrite Z.mul_0_l, Z.mul_0_r in Hv. inv Hv. lia.
      + rewrite Z.mod_0_l, Z.div_0_l in Hv by (apply Z.pow_nonzero; lia).
        cbn [Z.eqb] in Hv. rewrite Z.mul_0_r in Hv. inv Hv. lia.
    - apply andb_true_iff in Ez. destruct Ez as [He Hle].
      apply Z.ltb_lt in He. apply Z.leb_le in Hle.
      destruct (Z.leb_spec 0 e); [lia|].
      assert (0 < 10 ^ (- e)) by (apply Z.pow_pos_nonneg; lia).
      destruct (Z.eqb_spec (mt mod 10 ^ (- e)) 0) as [Hmod|]; [|discriminate].
      assert (Hq0 : 0 <= mt / 10 ^ (- e)) by (apply Z.div_pos; lia).
      assert (Hq : 1 <= mt / 10 ^ (- e)).
      { assert (Hn' : (if num_neg ds then -1 else 1) * (mt / 10 ^ (- e)) = n)
          by congruence.
        destruct (num_neg ds); lia. }
      assert (10 ^ (- e) <= mt).
      { pose proof (Z.div_mod mt (10 ^ (- e)) ltac:(lia)) as D.
        rewrite Hmod in D. nia. }
      assert (1 < 2 ^ 1075) by (apply Z.pow_gt_1; lia).
      nia. }
  unfold decryptFile, try_catch.
  replace (decryptFile_body input f m w)
    with (@inl exn unit RangeError, after w [EvDecrypt]).
  { change [EvDecrypt; EvConsoleError (js "Decryption error:") RangeError]
      with ([EvDecrypt]
            ++ [EvConsoleError (js "Decryption error:") RangeError]).
    rewrite <- after_after. reflexivity. }
  symmetry. unfold decryptFile_body.
  destruct input as [|c0 input]; [contradiction|].
  unfold transport_decode in Htd. unfold try_catch, bind, lift.
  destruct (atob _) as [e|decoded]; [discriminate Htd|].
  rewrite Htd, Hparse. cbn [get_prop]. rewrite Lk, Li, Ld, Ls.
  rewrite (nonempty_truthy kh Nk), (nonempty_truthy ih Ni),
    (nonempty_truthy ct Nd), Ts.
  cbn [negb orb]. rewrite Pk, Pi.
  unfold decrypt, bind, emit, lift. rewrite Hdec.
  unfold new_Uint8Array. rewrite Hsafe.
  destruct (Z.leb_spec 0 n); [lia|]. reflexivity.
Qed.

End Serialisation.

(** ** The handlers of [App.tsx] *)

Section HandlerProofs.

Context {host : Host} {backend : Backend}.

Lemma lib_decryptFile_returns input f m aw u8 :
  decryptFile input f m (inner aw) = (inr tt, delivered (inner aw) f m u8) ->
  lib (decryptFile input f m) aw
  = (inr tt,
     app_after aw 0 (delivery f m u8)).
Proof.
  intros E. unfold lib. fold (inner aw). rewrite E.
  unfold app_after, delivery, delivered, inner.
  cbn [rng_cursor events app map]. now rewrite Nat.add_0_r.
Qed.

Lemma lib_decryptFile_throws input f m aw e evs :
  decryptFile input f m (inner aw) = (inl e, after (inner aw) evs) ->
  lib (decryptFile input f m) aw
  = (inl (Exn e), app_after aw 0 (map Lib evs)).
Proof.
  intros E. unfold lib. fold (inner aw). rewrite E.
  unfold app_after, after, inner. cbn [rng_cursor events app].
  now rewrite Nat.add_0_r.
Qed.

Lemma app_after_after aw n a k b :
  app_after (app_after aw n a) k b = app_after aw (n + k) (a ++ b).
Proof.
  unfold app_after. cbn [rng requests trace].
  now rewrite app_assoc, Nat.add_assoc.
Qed.

Lemma app_emit_after aw ev : app_emit ev aw = (inr tt, app_after aw 0 [ev]).
Proof. unfold app_emit, app_after. now rewrite Nat.add_0_r. Qed.

(** X11: [handleDownloadFile] never throws and reports once.  Either
    [decryptFile] delivered the file and the success toast follows the
    download, or nothing was downloaded and the one toast is
    "Ошибка при скачивании файла", whatever the reason was; the message
    of the error is not shown. *)
Theorem handleDownloadFile_reports_once file aw :
  (exists u8,
     handleDownloadFile file aw
     = (inr tt,
        app_after aw 0
          (delivery (stored_name file) (stored_mime_type file) u8
           ++ [toast_downloaded])))
  \/ (exists evs,
        handleDownloadFile file aw
        = (inr tt, app_after aw 0 (map Lib evs ++ [toast_download_failed]))
        /\ Forall (fun ev => is_delivery ev = false) evs).
Proof.
  unfold handleDownloadFile, app_try_catch, app_bind.
  destruct (decryptFile_outcomes (stored_content file)
              (stored_name file) (stored_mime_type file) (inner aw))
    as [[u8 E]|(e & evs & E & Hq)].
  - left. exists u8. rewrite (lib_decryptFile_returns _ _ _ _ _ E).
    unfold toast_downloaded. rewrite app_emit_after, app_after_after.
    reflexivity.
  - right. eexists. rewrite (lib_decryptFile_throws _ _ _ _ _ _ E).
    unfold toast_download_failed. rewrite app_emit_after, app_after_after.
    split; [reflexivity|].
    apply Forall_app. split; [exact Hq|]. repeat constructor.
Qed.

Lemma files_select_content_after id aw :
  files_select_content id aw
  = (inr (select_response (requests aw) id),
     app_after aw 1 [SelectContent id]).
Proof.
  unfold files_select_content, app_after. now rewrite Nat.add_1_r.
Qed.

(** [handleDownload] on an answer without content. *)
Lemma handleDownload_no_content file aw :
  (forall m,
     select_error (select_response (requests aw) (stored_id file)) = Some m ->
     handleDownload file aw
     = (inr tt,
        app_after aw 1
          [SelectContent (stored_id file);
           ConsoleError (js "Error downloading file:") (PostgrestError m);
           toast_download_failed]))
  /\ (select_error (select_response (requests aw) (stored_id file)) = None ->
      select_content (select_response (requests aw) (stored_id file)) = None
      \/ select_content (select_response (requests aw) (stored_id file))
         = Some [] ->
      handleDownload file aw
      = (inr tt,
         app_after aw 1
           [SelectContent (stored_id file);
            ConsoleError (js "Error downloading file:")
              (Exn (Error (js "File content not found")));
            toast_download_failed])).
Proof.
  split.
  - intros m Hm. unfold handleDownload, app_try_catch, app_bind.
    rewrite files_select_content_after, Hm. unfold app_throw.
    unfold toast_download_failed.
    rewrite !app_emit_after, !app_after_after. reflexivity.
  - intros He Hc. unfold handleDownload, app_try_catch, app_bind.
    rewrite files_select_content_after, He. unfold toast_download_failed.
    destruct Hc as [-> | ->]; unfold app_throw;
      rewrite !app_emit_after, !app_after_after; reflexivity.
Qed.

(** X12: [handleDownload] asks the backend first, and calls
    [decryptFile] only on a content that is there and not empty.  When
    the answer carries an error, or no content, or the empty string, the
    handler logs that error (for a missing content,
    "File content not found"), shows the failure toast and does
    nothing else: the empty-input check of [decryptFile] is never
    reached from here. *)
Theorem handleDownload_needs_content file aw :
  (forall m,
     select_error (select_response (requests aw) (stored_id file)) = Some m ->
     handleDownload file aw
     = (inr tt,
        app_after aw 1
          [SelectContent (stored_id file);
           ConsoleError (js "Error downloading file:") (PostgrestError m);
           toast_download_failed]))
  /\ (select_error (select_response (requests aw) (stored_id file)) = None ->
      select_content (select_response (requests aw) (stored_id file)) = None
      \/ select_content (select_response (requests aw) (stored_id file))
         = Some [] ->
      handleDownload file aw
      = (inr tt,
         app_after aw 1
           [SelectContent (stored_id file);
            ConsoleError (js "Error downloading file:")
              (Exn (Error (js "File content not found")));
            toast_download_failed])).
Proof.
  split.
  - intros m Hm. unfold handleDownload, app_try_catch, app_bind.
    rewrite files_select_content_after, Hm. unfold app_throw.
    unfold toast_download_failed.
    rewrite !app_emit_after, !app_after_after. reflexivity.
  - intros He Hc. unfold handleDownload, app_try_catch, app_bind.
    rewrite files_select_content_after, He. unfold toast_download_failed.
    destruct Hc as [-> | ->]; unfold app_throw;
      rewrite !app_emit_after, !app_after_after; reflexivity.
Qed.

(** X13: [handleDownload] never throws and reports once; the success
    toast is shown only after a download, and a download happens only
    for an answer without error whose content is not empty. *)
Theorem handleDownload_reports_once file aw :
  (exists content u8,
     select_error (select_response (requests aw) (stored_id file)) = None
     /\ select_content (select_response (requests aw) (stored_id file))
        = Some content
     /\ content <> []
     /\ handleDownload file aw
        = (inr tt,
           app_after aw 1
             (SelectContent (stored_id file)
              :: delivery (stored_name file) (stored_mime_type file) u8
              ++ [toast_downloaded])))
  \/ (exists evs error,
        handleDownload file aw
        = (inr tt,
           app_after aw 1
             (SelectContent (stored_id file)
              :: map Lib evs
              ++ [ConsoleError (js "Error downloading file:") error;
                  toast_download_failed]))
        /\ Forall (fun ev => is_delivery ev = false) evs).
Proof.
  destruct (handleDownload_no_content file aw) as [Herr Hnone].
  destruct (select_error (select_response (requests aw) (stored_id file)))
    as [m|] eqn:Ee.
  { right. exists [], (PostgrestError m). split; [|constructor].
    now apply Herr. }
  destruct (select_content (select_response (requests aw) (stored_id file)))
    as [[|c content]|] eqn:Ec.
  { right. exists [], (Exn (Error (js "File content not found"))).
    split; [|constructor]. apply Hnone; auto. }
  2:{ right. exists [], (Exn (Error (js "File content not found"))).
      split; [|constructor]. apply Hnone; auto. }
  clear Herr Hnone.
  unfold handleDownload, app_try_catch, app_bind.
  rewrite files_select_content_after, Ee, Ec.
  destruct (decryptFile_outcomes (c :: content)
              (stored_name file) (stored_mime_type file)
              (inner (app_after aw 1 [SelectContent (stored_id file)])))
    as [[u8 E]|(e & evs & E & Hq)].
  - left. exists (c :: content), u8.
    split; [reflexivity|]. split; [reflexivity|]. split; [discriminate|].
    rewrite (lib_decryptFile_returns _ _ _ _ _ E).
    unfold toast_downloaded. rewrite app_emit_after, !app_after_after.
    reflexivity.
  - right.
    exists (evs ++ [EvConsoleError (js "Decryption error:") e]),
      (Exn (Error (js "Failed to decrypt file: " ++ message e))).
    rewrite (lib_decryptFile_throws _ _ _ _ _ _ E).
    unfold toast_download_failed.
    rewrite !app_emit_after, !app_after_after.
    split.
    + reflexivity.
    + apply Forall_app. split; [exact Hq|]. repeat constructor.
Qed.

(** *** Upload *)

(** X14: a file over the bound is refused inside the browser.
    [handleFileUpload] sends no request to the backend and draws no
    random word; the user reads "File size exceeds 10MB limit" in the
    error toast, and the loading flag is reset. *)
Theorem oversize_upload_is_refused_locally file profile aw :
  MAX_FILE_SIZE < size (file_content file) ->
  handleFileUpload (Some file) (Some profile) aw
  = (inr tt,
     app_after aw 0
       [SetUploadLoading true;
        Lib (EvConsoleError (js "Encryption error:")
               (Error (js "File size exceeds 10MB limit")));
        ConsoleError (js "Error uploading file:")
          (Exn (Error (js "File size exceeds 10MB limit")));
        ToastError (js "File size exceeds 10MB limit");
        SetUploadLoading false]).
Proof.
  intros Hgt. unfold handleFileUpload, app_finally, app_try_catch, app_bind.
  rewrite app_emit_after. unfold lib.
  rewrite (encryptFile_oversize (file_content file) _ Hgt).
  unfold logged. cbn [rng_cursor events app map rng requests trace app_after].
  unfold app_emit. cbn [rng requests trace thrown_message message].
  unfold app_after. rewrite !Nat.add_0_r, <- !app_assoc. reflexivity.
Qed.

Lemma handleFileUpload_within_bound file profile aw envelope :
  encryptFile (file_content file) (inner aw)
  = (inr envelope, after_encrypt (inner aw)) ->
  handleFileUpload (Some file) (Some profile) aw
  = (inr tt,
     app_uploaded aw (row_of file profile envelope)
       (match insert_response (requests aw) (row_of file profile envelope) with
        | None =>
            [ToastSuccess (js_utf8 "Файл успешно загружен"); FetchFiles]
        | Some m =>
            [ConsoleError (js "Error uploading file:") (PostgrestError m);
             ToastError (or_literal m "Ошибка загрузки файла")]
        end ++ [SetUploadLoading false])).
Proof.
  intros E. unfold handleFileUpload, app_finally, app_try_catch, app_bind.
  rewrite app_emit_after. unfold lib.
  change {| rng_cursor := rng (app_after aw 0 [SetUploadLoading true]);
            events := [] |} with (inner aw).
  rewrite E. fold (row_of file profile envelope).
  unfold files_insert, after_encrypt, inner.
  cbn [rng_cursor events app map rng requests trace app_after].
  rewrite Nat.add_0_r.
  destruct (insert_response (requests aw) (row_of file profile envelope))
    as [m|]; unfold app_throw, app_emit, app_uploaded;
    cbn [rng requests trace thrown_message];
    rewrite <- !app_assoc; reflexivity.
Qed.

(** X15: a file within the bound is encrypted and one record is
    inserted: its content is the envelope that [encryptFile] returned,
    its size the size of the file, its name and MIME type those of the
    file, its owner the profile.  When the backend accepts it the
    success toast is shown and the list is refreshed; when the backend
    answers with an error, the error is logged and its message is shown
    (or "Ошибка загрузки файла" when the message is empty).  The loading
    flag is reset in both cases. *)
Theorem upload_stores_the_envelope file profile aw :
  cipher_text_units host ->
  size (file_content file) <= MAX_FILE_SIZE ->
  exists envelope,
    encryptFile (file_content file) (inner aw)
    = (inr envelope, after_encrypt (inner aw))
    /\ handleFileUpload (Some file) (Some profile) aw
       = (inr tt,
          app_uploaded aw (row_of file profile envelope)
            (match insert_response (requests aw)
                     (row_of file profile envelope) with
             | None =>
                 [ToastSuccess (js_utf8 "Файл успешно загружен"); FetchFiles]
             | Some m =>
                 [ConsoleError (js "Error uploading file:") (PostgrestError m);
                  ToastError (or_literal m "Ошибка загрузки файла")]
             end ++ [SetUploadLoading false])).
Proof.
  intros Hu Hsize.
  destruct (encryptFile_runs (file_content file) (inner aw) Hu Hsize)
    as (octets & _ & _ & _ & E).
  exists (base64url_nopad octets). split; [exact E|].
  now apply handleFileUpload_within_bound.
Qed.

(** What the download handlers do with a content that [decryptFile]
    delivers. *)
Lemma downloads_deliver content u8 :
  (forall f m w, decryptFile content f m w = (inr tt, delivered w f m u8)) ->
  content <> [] ->
  (forall file aw,
     stored_content file = content ->
     handleDownloadFile file aw
     = (inr tt,
        app_after aw 0
          (delivery (stored_name file) (stored_mime_type file) u8
           ++ [toast_downloaded])))
  /\ (forall file aw,
        select_error (select_response (requests aw) (stored_id file)) = None ->
        select_content (select_response (requests aw) (stored_id file))
        = Some content ->
        handleDownload file aw
        = (inr tt,
           app_after aw 1
             (SelectContent (stored_id file)
              :: delivery (stored_name file) (stored_mime_type file) u8
              ++ [toast_downloaded]))).
Proof.
  intros Hd Hne. split.
  - intros file aw <-. unfold handleDownloadFile, app_try_catch, app_bind.
    rewrite (lib_decryptFile_returns _ _ _ _ _ (Hd _ _ _)).
    unfold toast_downloaded. rewrite app_emit_after, app_after_after.
    reflexivity.
  - intros file aw He Hc. unfold handleDownload, app_try_catch, app_bind.
    rewrite files_select_content_after, He, Hc.
    destruct content as [|c content]; [contradiction|].
    rewrite (lib_decryptFile_returns _ _ _ _ _ (Hd _ _ _)).
    unfold toast_downloaded. rewrite app_emit_after, !app_after_after.
    reflexivity.
Qed.

(** What the download handlers do with a content that [decryptFile]
    refuses with the error [e], logging nothing before. *)
Lemma downloads_fail content e :
  (forall f m w,
     decryptFile content f m w
     = (inl (Error (js "Failed to decrypt file: " ++ message e)),
        logged w (EvConsoleError (js "Decryption error:") e))) ->
  content <> [] ->
  (forall file aw,
     stored_content file = content ->
     handleDownloadFile file aw
     = (inr tt,
        app_after aw 0
          [Lib (EvConsoleError (js "Decryption error:") e);
           toast_download_failed]))
  /\ (forall file aw,
        select_error (select_response (requests aw) (stored_id file)) = None ->
        select_content (select_response (requests aw) (stored_id file))
        = Some content ->
        handleDownload file aw
        = (inr tt,
           app_after aw 1
             [SelectContent (stored_id file);
              Lib (EvConsoleError (js "Decryption error:") e);
              ConsoleError (js "Error downloading file:")
                (Exn (Error (js "Failed to decrypt file: " ++ message e)));
              toast_download_failed])).
Proof.
  intros Hd Hne.
  assert (Hl : forall f m aw,
             lib (decryptFile content f m) aw
             = (inl (Exn (Error (js "Failed to decrypt file: " ++ message e))),
                app_after aw 0
                  [Lib (EvConsoleError (js "Decryption error:") e)])).
  { intros f m aw.
    apply (lib_decryptFile_throws content f m aw _
             [EvConsoleError (js "Decryption error:") e]).
    apply Hd. }
  split.
  - intros file aw <-. unfold handleDownloadFile, app_try_catch, app_bind.
    rewrite Hl. unfold toast_download_failed.
    rewrite app_emit_after, app_after_after. reflexivity.
  - intros file aw He Hc. unfold handleDownload, app_try_catch, app_bind.
    rewrite files_select_content_after, He, Hc.
    destruct content as [|c content]; [contradiction|].
    rewrite Hl. unfold toast_download_failed.
    rewrite !app_emit_after, !app_after_after. reflexivity.
Qed.

(** X16: upload, then download.  For a non-empty file within the bound
    [handleFileUpload] inserts a record from which both download
    handlers deliver the file: the octets are those of the file, the
    name and the MIME type those under which it is listed (with
    "downloaded-file" and "application/octet-stream" for an empty name
    or type), and the success toast follows. *)
Theorem uploaded_file_downloads file profile aw :
  cipher_text_units host -> cipher_text_nonempty host ->
  cipher_inverts host ->
  Forall is_byte (file_bytes (file_content file)) ->
  0 < size (file_content file) <= MAX_FILE_SIZE ->
  exists row,
    In (Insert row)
       (trace (snd (handleFileUpload (Some file) (Some profile) aw)))
    /\ row_name row = file_name file
    /\ row_mime_type row = file_type file
    /\ row_size row = size (file_content file)
    /\ (forall listed aw',
          stored_content listed = row_content row ->
          handleDownloadFile listed aw'
          = (inr tt,
             app_after aw' 0
               (delivery (stored_name listed) (stored_mime_type listed)
                  (file_bytes (file_content file))
                ++ [toast_downloaded])))
    /\ (forall listed aw',
          select_error (select_response (requests aw') (stored_id listed))
          = None ->
          select_content (select_response (requests aw') (stored_id listed))
          = Some (row_content row) ->
          handleDownload listed aw'
          = (inr tt,
             app_after aw' 1
               (SelectContent (stored_id listed)
                :: delivery (stored_name listed) (stored_mime_type listed)
                     (file_bytes (file_content file))
                ++ [toast_downloaded]))).
Proof.
  intros Hu Hne Hinv Hbytes Hsize.
  destruct Hsize as [Hpos Hsize].
  destruct (encryptFile_runs (file_content file) (inner aw) Hu Hsize)
    as (octets & _ & _ & _ & E).
  set (envelope := base64url_nopad octets) in *.
  exists (row_of file profile envelope).
  rewrite (handleFileUpload_within_bound file profile aw envelope E).
  cbn [snd app_uploaded trace row_of row_name row_mime_type row_size
       row_content].
  split.
  { apply in_or_app. right. apply in_or_app. left. cbn [In]. tauto. }
  do 3 (split; [reflexivity|]).
  apply downloads_deliver.
  - intros f m w.
    now apply (envelope_decrypts (file_content file) (inner aw)).
  - apply (envelope_nonempty _ _ _ _ E).
Qed.

(** The envelope of the empty file is refused. *)
Lemma empty_envelope_incomplete file w envelope w' f m w2 :
  cipher_text_units host ->
  size file = 0 ->
  encryptFile file w = (inr envelope, w') ->
  decryptFile envelope f m w2 = incomplete_outcome w2.
Proof.
  intros Hu H0 E.
  destruct (envelope_parses file w envelope w' Hu E) as (N & Htd & Hp).
  rewrite H0 in Hp.
  unfold incomplete_outcome.
  rewrite (decryptFile_catch envelope f m w2
             (Error (js "Incomplete file data")) w2); [reflexivity|].
  apply (body_incomplete envelope f m w2 _ _
           (JStr (k (combined_of file w))) (JStr (i (combined_of file w)))
           (JStr (d (combined_of file w))) (JNum (nat_literal 0))
           N Htd Hp); try reflexivity.
  cbn [truthy]. rewrite num_is_zero_nat by lia. cbn [Z.eqb negb].
  now rewrite !andb_false_r.
Qed.

(** X17: the empty file at the level of the handlers.
    [handleFileUpload] accepts it: a record of size 0 is inserted and,
    when the backend accepts the record, the success toast is shown.
    Neither download handler can deliver it afterwards: [decryptFile]
    refuses the content with "Incomplete file data" and the user reads
    the failure toast. *)
Theorem empty_upload_cannot_be_downloaded file profile aw :
  cipher_text_units host ->
  file_bytes (file_content file) = [] ->
  exists row,
    In (Insert row)
       (trace (snd (handleFileUpload (Some file) (Some profile) aw)))
    /\ row_size row = 0
    /\ (insert_response (requests aw) row = None ->
        In (ToastSuccess (js_utf8 "Файл успешно загружен"))
           (trace (snd (handleFileUpload (Some file) (Some profile) aw))))
    /\ (forall listed aw',
          stored_content listed = row_content row ->
          handleDownloadFile listed aw'
          = (inr tt,
             app_after aw' 0
               [Lib (EvConsoleError (js "Decryption error:")
                       (Error (js "Incomplete file data")));
                toast_download_failed]))
    /\ (forall listed aw',
          select_error (select_response (requests aw') (stored_id listed))
          = None ->
          select_content (select_response (requests aw') (stored_id listed))
          = Some (row_content row) ->
          handleDownload listed aw'
          = (inr tt,
             app_after aw' 1
               [SelectContent (stored_id listed);
                Lib (EvConsoleError (js "Decryption error:")
                       (Error (js "Incomplete file data")));
                ConsoleError (js "Error downloading file:")
                  (Exn (Error
                          (js "Failed to decrypt file: Incomplete file data")));
                toast_download_failed])).
Proof.
  intros Hu Hempty.
  assert (H0 : size (file_content file) = 0).
  { unfold size. now rewrite Hempty. }
  assert (Hsize : size (file_content file) <= MAX_FILE_SIZE).
  { rewrite H0. unfold MAX_FILE_SIZE. lia. }
  destruct (encryptFile_runs (file_content file) (inner aw) Hu Hsize)
    as (octets & _ & _ & _ & E).
  set (envelope := base64url_nopad octets) in *.
  exists (row_of file profile envelope).
  rewrite (handleFileUpload_within_bound file profile aw envelope E).
  cbn [snd app_uploaded trace row_of row_name row_mime_type row_size
       row_content].
  split.
  { apply in_or_app. right. apply in_or_app. left. cbn [In]. tauto. }
  split; [exact H0|]. split.
  { intros ->. apply in_or_app. right. apply in_or_app. right.
    cbn [In app]. tauto. }
  apply (downloads_fail envelope (Error (js "Incomplete file data"))).
  - intros f m w.
    apply (empty_envelope_incomplete (file_content file) (inner aw) envelope
             _ f m w Hu H0 E).
  - apply (envelope_nonempty _ _ _ _ E).
Qed.

End HandlerProofs.

(** ** The connection layer *)

(** X18: the back-off schedule.  For a count [n >= 0] the delay is
    [1000 * 2^n] milliseconds up to the cap of 10000: 1000, 2000, 4000,
    8000 and then 10000 for every later count; it never decreases. *)
Theorem getRetryDelay_schedule n m :
  0 <= n <= m ->
  1000 <= getRetryDelay n <= 10000
  /\ getRetryDelay n <= getRetryDelay m
  /\ (n <= 3 -> getRetryDelay n = 1000 * 2 ^ n)
  /\ (4 <= n -> getRetryDelay n = 10000).
Proof.
  intros [Hn Hm]. unfold getRetryDelay, INITIAL_RETRY_DELAY, MAX_RETRY_DELAY.
  cbv zeta.
  assert (H1 : 1 <= 2 ^ n) by (apply (Z.pow_le_mono_r 2 0 n); lia).
  assert (Hmono : 2 ^ n <= 2 ^ m) by (apply Z.pow_le_mono_r; lia).
  repeat split; try lia.
  - intros H3.
    assert (H8 : 2 ^ n <= 2 ^ 3) by (apply Z.pow_le_mono_r; lia).
    change (2 ^ 3) with 8 in H8. lia.
  - intros H4.
    assert (H16 : 2 ^ 4 <= 2 ^ n) by (apply Z.pow_le_mono_r; lia).
    change (2 ^ 4) with 16 in H16. lia.
Qed.

Section ConnectionProofs.

Context {network : Network}.

Lemma withTimeout_settles (T : Type) (promise : Promise T) timeout :
  exists ms,
    settles_after (withTimeout promise timeout) = Some ms
    /\ Z.max 0 ms <= Z.max 0 timeout.
Proof.
  unfold withTimeout, Promise_race, rejects_after. cbn [settles_after].
  destruct (settles_after promise) as [ms|] eqn:E.
  - destruct (Z.ltb_spec (Z.max 0 ms) (Z.max 0 timeout)) as [Hlt|Hge].
    + exists ms. cbn [orb]. rewrite E. split; [reflexivity|lia].
    + cbn [orb].
      destruct (Z.eqb_spec (Z.max 0 ms) (Z.max 0 timeout)) as [Heq|Hne];
        destruct promise_first_on_tie; cbn [andb];
        try (exists timeout; cbn [settles_after];
             split; [reflexivity|lia]).
      exists ms. rewrite E. split; [reflexivity|lia].
  - exists timeout. cbn [settles_after]. split; [reflexivity|lia].
Qed.

Lemma timed_wait_bound (T : Type) (p : Promise T) timeout :
  0 <= timed_wait p timeout <= Z.max 0 timeout.
Proof.
  unfold timed_wait. destruct (withTimeout_settles T p timeout) as (ms & -> & H).
  lia.
Qed.

(** *** Running the rounds *)

Ltac net_world :=
  unfold net_after; cbn [clock calls connectionState net_log];
  f_equal; try lia; rewrite <- ?app_assoc; try reflexivity.

Lemma net_after_after w a n st evs b k st' evs' :
  net_after (net_after w a n st evs) b k st' evs'
  = net_after w (a + b) (n + k) st' (evs ++ evs').
Proof. net_world. Qed.

Lemma supabaseQuery_eq (T : Type) (operation : nat -> Promise (Response T))
  customTimeout :
  supabaseQuery operation customTimeout
  = (st <- get_state ;;
     (if negb (isConnected st) then initializeSupabase else net_ret tt) ;;;
     for_attempts 4 0 (query_round operation customTimeout)
       (net_throw
          (new_Error (js "Failed to execute query after all retries"))))%net.
Proof. reflexivity. Qed.

Lemma query_try_run (T : Type) (operation : nat -> Promise (Response T))
  customTimeout w :
  query_try operation customTimeout w
  = Some (match round_result (operation (calls w))
                  (timeout_or_default customTimeout) with
          | inl e => inl e
          | inr d => inr (Some d)
          end,
          net_after w
            (timed_wait (operation (calls w))
               (timeout_or_default customTimeout))
            1
            (after_round (connectionState w) (operation (calls w))
               (timeout_or_default customTimeout))
            [Operation]).
Proof.
  unfold query_try, after_round, round_result, round_disconnects, timed_wait.
  set (p := operation (calls w)). set (t := timeout_or_default customTimeout).
  unfold net_bind, call_operation, await. fold p.
  destruct (withTimeout_settles _ p t) as (ms & E & _). rewrite E.
  destruct (settles_as (withTimeout p t)) as [r|e].
  - destruct (error r) as [e|].
    + destruct (status_is e 401).
      * unfold get_state, set_state, net_throw, disconnected.
        cbn [clock calls connectionState net_log].
        do 2 f_equal. net_world.
      * unfold net_throw. do 2 f_equal. net_world.
    + unfold net_ret. do 2 f_equal. net_world.
  - do 2 f_equal. net_world.
Qed.

Lemma query_round_run (T : Type) (operation : nat -> Promise (Response T))
  customTimeout attempt w :
  let p := operation (calls w) in
  let t := timeout_or_default customTimeout in
  query_round operation customTimeout attempt w
  = match round_result p t with
    | inr d =>
        Some (inr (Some d),
              net_after w (timed_wait p t) 1
                (after_round (connectionState w) p t) [Operation])
    | inl e =>
        if attempt <? MAX_RETRIES - 1 then
          Some (inr None,
                net_after w
                  (timed_wait p t + Z.max 0 (getRetryDelay attempt)) 1
                  (after_round (connectionState w) p t)
                  [Operation;
                   NetConsoleError (attempt_label "Query attempt " attempt) e;
                   Sleep (getRetryDelay attempt)])
        else
          Some (inl e,
                net_after w (timed_wait p t) 1
                  (after_round (connectionState w) p t)
                  [Operation;
                   NetConsoleError (attempt_label "Query attempt " attempt) e])
    end.
Proof.
  cbv zeta. unfold query_round, net_try_catch. rewrite query_try_run.
  destruct (round_result _ _) as [e|d]; [|reflexivity].
  unfold net_bind, net_emit.
  destruct (attempt <? MAX_RETRIES - 1).
  - unfold sleep, net_ret. cbn [clock calls connectionState net_log net_after].
    do 2 f_equal. net_world.
  - unfold net_throw. do 2 f_equal. net_world.
Qed.

(** The three rounds of the loop of [supabaseQuery], written out. *)
Lemma query_loop_run (T : Type) (operation : nat -> Promise (Response T))
  customTimeout (after_loop : NetM (option T)) w :
  let t := timeout_or_default customTimeout in
  let p1 := operation (calls w) in
  let p2 := operation (calls w + 1)%nat in
  let p3 := operation (calls w + 2)%nat in
  let st1 := after_round (connectionState w) p1 t in
  let st2 := after_round st1 p2 t in
  let st3 := after_round st2 p3 t in
  for_attempts 4 0 (query_round operation customTimeout) after_loop w
  = match round_result p1 t with
    | inr d => Some (inr d, net_after w (timed_wait p1 t) 1 st1 [Operation])
    | inl e1 =>
        match round_result p2 t with
        | inr d =>
            Some (inr d,
                  net_after w (timed_wait p1 t + 1000 + timed_wait p2 t) 2 st2
                    [Operation;
                     NetConsoleError (js "Query attempt 1 failed:") e1;
                     Sleep 1000; Operation])
        | inl e2 =>
            match round_result p3 t with
            | inr d =>
                Some (inr d,
                      net_after w
                        (timed_wait p1 t + 1000 + timed_wait p2 t + 2000
                         + timed_wait p3 t) 3 st3
                        [Operation;
                         NetConsoleError (js "Query attempt 1 failed:") e1;
                         Sleep 1000; Operation;
                         NetConsoleError (js "Query attempt 2 failed:") e2;
                         Sleep 2000; Operation])
            | inl e3 =>
                Some (inl e3,
                      net_after w
                        (timed_wait p1 t + 1000 + timed_wait p2 t + 2000
                         + timed_wait p3 t) 3 st3
                        [Operation;
                         NetConsoleError (js "Query attempt 1 failed:") e1;
                         Sleep 1000; Operation;
                         NetConsoleError (js "Query attempt 2 failed:") e2;
                         Sleep 2000; Operation;
                         NetConsoleError (js "Query attempt 3 failed:") e3])
            end
        end
    end.
Proof.
  cbv zeta. cbn [for_attempts].
  change (0 <? MAX_RETRIES) with true. cbv iota.
  unfold net_bind at 1. rewrite query_round_run. cbv zeta.
  destruct (round_result (operation (calls w)) _) as [e1|d1]; [|reflexivity].
  change (0 <? MAX_RETRIES - 1) with true. cbv iota.
  change (0 + 1 <? MAX_RETRIES) with true. cbv iota.
  change (getRetryDelay 0) with 1000. change (Z.max 0 1000) with 1000.
  unfold net_bind at 1. rewrite query_round_run. cbv zeta.
  cbn [calls connectionState net_after].
  destruct (round_result (operation (calls w + 1)%nat) _) as [e2|d2].
  2:{ unfold net_ret. do 2 f_equal. net_world. }
  change (0 + 1 <? MAX_RETRIES - 1) with true. cbv iota.
  change (0 + 1 + 1 <? MAX_RETRIES) with true. cbv iota.
  change (getRetryDelay (0 + 1)) with 2000. change (Z.max 0 2000) with 2000.
  unfold net_bind at 1. rewrite query_round_run. cbv zeta.
  cbn [calls connectionState net_after].
  replace (calls w + 1 + 1)%nat with (calls w + 2)%nat by lia.
  destruct (round_result (operation (calls w + 2)%nat) _) as [e3|d3].
  2:{ unfold net_ret. do 2 f_equal. net_world. }
  change (0 + 1 + 1 <? MAX_RETRIES - 1) with false. cbv iota.
  do 2 f_equal. net_world.
Qed.

(** *** Running [initializeSupabase] *)

Lemma initializeSupabase_eq :
  initializeSupabase
  = (st <- get_state ;;
     if isConnected st then net_ret tt
     else for_attempts 4 0 connect_round (net_ret tt))%net.
Proof. reflexivity. Qed.

Ltac connect_steps :=
  cbv beta iota zeta
    delta [connect_round net_try_catch net_bind getSupabaseClient get_state
           auth_getSession net_ret net_emit set_state await Date_now
           net_throw sleep negb clock calls connectionState net_log client
           lastRetryTime retryCount isConnected lastError].

Lemma connect_round_run attempt w :
  let n := calls w in
  let st := connectionState w in
  connect_round attempt w
  = match session_result n with
    | Fulfilled _ =>
        Some (inr (Some tt),
              net_after w (session_wait n) 1 (connected st)
                (client_events st ++ [GetSession]))
    | Rejected e =>
        if attempt <? MAX_RETRIES - 1 then
          Some (inr None,
                net_after w
                  (session_wait n + Z.max 0 (getRetryDelay attempt)) 1
                  (failed st e (clock w + session_wait n))
                  (client_events st
                   ++ [GetSession;
                       NetConsoleError
                         (attempt_label "Connection attempt " attempt) e;
                       Sleep (getRetryDelay attempt)]))
        else
          Some (inl (gave_up e),
                net_after w (session_wait n) 1
                  (failed st e (clock w + session_wait n))
                  (client_events st
                   ++ [GetSession;
                       NetConsoleError
                         (attempt_label "Connection attempt " attempt) e]))
    end.
Proof.
  cbv zeta.
  destruct w as [c n [ic le rc lt cl] lg].
  unfold session_result, session_wait, timed_wait, client_events, connected,
    failed, gave_up, net_after.
  cbn [clock calls connectionState net_log client lastRetryTime retryCount].
  destruct (withTimeout_settles _ (session_promise n) CONNECTION_TIMEOUT)
    as (ms & E & _).
  destruct cl; connect_steps; rewrite E;
    destruct (settles_as (withTimeout (session_promise n) CONNECTION_TIMEOUT))
      as [a|e];
    connect_steps;
    try destruct (attempt <? MAX_RETRIES - 1);
    connect_steps;
    do 2 f_equal; f_equal; try lia; rewrite <- ?app_assoc; reflexivity.
Qed.

Ltac solve_state :=
  unfold connected, failed;
  cbn [isConnected lastError retryCount lastRetryTime client];
  repeat (f_equal; try lia).

(** The three rounds of the loop of [initializeSupabase], written
    out. *)
Lemma connect_loop_run w :
  let n := calls w in
  let st := connectionState w in
  let t1 := clock w + session_wait n in
  let t2 := t1 + 1000 + session_wait (n + 1) in
  let t3 := t2 + 2000 + session_wait (n + 2) in
  for_attempts 4 0 connect_round (net_ret tt) w
  = match session_result n with
    | Fulfilled _ =>
        Some (inr tt,
              net_after w (t1 - clock w) 1 (connected st)
                (client_events st ++ [GetSession]))
    | Rejected e1 =>
        match session_result (n + 1) with
        | Fulfilled _ =>
            Some (inr tt,
                  net_after w (t2 - clock w) 2 (connected (failed st e1 t1))
                    (client_events st
                     ++ [GetSession;
                         NetConsoleError (js "Connection attempt 1 failed:") e1;
                         Sleep 1000; GetSession]))
        | Rejected e2 =>
            match session_result (n + 2) with
            | Fulfilled _ =>
                Some (inr tt,
                      net_after w (t3 - clock w) 3
                        (connected (failed (failed st e1 t1) e2 t2))
                        (client_events st
                         ++ [GetSession;
                             NetConsoleError
                               (js "Connection attempt 1 failed:") e1;
                             Sleep 1000; GetSession;
                             NetConsoleError
                               (js "Connection attempt 2 failed:") e2;
                             Sleep 2000; GetSession]))
            | Rejected e3 =>
                Some (inl (gave_up e3),
                      net_after w (t3 - clock w) 3
                        (failed (failed (failed st e1 t1) e2 t2) e3 t3)
                        (client_events st
                         ++ [GetSession;
                             NetConsoleError
                               (js "Connection attempt 1 failed:") e1;
                             Sleep 1000; GetSession;
                             NetConsoleError
                               (js "Connection attempt 2 failed:") e2;
                             Sleep 2000; GetSession;
                             NetConsoleError
                               (js "Connection attempt 3 failed:") e3]))
            end
        end
    end.
Proof.
  cbv zeta. cbn [for_attempts].
  change (0 <? MAX_RETRIES) with true. cbv iota.
  unfold net_bind at 1. rewrite connect_round_run. cbv zeta.
  destruct (session_result (calls w)) as [a1|e1].
  { unfold net_ret. do 2 f_equal. net_world. }
  change (0 <? MAX_RETRIES - 1) with true. cbv iota.
  change (0 + 1 <? MAX_RETRIES) with true. cbv iota.
  change (getRetryDelay 0) with 1000. change (Z.max 0 1000) with 1000.
  unfold net_bind at 1. rewrite connect_round_run. cbv zeta.
  cbn [calls connectionState clock net_after].
  change (client_events (failed _ _ _)) with (@nil NetEvent). cbn [app].
  destruct (session_result (calls w + 1)%nat) as [a2|e2].
  { unfold net_ret. do 2 f_equal. net_world; solve_state. }
  change (0 + 1 <? MAX_RETRIES - 1) with true. cbv iota.
  change (0 + 1 + 1 <? MAX_RETRIES) with true. cbv iota.
  change (getRetryDelay (0 + 1)) with 2000. change (Z.max 0 2000) with 2000.
  unfold net_bind at 1. rewrite connect_round_run. cbv zeta.
  cbn [calls connectionState clock net_after].
  change (client_events (failed _ _ _)) with (@nil NetEvent). cbn [app].
  replace (calls w + 1 + 1)%nat with (calls w + 2)%nat by lia.
  destruct (session_result (calls w + 2)%nat) as [a3|e3].
  { unfold net_ret. do 2 f_equal. net_world; solve_state. }
  change (0 + 1 + 1 <? MAX_RETRIES - 1) with false. cbv iota.
  do 2 f_equal. net_world; solve_state.
Qed.

(** *** Properties of the two retry loops *)

Lemma supabaseQuery_connected (T : Type)
  (operation : nat -> Promise (Response T)) customTimeout w :
  isConnected (connectionState w) = true ->
  supabaseQuery operation customTimeout w
  = for_attempts 4 0 (query_round operation customTimeout)
      (net_throw (new_Error (js "Failed to execute query after all retries")))
      w.
Proof.
  intros Hc. rewrite supabaseQuery_eq. unfold net_bind at 1 2, get_state.
  rewrite Hc. reflexivity.
Qed.

Lemma round_in_time (T : Type) (p : Promise (Response T)) timeout ms :
  settles_after p = Some ms -> Z.max 0 ms < Z.max 0 timeout ->
  withTimeout p timeout = p.
Proof.
  intros E Hlt. unfold withTimeout, Promise_race, rejects_after.
  cbn [settles_after]. rewrite E.
  destruct (Z.ltb_spec (Z.max 0 ms) (Z.max 0 timeout)); [reflexivity|lia].
Qed.

(** X20: when the connection is marked as connected and the first
    answer arrives before the timeout without an error, [supabaseQuery]
    returns its data (which may be [null]) after that one request: no
    retry, no delay, no log, and the connection state is untouched. *)
Theorem supabaseQuery_returns_first_answer (T : Type)
  (operation : nat -> Promise (Response T)) customTimeout w ms r :
  isConnected (connectionState w) = true ->
  settles_after (operation (calls w)) = Some ms ->
  Z.max 0 ms < Z.max 0 (timeout_or_default customTimeout) ->
  settles_as (operation (calls w)) = Fulfilled r ->
  error r = None ->
  supabaseQuery operation customTimeout w
  = Some (inr (data r),
          net_after w (Z.max 0 ms) 1 (connectionState w) [Operation]).
Proof.
  intros Hc Hms Hlt Hr He.
  rewrite (supabaseQuery_connected T operation customTimeout w Hc).
  rewrite query_loop_run. cbv zeta.
  unfold round_result, after_round, round_disconnects, timed_wait.
  rewrite (round_in_time T _ _ ms Hms Hlt), Hms, Hr, He. reflexivity.
Qed.

(** X21: when three rounds fail in a row, [supabaseQuery] throws the
    error of the third round (not of the first), after three requests,
    a wait of 1000 ms after the first failure and of 2000 ms after the
    second, and one [console.error] for each round.  The statement
    after the loop, which throws "Failed to execute query after all
    retries", is never reached, whatever the rounds do. *)
Theorem supabaseQuery_rethrows_last_error (T : Type)
  (operation : nat -> Promise (Response T)) customTimeout w e1 e2 e3 :
  let t := timeout_or_default customTimeout in
  let p1 := operation (calls w) in
  let p2 := operation (calls w + 1)%nat in
  let p3 := operation (calls w + 2)%nat in
  isConnected (connectionState w) = true ->
  round_result p1 t = inl e1 ->
  round_result p2 t = inl e2 ->
  round_result p3 t = inl e3 ->
  supabaseQuery operation customTimeout w
  = Some (inl e3,
          net_after w
            (timed_wait p1 t + 1000 + timed_wait p2 t + 2000 + timed_wait p3 t)
            3
            (after_round
               (after_round (after_round (connectionState w) p1 t) p2 t) p3 t)
            [Operation; NetConsoleError (js "Query attempt 1 failed:") e1;
             Sleep 1000;
             Operation; NetConsoleError (js "Query attempt 2 failed:") e2;
             Sleep 2000;
             Operation; NetConsoleError (js "Query attempt 3 failed:") e3])
  /\ (forall after_loop w0,
        for_attempts 4 0 (query_round operation customTimeout) after_loop w0
        = for_attempts 4 0 (query_round operation customTimeout)
            (net_throw
               (new_Error (js "Failed to execute query after all retries")))
            w0).
Proof.
  cbv zeta. intros Hc H1 H2 H3. split.
  - rewrite (supabaseQuery_connected T operation customTimeout w Hc).
    rewrite query_loop_run. cbv zeta. rewrite H1, H2, H3. reflexivity.
  - intros after_loop w0. now rewrite !query_loop_run.
Qed.

Lemma session_wait_bound n : 0 <= session_wait n <= 15000.
Proof.
  unfold session_wait.
  pose proof (timed_wait_bound _ (session_promise n) CONNECTION_TIMEOUT) as H.
  change (Z.max 0 CONNECTION_TIMEOUT) with 15000 in H. exact H.
Qed.

(** The loop of [supabaseQuery] settles within three timeouts and the
    two delays. *)
Lemma query_loop_bound (T : Type) (operation : nat -> Promise (Response T))
  customTimeout after_loop w :
  exists r w',
    for_attempts 4 0 (query_round operation customTimeout) after_loop w
    = Some (r, w')
    /\ clock w <= clock w'
       <= clock w + 3 * Z.max 0 (timeout_or_default customTimeout) + 3000
    /\ (calls w < calls w' <= calls w + 3)%nat.
Proof.
  rewrite query_loop_run. cbv zeta.
  set (t := timeout_or_default customTimeout).
  pose proof (timed_wait_bound _ (operation (calls w)) t) as B1.
  pose proof (timed_wait_bound _ (operation (calls w + 1)%nat) t) as B2.
  pose proof (timed_wait_bound _ (operation (calls w + 2)%nat) t) as B3.
  destruct (round_result (operation (calls w)) t) as [e1|d1];
    [destruct (round_result (operation (calls w + 1)%nat) t) as [e2|d2];
     [destruct (round_result (operation (calls w + 2)%nat) t) as [e3|d3]|]|];
    eexists _, _; (split; [reflexivity|]);
    cbn [net_after clock calls]; lia.
Qed.

Ltac after_connect T operation customTimeout :=
  match goal with
  | |- context [for_attempts 4 0 _ ?a ?w1] =>
      let r := fresh "r" in
      let w' := fresh "w'" in
      let E := fresh "E" in
      let Hclock := fresh "Hclock" in
      let Hcalls := fresh "Hcalls" in
      destruct (query_loop_bound T operation customTimeout a w1)
        as (r & w' & E & Hclock & Hcalls);
      rewrite E; exists r, w';
      cbn [net_after clock calls] in Hclock, Hcalls
  end.

(** X22: [supabaseQuery] always settles, also when the operation or the
    session request never does: each wait is cut by its timeout.  On a
    connection marked as connected it takes at most three timeouts and
    3000 ms, and between one and three requests; otherwise at most
    48000 ms more for connecting first, and three more requests. *)
Theorem supabaseQuery_always_settles (T : Type)
  (operation : nat -> Promise (Response T)) customTimeout w :
  exists r w',
    supabaseQuery operation customTimeout w = Some (r, w')
    /\ clock w <= clock w'
       <= clock w + 48000
          + (3 * Z.max 0 (timeout_or_default customTimeout) + 3000)
    /\ (calls w' <= calls w + 6)%nat
    /\ (isConnected (connectionState w) = true ->
        clock w'
        <= clock w + 3 * Z.max 0 (timeout_or_default customTimeout) + 3000
        /\ (calls w < calls w' <= calls w + 3)%nat).
Proof.
  set (t := timeout_or_default customTimeout).
  assert (Ht : 0 <= Z.max 0 t) by lia.
  destruct (isConnected (connectionState w)) eqn:Hc.
  - rewrite (supabaseQuery_connected T operation customTimeout w Hc).
    destruct (query_loop_bound T operation customTimeout
                (net_throw
                   (new_Error (js "Failed to execute query after all retries")))
                w) as (r & w' & E & Hclock & Hcalls).
    exists r, w'. fold t in Hclock. repeat split; try assumption; lia.
  - rewrite supabaseQuery_eq. unfold net_bind at 1 2, get_state.
    rewrite Hc. cbn [negb]. rewrite initializeSupabase_eq.
    unfold net_bind at 1, get_state. rewrite Hc.
    rewrite connect_loop_run. cbv zeta.
    pose proof (session_wait_bound (calls w)) as S1.
    pose proof (session_wait_bound (calls w + 1)) as S2.
    pose proof (session_wait_bound (calls w + 2)) as S3.
    destruct (session_result (calls w)) as [a1|e1];
      [|destruct (session_result (calls w + 1)) as [a2|e2];
        [|destruct (session_result (calls w + 2)) as [a3|e3]]].
    + after_connect T operation customTimeout. fold t in Hclock.
      repeat split; try reflexivity; try lia; try discriminate.
    + after_connect T operation customTimeout. fold t in Hclock.
      repeat split; try reflexivity; try lia; try discriminate.
    + after_connect T operation customTimeout. fold t in Hclock.
      repeat split; try reflexivity; try lia; try discriminate.
    + eexists _, _. split; [reflexivity|].
      cbn [net_after clock calls]. repeat split; try lia; try discriminate.
Qed.

Lemma round_inr_keeps (T : Type) (p : Promise (Response T)) timeout d :
  round_result p timeout = inr d -> round_disconnects p timeout = false.
Proof.
  unfold round_result, round_disconnects.
  destruct (settles_as (withTimeout p timeout)) as [r2|e2]; [|reflexivity].
  destruct (error r2) as [e2|]; [|reflexivity].
  destruct (status_is e2 401); [discriminate|reflexivity].
Qed.

(** X23: an answer with the status 401 clears [isConnected] and is
    replaced by the error "Authentication error. Please log in again.",
    but it does not end the query: the replaced error is caught by the
    same [catch] as every other failure, and the operation is called
    again after the delay.  When the second answer is good its data is
    returned, and the connection stays marked as not connected. *)
Theorem supabaseQuery_retries_after_401 (T : Type)
  (operation : nat -> Promise (Response T)) customTimeout w ms r e d :
  let t := timeout_or_default customTimeout in
  let p2 := operation (calls w + 1)%nat in
  isConnected (connectionState w) = true ->
  settles_after (operation (calls w)) = Some ms ->
  Z.max 0 ms < Z.max 0 t ->
  settles_as (operation (calls w)) = Fulfilled r ->
  error r = Some e -> status e = Some 401 ->
  round_result p2 t = inr d ->
  supabaseQuery operation customTimeout w
  = Some (inr d,
          net_after w (Z.max 0 ms + 1000 + timed_wait p2 t) 2
            (disconnected (connectionState w))
            [Operation;
             NetConsoleError (js "Query attempt 1 failed:")
               (new_Error (js "Authentication error. Please log in again."));
             Sleep 1000; Operation]).
Proof.
  cbv zeta. intros Hc Hms Hlt Hr He Hs H2.
  assert (H401 : status_is e 401 = true).
  { unfold status_is. now rewrite Hs. }
  rewrite (supabaseQuery_connected T operation customTimeout w Hc).
  rewrite query_loop_run. cbv zeta.
  assert (R1 : round_result (operation (calls w))
                 (timeout_or_default customTimeout)
               = inl (new_Error
                        (js "Authentication error. Please log in again."))).
  { unfold round_result.
    now rewrite (round_in_time T _ _ ms Hms Hlt), Hr, He, H401. }
  assert (D1 : after_round (connectionState w) (operation (calls w))
                 (timeout_or_default customTimeout)
               = disconnected (connectionState w)).
  { unfold after_round, round_disconnects.
    now rewrite (round_in_time T _ _ ms Hms Hlt), Hr, He, H401. }
  assert (W1 : timed_wait (operation (calls w))
                 (timeout_or_default customTimeout) = Z.max 0 ms).
  { unfold timed_wait.
    now rewrite (round_in_time T _ _ ms Hms Hlt), Hms. }
  assert (D2 : round_disconnects (operation (calls w + 1)%nat)
                 (timeout_or_default customTimeout) = false).
  { apply (round_inr_keeps T _ _ d H2). }
  rewrite R1, H2, D1, W1. unfold after_round. rewrite D2. reflexivity.
Qed.

(** X24: the three rounds of [initializeSupabase], for a call that
    runs alone.  On a connection marked as connected it does nothing
    and asks nothing.  Otherwise it asks for the session up to three
    times, each time for at most 15000 ms, and the first answer that
    arrives within its timeout ends the call: it returns after that
    request, having logged each earlier failure and waited 1000 ms
    after the first and 2000 ms after the second, and it leaves a state
    that says connected, with no last error and a retry count of 0.
    When the three requests fail it throws "Failed to connect after 3
    attempts: " followed by the message of the third failure, after
    three logs, and it leaves a state that says not connected, with
    that message as last error ("Unknown error" when it is empty) and
    the time of the throw as last retry time.  Of the state, which all
    calls share, only what this call writes last is stated. *)
Theorem initializeSupabase_outcomes w :
  let n := calls w in
  let st := connectionState w in
  let first := client_events st ++ [GetSession] in
  (isConnected st = true -> initializeSupabase w = Some (inr tt, w))
  /\ (isConnected st = false ->
      exists st',
        match session_result n with
        | Fulfilled _ =>
            initializeSupabase w
            = Some (inr tt, net_after w (session_wait n) 1 st' first)
            /\ isConnected st' = true /\ lastError st' = None
            /\ retryCount st' = 0
        | Rejected e1 =>
            match session_result (n + 1) with
            | Fulfilled _ =>
                initializeSupabase w
                = Some (inr tt,
                        net_after w
                          (session_wait n + 1000 + session_wait (n + 1)) 2
                          st'
                          (first
                           ++ [NetConsoleError
                                 (js "Connection attempt 1 failed:") e1;
                               Sleep 1000; GetSession]))
                /\ isConnected st' = true /\ lastError st' = None
                /\ retryCount st' = 0
            | Rejected e2 =>
                match session_result (n + 2) with
                | Fulfilled _ =>
                    initializeSupabase w
                    = Some (inr tt,
                            net_after w
                              (session_wait n + 1000 + session_wait (n + 1)
                               + 2000 + session_wait (n + 2)) 3
                              st'
                              (first
                               ++ [NetConsoleError
                                     (js "Connection attempt 1 failed:") e1;
                                   Sleep 1000; GetSession;
                                   NetConsoleError
                                     (js "Connection attempt 2 failed:") e2;
                                   Sleep 2000; GetSession]))
                    /\ isConnected st' = true /\ lastError st' = None
                    /\ retryCount st' = 0
                | Rejected e3 =>
                    initializeSupabase w
                    = Some (inl (new_Error
                                   (js "Failed to connect after 3 attempts: "
                                    ++ raised_message e3)),
                            net_after w
                              (session_wait n + 1000 + session_wait (n + 1)
                               + 2000 + session_wait (n + 2)) 3
                              st'
                              (first
                               ++ [NetConsoleError
                                     (js "Connection attempt 1 failed:") e1;
                                   Sleep 1000; GetSession;
                                   NetConsoleError
                                     (js "Connection attempt 2 failed:") e2;
                                   Sleep 2000; GetSession;
                                   NetConsoleError
                                     (js "Connection attempt 3 failed:") e3]))
                    /\ isConnected st' = false
                    /\ lastError st'
                       = Some (str_or (raised_message e3)
                                 (js "Unknown error"))
                    /\ lastRetryTime st'
                       = clock w + session_wait n + 1000
                         + session_wait (n + 1) + 2000 + session_wait (n + 2)
                end
            end
        end)
  /\ (forall k, 0 <= session_wait k <= 15000).
Proof.
  cbv zeta. split; [|split; [|exact session_wait_bound]].
  - intros Hc. rewrite initializeSupabase_eq. unfold net_bind, get_state.
    now rewrite Hc.
  - intros Hc.
    assert (E : initializeSupabase w
                = for_attempts 4 0 connect_round (net_ret tt) w).
    { rewrite initializeSupabase_eq. unfold net_bind, get_state.
      now rewrite Hc. }
    rewrite E, connect_loop_run. cbv zeta.
    destruct (session_result (calls w)) as [a1|e1];
      [|destruct (session_result (calls w + 1)) as [a2|e2];
        [|destruct (session_result (calls w + 2)) as [a3|e3]]];
      eexists; (split; [do 2 f_equal; unfold net_after;
                        cbn [clock calls connectionState net_log];
                        f_equal; try lia;
                        rewrite <- ?app_assoc; reflexivity|]);
      cbn [connected failed isConnected lastError retryCount lastRetryTime];
      repeat split; lia.
Qed.

(** X25: without a connection no operation is called.  When the
    connection is not marked as connected and the three session
    requests of [initializeSupabase] fail, [supabaseQuery] throws the
    error of [initializeSupabase] and never calls [operation]. *)
Theorem supabaseQuery_needs_connection (T : Type)
  (operation : nat -> Promise (Response T)) customTimeout w e1 e2 e3 :
  isConnected (connectionState w) = false ->
  session_result (calls w) = Rejected e1 ->
  session_result (calls w + 1) = Rejected e2 ->
  session_result (calls w + 2) = Rejected e3 ->
  exists w',
    supabaseQuery operation customTimeout w = Some (inl (gave_up e3), w')
    /\ initializeSupabase w = Some (inl (gave_up e3), w')
    /\ net_log w'
       = net_log w
         ++ client_events (connectionState w)
         ++ [GetSession;
             NetConsoleError (js "Connection attempt 1 failed:") e1;
             Sleep 1000; GetSession;
             NetConsoleError (js "Connection attempt 2 failed:") e2;
             Sleep 2000; GetSession;
             NetConsoleError (js "Connection attempt 3 failed:") e3]
    /\ calls w' = (calls w + 3)%nat.
Proof.
  intros Hc H1 H2 H3.
  assert (Ei : initializeSupabase w
               = Some (inl (gave_up e3),
                       net_after w
                         (clock w + session_wait (calls w) + 1000
                          + session_wait (calls w + 1) + 2000
                          + session_wait (calls w + 2) - clock w) 3
                         (failed
                            (failed
                               (failed (connectionState w) e1
                                  (clock w + session_wait (calls w)))
                               e2
                               (clock w + session_wait (calls w) + 1000
                                + session_wait (calls w + 1)))
                            e3
                            (clock w + session_wait (calls w) + 1000
                             + session_wait (calls w + 1) + 2000
                             + session_wait (calls w + 2)))
                         (client_events (connectionState w)
                          ++ [GetSession;
                              NetConsoleError
                                (js "Connection attempt 1 failed:") e1;
                              Sleep 1000; GetSession;
                              NetConsoleError
                                (js "Connection attempt 2 failed:") e2;
                              Sleep 2000; GetSession;
                              NetConsoleError
                                (js "Connection attempt 3 failed:") e3]))).
  { rewrite initializeSupabase_eq. unfold net_bind at 1, get_state.
    rewrite Hc, connect_loop_run. cbv zeta. now rewrite H1, H2, H3. }
  eexists. split; [|split; [exact Ei|split]].
  - rewrite supabaseQuery_eq. unfold net_bind at 1 2, get_state.
    rewrite Hc. cbn [negb]. rewrite Ei. reflexivity.
  - reflexivity.
  - reflexivity.
Qed.

Lemma str_or_nonempty x fallback : fallback <> [] -> str_or x fallback <> [].
Proof. intros H. destruct x; [exact H|discriminate]. Qed.

(** X26: what the status says to the caller that catches a failed
    connection.  When [initializeSupabase] has thrown, the error is
    "Failed to connect after 3 attempts: " followed by the message [m]
    of the last failure, and [getConnectionStatus], read in the state
    that the call left, reports a connection that is not connected, as
    last error [m], or "Unknown error" when [m] is empty (so never an
    empty text and never [null]), and the time of the throw as last
    retry time; reading the status changes nothing.  The retry count,
    which every call in flight increments, is reported as it stands. *)
Theorem status_after_failed_connection w e w' :
  initializeSupabase w = Some (inl e, w') ->
  exists m,
    raised_message e = js "Failed to connect after 3 attempts: " ++ m
    /\ status e = None
    /\ str_or m (js "Unknown error") <> []
    /\ getConnectionStatus w'
       = Some (inr {| status_isConnected := false;
                      status_lastError :=
                        Some (str_or m (js "Unknown error"));
                      status_retryCount := retryCount (connectionState w');
                      status_lastRetryTime := clock w' |},
               w').
Proof.
  rewrite initializeSupabase_eq. unfold net_bind at 1, get_state.
  destruct (isConnected (connectionState w)) eqn:Hc; [discriminate|].
  rewrite connect_loop_run. cbv zeta.
  destruct (session_result (calls w)) as [a1|e1]; [discriminate|].
  destruct (session_result (calls w + 1)) as [a2|e2]; [discriminate|].
  destruct (session_result (calls w + 2)) as [a3|e3]; [discriminate|].
  intros H. injection H as <- <-.
  exists (raised_message e3). split; [reflexivity|]. split; [reflexivity|].
  split.
  - apply str_or_nonempty. discriminate.
  - unfold getConnectionStatus, net_bind, get_state, net_ret.
    cbn [net_after connectionState failed isConnected lastError retryCount
         lastRetryTime clock].
    do 3 f_equal. f_equal; lia.
Qed.

(** *** What the two retry loops guarantee to their callers *)

Lemma supabaseQuery_settles (T : Type)
  (operation : nat -> Promise (Response T)) customTimeout w :
  exists r w', supabaseQuery operation customTimeout w = Some (r, w').
Proof.
  rewrite supabaseQuery_eq. unfold net_bind at 1 2, get_state.
  destruct (isConnected (connectionState w)) eqn:Hc; cbn [negb].
  - unfold net_ret.
    destruct (query_loop_bound T operation customTimeout
                (net_throw
                   (new_Error (js "Failed to execute query after all retries")))
                w) as (r & w' & E & _).
    rewrite E. now exists r, w'.
  - rewrite initializeSupabase_eq. unfold net_bind at 1, get_state.
    rewrite Hc, connect_loop_run. cbv zeta.
    destruct (session_result (calls w)) as [a1|e1];
      [|destruct (session_result (calls w + 1)) as [a2|e2];
        [|destruct (session_result (calls w + 2)) as [a3|e3]]];
      try match goal with
        | |- context [for_attempts 4 0 _ ?a ?w1] =>
            destruct (query_loop_bound T operation customTimeout a w1)
              as (r & w' & E & _);
            rewrite E; now exists r, w'
        end.
    now eexists _, _.
Qed.

Lemma query_loop_inr (T : Type) (operation : nat -> Promise (Response T))
  customTimeout after_loop w d w' :
  for_attempts 4 0 (query_round operation customTimeout) after_loop w
  = Some (inr d, w') ->
  exists n,
    (calls w <= n < calls w')%nat
    /\ round_result (operation n) (timeout_or_default customTimeout) = inr d.
Proof.
  rewrite query_loop_run. cbv zeta.
  destruct (round_result (operation (calls w)) _) as [e1|d1] eqn:R1.
  2:{ intros H. injection H as <- <-. exists (calls w).
      cbn [net_after calls]. split; [lia|exact R1]. }
  destruct (round_result (operation (calls w + 1)%nat) _) as [e2|d2] eqn:R2.
  2:{ intros H. injection H as <- <-. exists (calls w + 1)%nat.
      cbn [net_after calls]. split; [lia|exact R2]. }
  destruct (round_result (operation (calls w + 2)%nat) _) as [e3|d3] eqn:R3.
  2:{ intros H. injection H as <- <-. exists (calls w + 2)%nat.
      cbn [net_after calls]. split; [lia|exact R3]. }
  discriminate.
Qed.

Lemma supabaseQuery_inr (T : Type) (operation : nat -> Promise (Response T))
  customTimeout w d w' :
  supabaseQuery operation customTimeout w = Some (inr d, w') ->
  exists n,
    (calls w <= n < calls w')%nat
    /\ round_result (operation n) (timeout_or_default customTimeout) = inr d.
Proof.
  rewrite supabaseQuery_eq. unfold net_bind at 1 2, get_state.
  destruct (isConnected (connectionState w)) eqn:Hc; cbn [negb].
  - unfold net_ret. apply query_loop_inr.
  - rewrite initializeSupabase_eq. unfold net_bind at 1, get_state.
    rewrite Hc, connect_loop_run. cbv zeta.
    destruct (session_result (calls w)) as [a1|e1];
      [|destruct (session_result (calls w + 1)) as [a2|e2];
        [|destruct (session_result (calls w + 2)) as [a3|e3]]];
      try discriminate;
      intros H; apply query_loop_inr in H; destruct H as (n & Hn & R);
      cbn [net_after calls] in Hn; exists n; (split; [lia|exact R]).
Qed.

End ConnectionProofs.

(** ** The key management functions *)

Section ApiProofs.

Context {network : Network} {database : Database} {tools : KeyTools}.

Lemma createApiKey_eq name expiresAt :
  createApiKey name expiresAt
  = admin_only (js "Error in createApiKey:")
      (js_utf8 "Не удалось создать API ключ")
      (fun user_id =>
         uuid1 <- crypto_randomUUID ;;
         uuid2 <- crypto_randomUUID ;;
         on_net (supabaseQuery
                   (respond (api_keys_insert (SHA256_hex (uuid1 ++ uuid2))
                               name user_id expiresAt))
                   None) ;;;
         key_ret (uuid1 ++ uuid2))%key.
Proof. reflexivity. Qed.

Lemma getApiKeys_eq :
  getApiKeys
  = admin_only (js "Error in getApiKeys:")
      (js_utf8 "Не удалось получить список API ключей")
      (fun user_id =>
         keys <- on_net (supabaseQuery
                           (respond (api_keys_select user_id)) None) ;;
         key_ret (rows_or_empty keys))%key.
Proof. reflexivity. Qed.

Lemma deleteApiKey_eq id :
  deleteApiKey id
  = admin_only (js "Error in deleteApiKey:")
      (js_utf8 "Не удалось удалить API ключ")
      (fun user_id =>
         on_net (supabaseQuery
                   (respond (api_keys_delete id user_id)) None) ;;;
         key_ret tt)%key.
Proof. reflexivity. Qed.

Lemma getFilesWithApiKey_eq apiKey :
  getFilesWithApiKey apiKey
  = admin_only (js "Error in getFilesWithApiKey:")
      (js_utf8 "Не удалось получить файлы")
      (fun user_id =>
         files <- on_net (supabaseQuery (respond files_select_all) None) ;;
         key_ret (rows_or_empty files))%key.
Proof. reflexivity. Qed.

Ltac key_world :=
  unfold key_after, net_after;
  cbn [net_world drawn clock calls connectionState net_log];
  f_equal; try lia;
  f_equal; try lia; rewrite <- ?app_assoc; try reflexivity.

Lemma key_after_after w a n st evs b k st' evs' :
  key_after (key_after w a n st evs) b k st' evs'
  = key_after w (a + b) (n + k) st' (evs ++ evs').
Proof. key_world. Qed.

(** The frame, step by step. *)
Lemma admin_only_run (A : Type) label fallback (rest : jsstring -> KeyM A) w :
  admin_only label fallback rest w
  = match settles_after (session_promise (calls (net_world w))) with
    | None => None
    | Some ms =>
        let w1 :=
          key_after w (Z.max 0 ms) 1 (connectionState (net_world w))
            [GetSession] in
        match settles_as (session_promise (calls (net_world w))) with
        | Rejected e => caught A label fallback e w1
        | Fulfilled session =>
            match session_error session with
            | Some _ =>
                caught A label fallback
                  (new_Error (js_utf8 "Ошибка аутентификации")) w1
            | None =>
                match session_user session with
                | None =>
                    caught A label fallback
                      (new_Error (js_utf8 "Необходима авторизация")) w1
                | Some user_id =>
                    match supabaseQuery (respond (profiles_is_admin user_id))
                            None (net_world w1) with
                    | None => None
                    | Some (inl e, n2) =>
                        caught A label fallback e
                          {| net_world := n2; drawn := drawn w |}
                    | Some (inr profile, n2) =>
                        if truthy_is_admin profile then
                          match rest user_id
                                  {| net_world := n2; drawn := drawn w |} with
                          | None => None
                          | Some (inl e, w3) => caught A label fallback e w3
                          | Some (inr a, w3) => Some (inr a, w3)
                          end
                        else
                          caught A label fallback
                            (new_Error (js_utf8 "Недостаточно прав"))
                            {| net_world := n2; drawn := drawn w |}
                    end
                end
            end
        end
    end.
Proof.
  unfold admin_only, key_try_catch.
  unfold key_bind at 1. unfold on_net at 1, auth_getSession.
  cbn [net_world drawn].
  unfold key_bind at 1. unfold on_net at 1, await.
  cbn [net_world drawn clock calls connectionState net_log].
  destruct (settles_after (session_promise (calls (net_world w)))) as [ms|];
    [|reflexivity].
  cbv zeta.
  assert (W1 : {| net_world :=
                    {| clock := clock (net_world w) + Z.max 0 ms;
                       calls := S (calls (net_world w));
                       connectionState := connectionState (net_world w);
                       net_log := net_log (net_world w) ++ [GetSession] |};
                  drawn := drawn w |}
               = key_after w (Z.max 0 ms) 1 (connectionState (net_world w))
                   [GetSession]).
  { key_world. }
  assert (C : forall e w0,
             (on_net (net_emit (NetConsoleError label e)) ;;;
              key_throw (new_Error (str_or (raised_message e) fallback)))%key
               w0
             = caught A label fallback e w0).
  { intros e w0. unfold caught, key_bind, on_net, net_emit, key_throw.
    do 2 f_equal. key_world. }
  destruct (settles_as (session_promise (calls (net_world w))))
    as [session|e]; rewrite W1.
  2:{ apply C. }
  destruct (session_error session) as [e|].
  { unfold key_throw at 1. apply C. }
  destruct (session_user session) as [user_id|].
  2:{ unfold key_throw at 1. apply C. }
  unfold key_bind at 1. unfold on_net at 1.
  destruct (supabaseQuery _ None (net_world _)) as [[[e|profile] n2]|];
    [apply C| |reflexivity].
  cbn [drawn key_after].
  destruct (truthy_is_admin profile); cbn [negb].
  - destruct (rest user_id _) as [[[e|a] w3]|]; [apply C|reflexivity..].
  - unfold key_throw at 1. apply C.
Qed.


Lemma str_or_keeps x fallback : x <> [] -> str_or x fallback = x.
Proof. destruct x; [congruence|reflexivity]. Qed.

(** *** The four functions *)

(** X27: without a session the four functions stop before any request
    to the database.  When the answer to [getSession] carries an error
    they throw "Ошибка аутентификации", and when it carries neither an
    error nor a session they throw "Необходима авторизация"; in both
    cases the only request was the one for the session, the error was
    logged once, the connection state is as before and no UUID was
    drawn. *)
Theorem key_functions_need_a_session name expiresAt id apiKey w ms session
  message :
  settles_after (session_promise (calls (net_world w))) = Some ms ->
  settles_as (session_promise (calls (net_world w))) = Fulfilled session ->
  (session_error session <> None
   /\ message = js_utf8 "Ошибка аутентификации")
  \/ (session_error session = None /\ session_user session = None
      /\ message = js_utf8 "Необходима авторизация") ->
  let refused (A : Type) (label : jsstring)
    : option ((Raised + A) * KeyWorld) :=
    Some (inl (new_Error message),
          key_after w (Z.max 0 ms) 1 (connectionState (net_world w))
            [GetSession; NetConsoleError label (new_Error message)]) in
  createApiKey name expiresAt w = refused _ (js "Error in createApiKey:")
  /\ getApiKeys w = refused _ (js "Error in getApiKeys:")
  /\ deleteApiKey id w = refused _ (js "Error in deleteApiKey:")
  /\ getFilesWithApiKey apiKey w = refused _ (js "Error in getFilesWithApiKey:").
Proof.
  intros Hms Hs Hcase. cbv zeta.
  rewrite createApiKey_eq, getApiKeys_eq, deleteApiKey_eq,
    getFilesWithApiKey_eq, !admin_only_run, Hms, Hs.
  cbv zeta. unfold caught. rewrite !key_after_after.
  cbn [key_after net_world connectionState net_after raised_message
       new_Error app].
  replace (Z.max 0 ms + 0) with (Z.max 0 ms) by lia.
  destruct Hcase as [[He ->]|(He & Hu & ->)].
  - destruct (session_error session) as [e|]; [|congruence].
    rewrite !str_or_keeps by (vm_compute; discriminate).
    repeat split.
  - rewrite He, Hu.
    rewrite !str_or_keeps by (vm_compute; discriminate).
    repeat split.
Qed.

(** X28: only an administrator gets further.  On a connection marked
    as connected, when the session has a user and the first answer to
    the query for the profile of that user arrives in time, without an
    error, and is [null] or a row whose [is_admin] is not [true], each
    of the four functions throws "Недостаточно прав".  Two requests
    were made, the one for the session and the one for the profile:
    nothing was inserted, selected or deleted, and what the database
    would have answered plays no part. *)
Theorem key_functions_need_an_administrator name expiresAt id apiKey w ms
  session user_id ms' r :
  isConnected (connectionState (net_world w)) = true ->
  settles_after (session_promise (calls (net_world w))) = Some ms ->
  settles_as (session_promise (calls (net_world w))) = Fulfilled session ->
  session_error session = None ->
  session_user session = Some user_id ->
  let profile :=
    respond (profiles_is_admin user_id) (calls (net_world w) + 1) in
  settles_after profile = Some ms' ->
  Z.max 0 ms' < CONNECTION_TIMEOUT ->
  settles_as profile = Fulfilled r ->
  error r = None ->
  truthy_is_admin (data r) = false ->
  let refused (A : Type) (label : jsstring)
    : option ((Raised + A) * KeyWorld) :=
    Some (inl (new_Error (js_utf8 "Недостаточно прав")),
          key_after w (Z.max 0 ms + Z.max 0 ms') 2
            (connectionState (net_world w))
            [GetSession; Operation;
             NetConsoleError label
               (new_Error (js_utf8 "Недостаточно прав"))]) in
  createApiKey name expiresAt w = refused _ (js "Error in createApiKey:")
  /\ getApiKeys w = refused _ (js "Error in getApiKeys:")
  /\ deleteApiKey id w = refused _ (js "Error in deleteApiKey:")
  /\ getFilesWithApiKey apiKey w = refused _ (js "Error in getFilesWithApiKey:").
Proof.
  intros Hc Hms Hs He Hu. cbv zeta. intros Hms' Hlt Hr Her Hadmin.
  assert (Q : supabaseQuery (respond (profiles_is_admin user_id)) None
                (net_world
                   (key_after w (Z.max 0 ms) 1
                      (connectionState (net_world w)) [GetSession]))
              = Some (inr (data r),
                      net_after (net_world w) (Z.max 0 ms + Z.max 0 ms') 2
                        (connectionState (net_world w))
                        [GetSession; Operation])).
  { rewrite supabaseQuery_connected by exact Hc.
    rewrite query_loop_run. cbv zeta.
    cbn [key_after net_world net_after calls connectionState].
    unfold round_result, after_round, round_disconnects, timed_wait.
    change (timeout_or_default None) with CONNECTION_TIMEOUT.
    rewrite (round_in_time _ _ CONNECTION_TIMEOUT ms' Hms' Hlt), Hms', Hr, Her.
    do 2 f_equal. unfold net_after.
    cbn [clock calls connectionState net_log].
    f_equal; try lia. now rewrite <- app_assoc. }
  rewrite createApiKey_eq, getApiKeys_eq, deleteApiKey_eq,
    getFilesWithApiKey_eq, !admin_only_run, Hms, Hs, He, Hu.
  cbv zeta. rewrite Q, Hadmin. unfold caught.
  cbn [raised_message new_Error net_world connectionState net_after].
  rewrite !str_or_keeps by (vm_compute; discriminate).
  repeat split; do 2 f_equal; unfold key_after, net_after;
    cbn [net_world drawn clock calls connectionState net_log];
    f_equal; f_equal; try lia; now rewrite <- app_assoc.
Qed.

(** X29: a key that [createApiKey] returns has been stored, and only
    as its digest.  When [createApiKey] returns a key, the key is the
    two UUIDs drawn, one after the other; the session had a user; a
    query for the profile of that user was answered in time with a row
    whose [is_admin] is [true]; and after it an insert into [api_keys]
    for that user, with the given name and expiry and with the SHA-256
    digest of the returned key in place of the key, was answered in
    time without an error. *)
Theorem createApiKey_returns_a_stored_key name expiresAt w key w' :
  createApiKey name expiresAt w = Some (inr key, w') ->
  key = randomUUID (drawn w) ++ randomUUID (S (drawn w))
  /\ drawn w' = S (S (drawn w))
  /\ exists session user_id n1 row n2 stored,
       settles_as (session_promise (calls (net_world w))) = Fulfilled session
       /\ session_error session = None
       /\ session_user session = Some user_id
       /\ round_result (respond (profiles_is_admin user_id) n1)
            CONNECTION_TIMEOUT = inr (Some row)
       /\ is_admin row = Some true
       /\ round_result
            (respond (api_keys_insert (SHA256_hex key) name user_id expiresAt)
               n2)
            CONNECTION_TIMEOUT = inr stored
       /\ (calls (net_world w) < n1 < n2)%nat
       /\ (n2 < calls (net_world w'))%nat.
Proof.
  rewrite createApiKey_eq, admin_only_run.
  destruct (settles_after (session_promise (calls (net_world w)))) as [ms|];
    [|discriminate].
  cbv zeta. unfold caught.
  destruct (settles_as (session_promise (calls (net_world w))))
    as [session|e]; [|discriminate].
  destruct (session_error session) as [e|] eqn:He; [discriminate|].
  destruct (session_user session) as [user_id|] eqn:Hu; [|discriminate].
  destruct (supabaseQuery (respond (profiles_is_admin user_id)) None _)
    as [[[e|profile] n2]|] eqn:Q1; try discriminate.
  destruct (truthy_is_admin profile) eqn:Hadmin; [|discriminate].
  unfold key_bind at 1. unfold crypto_randomUUID at 1. cbn [drawn net_world].
  unfold key_bind at 1. unfold crypto_randomUUID at 1. cbn [drawn net_world].
  unfold key_bind at 1. unfold on_net at 1. cbn [drawn net_world].
  destruct (supabaseQuery (respond (api_keys_insert _ name user_id expiresAt))
              None n2)
    as [[[e|stored] n3]|] eqn:Q2; try discriminate.
  unfold key_ret. intros H. injection H as <- <-.
  split; [reflexivity|]. split; [reflexivity|].
  apply supabaseQuery_inr in Q1. destruct Q1 as (k1 & Hk1 & R1).
  apply supabaseQuery_inr in Q2. destruct Q2 as (k2 & Hk2 & R2).
  cbn [key_after net_world net_after calls] in Hk1.
  change (timeout_or_default None) with CONNECTION_TIMEOUT in R1, R2.
  destruct profile as [[[[]|]]|]; try discriminate.
  exists session, user_id, k1, {| is_admin := Some true |}, k2, stored.
  cbn [net_world].
  repeat split; try assumption; try reflexivity; lia.
Qed.

(** The frame settles exactly when the session request does, as long
    as what follows it settles. *)
Lemma admin_only_settles (A : Type) label fallback (rest : jsstring -> KeyM A)
  w :
  (forall user_id w2, rest user_id w2 <> None) ->
  admin_only label fallback rest w = None
  <-> settles_after (session_promise (calls (net_world w))) = None.
Proof.
  intros Hrest. rewrite admin_only_run.
  destruct (settles_after (session_promise (calls (net_world w)))) as [ms|];
    [|tauto].
  cbv zeta. unfold caught.
  split; [|discriminate]. intros H. exfalso. revert H.
  destruct (settles_as (session_promise (calls (net_world w))))
    as [session|e]; [|discriminate].
  destruct (session_error session); [discriminate|].
  destruct (session_user session) as [user_id|]; [|discriminate].
  destruct (supabaseQuery_settles _ (respond (profiles_is_admin user_id)) None
              (net_world
                 (key_after w (Z.max 0 ms) 1 (connectionState (net_world w))
                    [GetSession])))
    as ([e|profile] & n2 & ->); [discriminate|].
  destruct (truthy_is_admin profile); [|discriminate].
  specialize (Hrest user_id {| net_world := n2; drawn := drawn w |}).
  destruct (rest user_id _) as [[[e|a] w3]|]; try discriminate. congruence.
Qed.

Lemma on_net_query_settles (T A : Type)
  (operation : nat -> Promise (Response T)) (k : option T -> KeyM A) w :
  (forall d w2, k d w2 <> None) ->
  (d <- on_net (supabaseQuery operation None) ;; k d)%key w <> None.
Proof.
  intros Hk. unfold key_bind, on_net.
  destruct (supabaseQuery_settles T operation None (net_world w))
    as ([e|d] & w' & ->); [discriminate|apply Hk].
Qed.

(** X30: the one wait without a timeout.  Each of the four functions
    settles, by returning or by throwing, exactly when the request for
    the session that it makes first is answered; when that request is
    never answered the function never settles, and everything after it
    is cut by the timeouts of [supabaseQuery]. *)
Theorem key_functions_settle_iff_session_answers name expiresAt id apiKey w :
  let pending :=
    settles_after (session_promise (calls (net_world w))) = None in
  (createApiKey name expiresAt w = None <-> pending)
  /\ (getApiKeys w = None <-> pending)
  /\ (deleteApiKey id w = None <-> pending)
  /\ (getFilesWithApiKey apiKey w = None <-> pending).
Proof.
  cbv zeta.
  rewrite createApiKey_eq, getApiKeys_eq, deleteApiKey_eq,
    getFilesWithApiKey_eq.
  repeat split; try (apply admin_only_settles; intros user_id w2);
    try (apply (admin_only_settles _ _ _ _ w); intros user_id w2).
  all: try (apply on_net_query_settles; intros; discriminate).
  all: unfold key_bind at 1; unfold crypto_randomUUID at 1;
    unfold key_bind at 1; unfold crypto_randomUUID at 1;
    apply on_net_query_settles; intros; discriminate.
Qed.

End ApiProofs.

(** ** The reference host meets the expectations *)

Import RefHost.

Lemma b64_encode_plain l : Forall is_byte l -> Forall plain_char (b64_encode l).
Proof.
  intros H. rewrite b64_encode_split. apply Forall_app. split.
  - eapply Forall_impl; [|apply (b64_core_alpha _ H)]. exact b64_alpha_plain.
  - apply Forall_forall. intros x Hx. apply repeat_spec in Hx. subst.
    unfold plain_char, c_eq, c_quote, c_backslash. lia.
Qed.

Lemma b64_encode_nonempty l : l <> [] -> b64_encode l <> [].
Proof. destruct l as [|a [|b [|c l]]]; [congruence| | |]; discriminate. Qed.

Lemma shifted_bytes m l :
  Forall is_byte (map (fun b => (b + m) mod 256) l).
Proof.
  apply Forall_map, Forall_forall. intros x _. unfold is_byte. dlia.
Qed.

Lemma unshift_shift m l :
  Forall is_byte l ->
  map (fun b => (b - m) mod 256) (map (fun b => (b + m) mod 256) l) = l.
Proof.
  induction 1 as [|b l Hb _ IH]; [reflexivity|].
  cbn [map]. rewrite IH. f_equal. unfold is_byte in Hb. dlia.
Qed.

Lemma pkcs7_pad_bytes l : Forall is_byte l -> Forall is_byte (pkcs7_pad l).
Proof.
  intros H. unfold pkcs7_pad. apply Forall_app. split; [assumption|].
  apply Forall_forall. intros x Hx. apply repeat_spec in Hx. subst.
  unfold is_byte. dlia.
Qed.

Lemma pkcs7_pad_nonempty l : pkcs7_pad l <> [].
Proof.
  unfold pkcs7_pad. intros E. apply app_eq_nil in E as [_ E].
  assert (H : (0 < Z.to_nat (16 - len l mod 16))%nat) by dlia.
  destruct (Z.to_nat (16 - len l mod 16)); [lia|discriminate E].
Qed.

Lemma ref_host_text_plain : cipher_text_plain ref_host.
Proof.
  intros message key iv. cbn zeta.
  cbn [CipherParams_toString AES_encrypt ref_host].
  unfold ref_toString, ref_encrypt.
  rewrite wa_bytes_create by apply shifted_bytes. split.
  - apply b64_encode_nonempty. intros E. apply map_eq_nil in E.
    now apply pkcs7_pad_nonempty in E.
  - apply b64_encode_plain, shifted_bytes.
Qed.

Lemma marked_host_text_plain : cipher_text_plain marked_host.
Proof.
  intros message key iv. cbn zeta.
  cbn [CipherParams_toString AES_encrypt marked_host].
  split; [discriminate|].
  apply Forall_app. split.
  - change (js "?AA>") with [63; 65; 65; 62].
    repeat (constructor;
            [unfold plain_char, c_quote, c_backslash; lia|]).
    constructor.
  - apply (proj2 (ref_host_text_plain message key iv)).
Qed.

Lemma ref_host_inverts : cipher_inverts ref_host.
Proof.
  intros octets key iv Hoct Hk Hi.
  exists (WordArray_create (wa_bytes key)), (WordArray_create (wa_bytes iv)).
  cbn [Hex_parse AES_decrypt AES_encrypt CipherParams_toString
       ref_host].
  unfold ref_Hex_parse, ref_decrypt, ref_toString,
    ref_encrypt.
  rewrite !hex_octets_stringify.
  rewrite (wa_bytes_create octets) by assumption.
  rewrite wa_bytes_create by apply shifted_bytes.
  rewrite atob_b64_encode by apply shifted_bytes.
  assert (Em : mask (WordArray_create (wa_bytes key))
                 (WordArray_create (wa_bytes iv)) = mask key iv).
  { unfold mask. now rewrite !wa_bytes_create by apply wa_bytes_range. }
  rewrite Em, unshift_shift by now apply pkcs7_pad_bytes.
  eexists. repeat split. cbn [words].
  destruct (words_bytes_pack (pkcs7_pad octets)
              (pkcs7_pad_bytes _ Hoct)) as (tail & E & _).
  rewrite E. unfold pkcs7_pad. rewrite <- !app_assoc.
  apply firstn_length_app.
Qed.

(** An envelope text with plain, non-empty fields and a positive length
    is well formed. *)
Lemma envelope_text_well_formed kh ih ct n :
  Forall plain_char kh -> Forall plain_char ih -> Forall plain_char ct ->
  kh <> [] -> ih <> [] -> ct <> [] -> 0 < n <= 2 ^ 53 - 1 ->
  well_formed_envelope (base64url_nopad (envelope_text kh ih ct n)) kh ih ct n.
Proof.
  intros Hk Hi Hc Nk Ni Nc Hn.
  exists (envelope_text kh ih ct n),
    [(js "k", JStr kh); (js "i", JStr ih); (js "d", JStr ct);
     (js "s", JNum (nat_literal n))], (nat_literal n).
  split; [|split; [|split; [|repeat split]]]; try assumption; try lia.
  - apply base64url_nopad_nonempty.
    + apply ascii_is_byte, envelope_text_ascii; assumption.
    + apply envelope_text_nonempty.
  - apply transport_decode_base64url, envelope_text_ascii; assumption.
  - now apply JSON_parse_envelope.
  - apply num_int_value_nat. lia.
Qed.

Lemma key_hex5_plain : Forall plain_char key_hex5.
Proof. apply Hex_stringify_plain. Qed.

Lemma iv_hex5_plain : Forall plain_char iv_hex5.
Proof. apply Hex_stringify_plain. Qed.

Lemma cipher_text5_plain : Forall plain_char cipher_text5.
Proof. apply (ref_host_text_plain _ _ _). Qed.

Lemma long_envelope_well_formed :
  well_formed_envelope long_envelope
    key_hex5 iv_hex5 cipher_text5 40.
Proof.
  apply envelope_text_well_formed;
    auto using key_hex5_plain, iv_hex5_plain, cipher_text5_plain;
    try (vm_compute; discriminate).
  vm_compute. split; [reflexivity|discriminate].
Qed.

Lemma huge_envelope_well_formed :
  well_formed_envelope huge_envelope
    key_hex5 iv_hex5 cipher_text5 1000000000000.
Proof.
  apply envelope_text_well_formed;
    auto using key_hex5_plain, iv_hex5_plain, cipher_text5_plain;
    try (vm_compute; discriminate).
  vm_compute. split; [reflexivity|discriminate].
Qed.


Lemma decrypt_cipher_text5 :
  AES_decrypt (JStr cipher_text5) key5 iv5
  = inr decrypted5.
Proof. vm_compute. reflexivity. Qed.

Lemma five_bytes_are_bytes : Forall is_byte (file_bytes five_bytes).
Proof. repeat (constructor; [unfold is_byte; lia|]). constructor. Qed.

Lemma five_bytes_size : 0 < size five_bytes <= MAX_FILE_SIZE.
Proof. vm_compute. split; [reflexivity|discriminate]. Qed.

Lemma big_file_size : size big_file > MAX_FILE_SIZE.
Proof.
  unfold size, big_file. cbn [file_bytes].
  rewrite len_repeat, Z2Nat.id by lia. unfold MAX_FILE_SIZE. lia.
Qed.

Lemma draws_differ :
  wa_bytes (drawn_key w0)
  <> wa_bytes (drawn_key (after_encrypt w0))
  \/ wa_bytes (drawn_iv w0)
     <> wa_bytes (drawn_iv (after_encrypt w0)).
Proof. left. vm_compute. discriminate. Qed.

(* ================================================================= *)
(** ** The properties on the reference host

    Below, the host is [ref_host] and the world is [w0]. *)

(** C1 on the reference host in the initial world. *)
Lemma empty_file_is_not_recovered_witness :
  encryptFile empty_file w0 = (inr (envelope_of empty_file w0), after_encrypt w0)
  /\ decryptFile (envelope_of empty_file w0) [] [] w0 = incomplete_outcome w0.
Proof.
  exact (empty_file_is_not_recovered w0 [] [] w0 ref_host_text_plain).
Defined.

(** C2 on the envelope [zero_envelope], whose length field is 0. *)
Lemma zero_length_is_incomplete_witness :
  decryptFile zero_envelope [] [] w0
  = (inl (Error (js "Failed to decrypt file: Incomplete file data")),
     logged w0 (EvConsoleError (js "Decryption error:")
                  (Error (js "Incomplete file data")))).
Proof.
  apply (zero_length_is_incomplete zero_envelope [] [] w0
           (envelope_text key_hex5 iv_hex5 cipher_text5 0)
           [(js "k", JStr key_hex5); (js "i", JStr iv_hex5);
            (js "d", JStr cipher_text5); (js "s", JNum (nat_literal 0))]
           (nat_literal 0)).
  - vm_compute. discriminate.
  - vm_compute. reflexivity.
  - vm_compute. reflexivity.
  - vm_compute. reflexivity.
  - vm_compute. reflexivity.
Defined.

(** C3 on the five-octet file. *)
Lemma encryptFile_size_boundary_witness :
  (fst (encryptFile five_bytes w0)
   = inl (Error (js "File size exceeds 10MB limit"))
   <-> size five_bytes > 10485760)
  /\ (size five_bytes = 10485761 ->
      fst (encryptFile five_bytes w0)
      = inl (Error (js "File size exceeds 10MB limit")))
  /\ (size five_bytes = 10485760 ->
      exists envelope, fst (encryptFile five_bytes w0) = inr envelope)
  /\ (size five_bytes <= 10485760 ->
      exists envelope, fst (encryptFile five_bytes w0) = inr envelope).
Proof.
  exact (encryptFile_size_boundary five_bytes w0 ref_host_text_plain).
Defined.

(** C4 on a file of 10_485_761 octets. *)
Lemma oversize_fails_before_any_draw_witness :
  size big_file > MAX_FILE_SIZE
  /\ encryptFile big_file w0
     = (inl (Error (js "File size exceeds 10MB limit")),
        logged w0 (EvConsoleError (js "Encryption error:")
                     (Error (js "File size exceeds 10MB limit"))))
  /\ rng_cursor (snd (encryptFile big_file w0)) = rng_cursor w0
  /\ (forall nBytes,
        ~ In (EvRandom nBytes)
            (skipn (length (events w0))
               (events (snd (encryptFile big_file w0)))))
  /\ ~ In EvEncrypt
         (skipn (length (events w0))
            (events (snd (encryptFile big_file w0)))).
Proof.
  split; [exact big_file_size|].
  exact (oversize_fails_before_any_draw big_file w0 big_file_size).
Defined.

(** C6 on the five-octet file in the initial world, on two hosts: the
    string returned, and beside it the standard base64 of the same
    JSON text.  On the reference host the standard form ends with two
    [=], which the returned string lacks.  On the host that marks its
    cipher text the standard form has a [/], a [+] and one [=]; the
    returned string has [_] and [-] in their places and no [=]. *)
Lemma encryptFile_wire_format_witness :
  (encryptFile five_bytes w0
   = (inr (js "eyJrIjoiNTcxODEyOTg2Mjg3M2M2MjAyNjU5M2VjODhjZjYyMjk4M2Uw" ++
          js "MmE5MTE2YzJmMDM5MDNlZDM1MzFiZGIyMWFjOSIsImkiOiI5NDcyNGMz" ++
          js "YTBlYmFmNjc4NTg0MGQ2NGE5YmIyZmQ0NCIsImQiOiJPRGs2T3p4Q1Fr" ++
          js "SkNRa0pDUWtKQ1FnPT0iLCJzIjo1fQ"),
      after_encrypt w0)
   /\ url_safe_unpadded
        (js "eyJrIjoiNTcxODEyOTg2Mjg3M2M2MjAyNjU5M2VjODhjZjYyMjk4M2Uw" ++
        js "MmE5MTE2YzJmMDM5MDNlZDM1MzFiZGIyMWFjOSIsImkiOiI5NDcyNGMz" ++
        js "YTBlYmFmNjc4NTg0MGQ2NGE5YmIyZmQ0NCIsImQiOiJPRGs2T3p4Q1Fr" ++
        js "SkNRa0pDUWtKQ1FnPT0iLCJzIjo1fQ==")
        (js "eyJrIjoiNTcxODEyOTg2Mjg3M2M2MjAyNjU5M2VjODhjZjYyMjk4M2Uw" ++
        js "MmE5MTE2YzJmMDM5MDNlZDM1MzFiZGIyMWFjOSIsImkiOiI5NDcyNGMz" ++
        js "YTBlYmFmNjc4NTg0MGQ2NGE5YmIyZmQ0NCIsImQiOiJPRGs2T3p4Q1Fr" ++
        js "SkNRa0pDUWtKQ1FnPT0iLCJzIjo1fQ"))
  /\ (encryptFile (host := marked_host) five_bytes w0
      = (inr (js "eyJrIjoiNTcxODEyOTg2Mjg3M2M2MjAyNjU5M2VjODhjZjYyMjk4M2Uw" ++
             js "MmE5MTE2YzJmMDM5MDNlZDM1MzFiZGIyMWFjOSIsImkiOiI5NDcyNGMz" ++
             js "YTBlYmFmNjc4NTg0MGQ2NGE5YmIyZmQ0NCIsImQiOiI_QUE-T0RrNk96" ++
             js "eENRa0pDUWtKQ1FrSkNRZz09IiwicyI6NX0"),
         after_encrypt w0)
      /\ url_safe_unpadded
           (js "eyJrIjoiNTcxODEyOTg2Mjg3M2M2MjAyNjU5M2VjODhjZjYyMjk4M2Uw" ++
           js "MmE5MTE2YzJmMDM5MDNlZDM1MzFiZGIyMWFjOSIsImkiOiI5NDcyNGMz" ++
           js "YTBlYmFmNjc4NTg0MGQ2NGE5YmIyZmQ0NCIsImQiOiI/QUE+T0RrNk96" ++
           js "eENRa0pDUWtKQ1FrSkNRZz09IiwicyI6NX0=")
           (js "eyJrIjoiNTcxODEyOTg2Mjg3M2M2MjAyNjU5M2VjODhjZjYyMjk4M2Uw" ++
           js "MmE5MTE2YzJmMDM5MDNlZDM1MzFiZGIyMWFjOSIsImkiOiI5NDcyNGMz" ++
           js "YTBlYmFmNjc4NTg0MGQ2NGE5YmIyZmQ0NCIsImQiOiI_QUE-T0RrNk96" ++
           js "eENRa0pDUWtKQ1FrSkNRZz09IiwicyI6NX0")).
Proof.
  split.
  - exact (conj
             (proj1 (encryptFile_wire_format five_bytes w0
                       ref_host_text_plain (proj2 five_bytes_size)))
             (proj1 (proj2 (encryptFile_wire_format five_bytes w0
                              ref_host_text_plain (proj2 five_bytes_size))))).
  - exact (conj
             (proj1 (encryptFile_wire_format (host := marked_host)
                       five_bytes w0 marked_host_text_plain
                       (proj2 five_bytes_size)))
             (proj1 (proj2 (encryptFile_wire_format (host := marked_host)
                              five_bytes w0 marked_host_text_plain
                              (proj2 five_bytes_size))))).
Defined.


(** C8 on the empty input. *)
Lemma decryptFile_surfaces_with_prefix_witness :
  decryptFile [] [] [] w0
  = (inl (Error (js "Failed to decrypt file: "
                 ++ message (Error (js "No data provided for decryption")))),
     logged w0 (EvConsoleError (js "Decryption error:")
                  (Error (js "No data provided for decryption")))).
Proof.
  exact (decryptFile_surfaces_with_prefix [] [] [] w0
           (Error (js "No data provided for decryption")) w0 eq_refl).
Defined.

(** C8 as stated fails: on the empty input the body throws an error
    whose message is "No data provided for decryption", and the message
    the caller reads is a different string. *)
Lemma verbatim_surfacing_fails :
  ~ (forall input f m w e w' e2 w2,
       decryptFile_body input f m w = (inl e, w') ->
       decryptFile input f m w = (inl e2, w2) ->
       message e2 = message e).
Proof.
  intros H.
  specialize (H [] [] [] w0 _ _ _ _ eq_refl eq_refl).
  vm_compute in H. discriminate H.
Qed.

(** C9 on the empty file, in the initial world and in the world after
    one call. *)
Lemma empty_file_envelopes_differ_and_fail_witness :
  encryptFile empty_file w0
  = (inr (envelope_of empty_file w0), after_encrypt w0)
  /\ encryptFile empty_file (after_encrypt w0)
     = (inr (envelope_of empty_file (after_encrypt w0)),
        after_encrypt (after_encrypt w0))
  /\ envelope_of empty_file w0 <> envelope_of empty_file (after_encrypt w0)
  /\ decryptFile (envelope_of empty_file w0) [] [] w0 = incomplete_outcome w0
  /\ decryptFile (envelope_of empty_file (after_encrypt w0)) [] [] w0
     = incomplete_outcome w0.
Proof.
  exact (empty_file_envelopes_differ_and_fail w0 (after_encrypt w0) [] [] w0
           ref_host_text_plain draws_differ).
Defined.

(** C10 on [long_envelope], whose length field is 40 while decryption
    gives 16 octets, and on [huge_envelope], whose length field is
    [10^12], on the engine that allocates up to [2^32 - 1] octets. *)
Lemma short_decryption_is_zero_filled_witness :
  (decryptFile long_envelope [] [] w0
   = (inr tt,
      delivered w0 [] []
        (words_bytes (words decrypted5)
         ++ repeat 0 (Z.to_nat (40 - 4 * len (words decrypted5)))))
   /\ len (words_bytes (words decrypted5)
           ++ repeat 0 (Z.to_nat (40 - 4 * len (words decrypted5)))) = 40
   /\ (forall sv, safe_integer sv = Some 40 ->
         copy_words_checked sv (words decrypted5) (repeat 0 (Z.to_nat 40), 0)
         = Some (copy_words sv (words decrypted5)
                   (repeat 0 (Z.to_nat 40), 0))))
  /\ decryptFile huge_envelope [] [] w0
     = (inl (Error (js "Failed to decrypt file: "
                    ++ engine_message RangeError_allocation)),
        logged (logged w0 EvDecrypt)
          (EvConsoleError (js "Decryption error:") RangeError_allocation)).
Proof.
  split.
  - exact (proj1 (short_decryption_is_zero_filled long_envelope
                    key_hex5 iv_hex5 cipher_text5 40 key5 iv5 decrypted5
                    [] [] w0
                    long_envelope_well_formed eq_refl eq_refl
                    decrypt_cipher_text5 eq_refl)
             eq_refl).
  - exact (proj2 (short_decryption_is_zero_filled huge_envelope
                    key_hex5 iv_hex5 cipher_text5 1000000000000
                    key5 iv5 decrypted5 [] [] w0
                    huge_envelope_well_formed eq_refl eq_refl
                    decrypt_cipher_text5 eq_refl)
             eq_refl).
Defined.

(** C10 as stated fails: [huge_envelope] is well formed, its key, IV
    and cipher text are accepted, and its length [10^12] exceeds the 16
    octets that decryption gives; on the engine that allocates up to
    [2^32 - 1] octets [new Uint8Array(s)] throws, so [decryptFile]
    throws "Failed to decrypt file: Array buffer allocation failed" and
    delivers nothing. *)
Lemma huge_length_is_not_delivered :
  well_formed_envelope huge_envelope key_hex5 iv_hex5 cipher_text5
    1000000000000
  /\ Hex_parse (JStr key_hex5) = inr key5
  /\ Hex_parse (JStr iv_hex5) = inr iv5
  /\ AES_decrypt (JStr cipher_text5) key5 iv5 = inr decrypted5
  /\ 4 * len (words decrypted5) < 1000000000000
  /\ decryptFile huge_envelope [] [] w0
     = (inl (Error
               (js "Failed to decrypt file: Array buffer allocation failed")),
        {| rng_cursor := 0;
           events :=
             [EvDecrypt;
              EvConsoleError (js "Decryption error:")
                RangeError_allocation] |})
  /\ ~ (forall input kh ih ct n key iv decrypted f m w,
          well_formed_envelope input kh ih ct n ->
          Hex_parse (JStr kh) = inr key -> Hex_parse (JStr ih) = inr iv ->
          AES_decrypt (JStr ct) key iv = inr decrypted ->
          4 * len (words decrypted) < n ->
          exists u8,
            decryptFile input f m w = (inr tt, delivered w f m u8)).
Proof.
  assert (E : decryptFile huge_envelope [] [] w0
              = (inl (Error
                        (js "Failed to decrypt file: Array buffer allocation failed")),
                 {| rng_cursor := 0;
                    events :=
                      [EvDecrypt;
                       EvConsoleError (js "Decryption error:")
                         RangeError_allocation] |})).
  { vm_compute. reflexivity. }
  split; [exact huge_envelope_well_formed|].
  split; [reflexivity|]. split; [reflexivity|].
  split; [exact decrypt_cipher_text5|].
  split; [reflexivity|]. split; [exact E|].
  intros H.
  destruct (H huge_envelope key_hex5 iv_hex5 cipher_text5 1000000000000
              key5 iv5 decrypted5 [] [] w0
              huge_envelope_well_formed eq_refl eq_refl
              decrypt_cipher_text5 eq_refl) as [u8 Hu].
  rewrite E in Hu. discriminate Hu.
Qed.

(** X1 on the five-octet file. *)
Lemma round_trip_nonempty_witness :
  encryptFile five_bytes w0
  = (inr (envelope_of five_bytes w0), after_encrypt w0)
  /\ decryptFile (envelope_of five_bytes w0) [] [] w0
     = (inr tt, delivered w0 [] [] (file_bytes five_bytes)).
Proof.
  exact (round_trip_nonempty five_bytes w0 [] [] w0
           ref_host_text_plain ref_host_inverts
           five_bytes_are_bytes five_bytes_size).
Defined.

(** X2 on the five-octet file, in the initial world and in the world
    after one call. *)
Lemma distinct_draws_distinct_envelopes_witness :
  envelope_of five_bytes w0 <> envelope_of five_bytes (after_encrypt w0)
  /\ decryptFile (envelope_of five_bytes w0) [] [] w0
     = (inr tt, delivered w0 [] [] (file_bytes five_bytes))
  /\ decryptFile (envelope_of five_bytes (after_encrypt w0)) [] [] w0
     = (inr tt, delivered w0 [] [] (file_bytes five_bytes)).
Proof.
  exact (distinct_draws_distinct_envelopes five_bytes w0 (after_encrypt w0)
           [] [] w0 ref_host_text_plain ref_host_inverts
           five_bytes_are_bytes five_bytes_size draws_differ).
Defined.

(** ** The second host meets the expectations *)

Lemma latin1_host_units : cipher_text_units latin1_host.
Proof.
  intros message key iv.
  cbn [CipherParams_toString AES_encrypt latin1_host].
  eapply Forall_impl; [|apply wa_bytes_range].
  unfold is_byte, code_unit. lia.
Qed.

Lemma latin1_host_nonempty : cipher_text_nonempty latin1_host.
Proof.
  intros message key iv.
  cbn [CipherParams_toString AES_encrypt latin1_host].
  unfold RefHost.ref_encrypt.
  rewrite wa_bytes_create by apply shifted_bytes.
  intros E. apply map_eq_nil in E. now apply pkcs7_pad_nonempty in E.
Qed.

Lemma latin1_host_inverts : cipher_inverts latin1_host.
Proof.
  intros octets key iv Hoct Hk Hi.
  exists (WordArray_create (wa_bytes key)), (WordArray_create (wa_bytes iv)).
  cbn [Hex_parse AES_decrypt AES_encrypt CipherParams_toString latin1_host].
  unfold RefHost.ref_Hex_parse, latin1_decrypt, RefHost.ref_encrypt.
  rewrite !hex_octets_stringify.
  rewrite (wa_bytes_create octets) by assumption.
  rewrite wa_bytes_create by apply shifted_bytes.
  assert (Em : RefHost.mask (WordArray_create (wa_bytes key))
                 (WordArray_create (wa_bytes iv)) = RefHost.mask key iv).
  { unfold RefHost.mask. now rewrite !wa_bytes_create by apply wa_bytes_range. }
  rewrite Em, unshift_shift by now apply pkcs7_pad_bytes.
  eexists. repeat split. cbn [words].
  destruct (words_bytes_pack (RefHost.pkcs7_pad octets)
              (pkcs7_pad_bytes _ Hoct)) as (tail & E & _).
  rewrite E. unfold RefHost.pkcs7_pad. rewrite <- !app_assoc.
  apply firstn_length_app.
Qed.

Lemma ref_host_units : cipher_text_units ref_host.
Proof.
  intros message key iv. apply ascii_code_unit, Forall_plain_ascii.
  apply (ref_host_text_plain message key iv).
Qed.

(** ** The further properties on the two hosts *)

(** X4 on the envelope of [five_bytes]. *)
Lemma envelope_is_url_safe_witness :
  envelope_of five_bytes w0 <> []
  /\ Forall url_safe_char (envelope_of five_bytes w0)
  /\ len (envelope_of five_bytes w0) mod 4 <> 1.
Proof.
  apply (envelope_is_url_safe five_bytes w0 _ (after_encrypt w0)).
  vm_compute. reflexivity.
Defined.

(** X5 on the second host, whose cipher text is not plain. *)
Lemma encryptFile_fails_only_by_size_witness :
  (size five_bytes <= MAX_FILE_SIZE ->
   exists envelope,
     encryptFile (host := latin1_host) five_bytes w0
     = (inr envelope, after_encrypt w0))
  /\ (forall e w',
        encryptFile (host := latin1_host) five_bytes w0 = (inl e, w') ->
        MAX_FILE_SIZE < size five_bytes
        /\ e = Error (js "File size exceeds 10MB limit")
        /\ w' = logged w0 (EvConsoleError (js "Encryption error:") e)).
Proof.
  exact (encryptFile_fails_only_by_size (host := latin1_host) five_bytes w0
           latin1_host_units).
Defined.

(** X6 on the second host. *)
Lemma envelope_reads_back_witness :
  transport_decode latin1_envelope5
  = inr (JSON_stringify (combined_of (host := latin1_host) five_bytes w0))
  /\ JSON_parse
       (JSON_stringify (combined_of (host := latin1_host) five_bytes w0))
     = inr (JObj
              [(js "k", JStr (Hex_stringify (drawn_key (host := latin1_host) w0)));
               (js "i", JStr (Hex_stringify (drawn_iv (host := latin1_host) w0)));
               (js "d",
                JStr (CipherParams_toString (Host := latin1_host)
                        (AES_encrypt (WordArray_create (file_bytes five_bytes))
                           (drawn_key (host := latin1_host) w0)
                           (drawn_iv (host := latin1_host) w0))));
               (js "s", JNum (nat_literal (size five_bytes)))]).
Proof.
  apply (envelope_reads_back (host := latin1_host) five_bytes w0
           latin1_envelope5 (after_encrypt w0) latin1_host_units).
  vm_compute. reflexivity.
Defined.

(** X7 on the second host. *)
Lemma round_trip_any_cipher_text_witness :
  exists envelope,
    encryptFile (host := latin1_host) five_bytes w0
    = (inr envelope, after_encrypt w0)
    /\ decryptFile (host := latin1_host) envelope [] [] w0
       = (inr tt, delivered w0 [] [] (file_bytes five_bytes)).
Proof.
  exact (round_trip_any_cipher_text (host := latin1_host) five_bytes w0 [] [] w0
           latin1_host_units latin1_host_nonempty latin1_host_inverts
           five_bytes_are_bytes five_bytes_size).
Defined.

(** X8 on the envelope of [five_bytes]. *)
Lemma decryptFile_accepts_standard_base64_witness :
  decryptFile (standard_base64 (envelope_of five_bytes w0)) [] [] w0
  = decryptFile (envelope_of five_bytes w0) [] [] w0.
Proof.
  apply (decryptFile_accepts_standard_base64 (envelope_of five_bytes w0)
           [] [] w0).
  vm_compute. discriminate.
Defined.

(** X10 on [negative_envelope]. *)
Lemma negative_length_is_range_error_witness :
  decryptFile negative_envelope [] [] w0
  = (inl (Error (js "Failed to decrypt file: " ++ engine_message RangeError)),
     after w0 [EvDecrypt; EvConsoleError (js "Decryption error:") RangeError]).
Proof.
  apply (negative_length_is_range_error negative_envelope negative_text
           negative_members key_hex5 iv_hex5 cipher_text5 minus_one (-1)
           key5 iv5 decrypted5 [] [] w0).
  - vm_compute. discriminate.
  - vm_compute. reflexivity.
  - vm_compute. reflexivity.
  - reflexivity.
  - vm_compute. discriminate.
  - reflexivity.
  - vm_compute. discriminate.
  - reflexivity.
  - vm_compute. discriminate.
  - reflexivity.
  - reflexivity.
  - vm_compute. split; [discriminate|reflexivity].
  - reflexivity.
  - reflexivity.
  - exact decrypt_cipher_text5.
Defined.

Lemma big_file_over : MAX_FILE_SIZE < size big_file.
Proof. apply Z.gt_lt, big_file_size. Qed.

(** X14 on [big_file]. *)
Lemma oversize_upload_is_refused_locally_witness :
  handleFileUpload (backend := empty_backend)
    (Some (picked big_file)) (Some user1) aw0
  = (inr tt,
     app_after aw0 0
       [SetUploadLoading true;
        Lib (EvConsoleError (js "Encryption error:")
               (Error (js "File size exceeds 10MB limit")));
        ConsoleError (js "Error uploading file:")
          (Exn (Error (js "File size exceeds 10MB limit")));
        ToastError (js "File size exceeds 10MB limit");
        SetUploadLoading false]).
Proof.
  exact (oversize_upload_is_refused_locally (backend := empty_backend)
           (picked big_file) user1 aw0 big_file_over).
Defined.

(** X15 on [five_bytes], on the second host. *)
Lemma upload_stores_the_envelope_witness :
  exists envelope,
    encryptFile (host := latin1_host) five_bytes (inner aw0)
    = (inr envelope, after_encrypt (inner aw0))
    /\ handleFileUpload (host := latin1_host) (backend := empty_backend)
         (Some (picked five_bytes)) (Some user1) aw0
       = (inr tt,
          app_uploaded aw0 (row_of (picked five_bytes) user1 envelope)
            ([ToastSuccess (js_utf8 "Файл успешно загружен"); FetchFiles]
             ++ [SetUploadLoading false])).
Proof.
  apply (upload_stores_the_envelope (host := latin1_host)
           (backend := empty_backend) (picked five_bytes) user1 aw0
           latin1_host_units).
  vm_compute. discriminate.
Defined.

(** X16 on [five_bytes], on the second host. *)
Lemma uploaded_file_downloads_witness :
  exists row,
    In (Insert row)
       (trace (snd (handleFileUpload (host := latin1_host)
                      (backend := empty_backend)
                      (Some (picked five_bytes)) (Some user1) aw0)))
    /\ row_name row = js "notes.txt"
    /\ row_mime_type row = js "text/plain"
    /\ row_size row = 5
    /\ (forall listed aw',
          stored_content listed = row_content row ->
          handleDownloadFile (host := latin1_host) listed aw'
          = (inr tt,
             app_after aw' 0
               (delivery (stored_name listed) (stored_mime_type listed)
                  [1; 2; 3; 4; 5]
                ++ [toast_downloaded])))
    /\ (forall listed aw',
          select_error
            (select_response (Backend := empty_backend)
               (requests aw') (stored_id listed)) = None ->
          select_content
            (select_response (Backend := empty_backend)
               (requests aw') (stored_id listed)) = Some (row_content row) ->
          handleDownload (host := latin1_host) (backend := empty_backend)
            listed aw'
          = (inr tt,
             app_after aw' 1
               (SelectContent (stored_id listed)
                :: delivery (stored_name listed) (stored_mime_type listed)
                     [1; 2; 3; 4; 5]
                ++ [toast_downloaded]))).
Proof.
  exact (uploaded_file_downloads (host := latin1_host)
           (backend := empty_backend) (picked five_bytes) user1 aw0
           latin1_host_units latin1_host_nonempty latin1_host_inverts
           five_bytes_are_bytes five_bytes_size).
Defined.

(** X17 on [empty_file]. *)
Lemma empty_upload_cannot_be_downloaded_witness :
  exists row,
    In (Insert row)
       (trace (snd (handleFileUpload (backend := empty_backend)
                      (Some (picked empty_file)) (Some user1) aw0)))
    /\ row_size row = 0
    /\ (insert_response (Backend := empty_backend) (requests aw0) row = None ->
        In (ToastSuccess (js_utf8 "Файл успешно загружен"))
           (trace (snd (handleFileUpload (backend := empty_backend)
                          (Some (picked empty_file)) (Some user1) aw0))))
    /\ (forall listed aw',
          stored_content listed = row_content row ->
          handleDownloadFile listed aw'
          = (inr tt,
             app_after aw' 0
               [Lib (EvConsoleError (js "Decryption error:")
                       (Error (js "Incomplete file data")));
                toast_download_failed]))
    /\ (forall listed aw',
          select_error
            (select_response (Backend := empty_backend)
               (requests aw') (stored_id listed)) = None ->
          select_content
            (select_response (Backend := empty_backend)
               (requests aw') (stored_id listed)) = Some (row_content row) ->
          handleDownload (backend := empty_backend) listed aw'
          = (inr tt,
             app_after aw' 1
               [SelectContent (stored_id listed);
                Lib (EvConsoleError (js "Decryption error:")
                       (Error (js "Incomplete file data")));
                ConsoleError (js "Error downloading file:")
                  (Exn (Error
                          (js "Failed to decrypt file: Incomplete file data")));
                toast_download_failed])).
Proof.
  exact (empty_upload_cannot_be_downloaded (backend := empty_backend)
           (picked empty_file) user1 aw0 ref_host_units eq_refl).
Defined.

(** ** The properties of the connection layer on sample networks *)

(** X18 at the counts 1 and 5. *)
Lemma getRetryDelay_schedule_witness :
  1000 <= getRetryDelay 1 <= 10000
  /\ getRetryDelay 1 <= getRetryDelay 5
  /\ (1 <= 3 -> getRetryDelay 1 = 1000 * 2 ^ 1)
  /\ (4 <= 1 -> getRetryDelay 1 = 10000).
Proof. apply (getRetryDelay_schedule 1 5). lia. Defined.

(** X20: an answer after 120 ms. *)
Lemma supabaseQuery_returns_first_answer_witness :
  supabaseQuery (network := silent_network) answered None (net0 online_state)
  = Some (inr (Some 7),
          net_after (net0 online_state) (Z.max 0 120) 1 online_state
            [Operation]).
Proof.
  apply (supabaseQuery_returns_first_answer (network := silent_network)
           Z answered None (net0 online_state) 120
           {| data := Some 7; error := None |});
    reflexivity.
Defined.

(** X21: an operation that is never answered; each round ends with the
    timeout. *)
Lemma supabaseQuery_rethrows_last_error_witness :
  supabaseQuery (network := silent_network) unanswered (Some 500)
    (net0 online_state)
  = Some (inl (new_Error (js "Operation timed out")),
          net_after (net0 online_state) (500 + 1000 + 500 + 2000 + 500) 3
            online_state
            [Operation;
             NetConsoleError (js "Query attempt 1 failed:")
               (new_Error (js "Operation timed out"));
             Sleep 1000;
             Operation;
             NetConsoleError (js "Query attempt 2 failed:")
               (new_Error (js "Operation timed out"));
             Sleep 2000;
             Operation;
             NetConsoleError (js "Query attempt 3 failed:")
               (new_Error (js "Operation timed out"))])
  /\ (forall after_loop w0,
        for_attempts 4 0
          (query_round (network := silent_network) unanswered (Some 500))
          after_loop w0
        = for_attempts 4 0
            (query_round (network := silent_network) unanswered (Some 500))
            (net_throw
               (new_Error (js "Failed to execute query after all retries")))
            w0).
Proof.
  apply (supabaseQuery_rethrows_last_error (network := silent_network)
           Z unanswered (Some 500) (net0 online_state)
           (new_Error (js "Operation timed out"))
           (new_Error (js "Operation timed out"))
           (new_Error (js "Operation timed out")));
    reflexivity.
Defined.

(** X23: the status 401, then an answer. *)
Lemma supabaseQuery_retries_after_401_witness :
  supabaseQuery (network := silent_network) unauthorized_once None
    (net0 online_state)
  = Some (inr (Some 7),
          net_after (net0 online_state) (Z.max 0 30 + 1000 + 120) 2
            (disconnected online_state)
            [Operation;
             NetConsoleError (js "Query attempt 1 failed:")
               (new_Error (js "Authentication error. Please log in again."));
             Sleep 1000; Operation]).
Proof.
  apply (supabaseQuery_retries_after_401 (network := silent_network)
           Z unauthorized_once None (net0 online_state) 30
           {| data := None;
              error := Some {| status := Some 401;
                               raised_message := js "JWT expired" |} |}
           {| status := Some 401; raised_message := js "JWT expired" |}
           (Some 7));
    reflexivity.
Defined.

(** X24 on the network that answers the second request: the first
    round ends with the timeout, the second connects. *)
Lemma initializeSupabase_outcomes_witness :
  exists st',
    initializeSupabase (network := second_try_network) (net0 fresh_state)
    = Some (inr tt,
            net_after (net0 fresh_state) (15000 + 1000 + 25) 2 st'
              ([CreateClient; GetSession]
               ++ [NetConsoleError (js "Connection attempt 1 failed:")
                     (new_Error (js "Operation timed out"));
                   Sleep 1000; GetSession]))
    /\ isConnected st' = true /\ lastError st' = None
    /\ retryCount st' = 0.
Proof.
  exact (proj1 (proj2 (initializeSupabase_outcomes
                         (network := second_try_network)
                         (net0 fresh_state)))
           eq_refl).
Defined.

(** X25 on the network that never answers. *)
Lemma supabaseQuery_needs_connection_witness :
  exists w',
    supabaseQuery (network := silent_network) answered None (net0 fresh_state)
    = Some (inl (gave_up (new_Error (js "Operation timed out"))), w')
    /\ initializeSupabase (network := silent_network) (net0 fresh_state)
       = Some (inl (gave_up (new_Error (js "Operation timed out"))), w')
    /\ net_log w'
       = net_log (net0 fresh_state)
         ++ client_events (connectionState (net0 fresh_state))
         ++ [GetSession;
             NetConsoleError (js "Connection attempt 1 failed:")
               (new_Error (js "Operation timed out"));
             Sleep 1000; GetSession;
             NetConsoleError (js "Connection attempt 2 failed:")
               (new_Error (js "Operation timed out"));
             Sleep 2000; GetSession;
             NetConsoleError (js "Connection attempt 3 failed:")
               (new_Error (js "Operation timed out"))]
    /\ calls w' = (calls (net0 fresh_state) + 3)%nat.
Proof.
  apply (supabaseQuery_needs_connection (network := silent_network)
           Z answered None (net0 fresh_state)
           (new_Error (js "Operation timed out"))
           (new_Error (js "Operation timed out"))
           (new_Error (js "Operation timed out")));
    reflexivity.
Defined.

(** X26 after the three timeouts of the network that never answers. *)
Lemma status_after_failed_connection_witness :
  exists m,
    raised_message (gave_up (new_Error (js "Operation timed out")))
    = js "Failed to connect after 3 attempts: " ++ m
    /\ status (gave_up (new_Error (js "Operation timed out"))) = None
    /\ str_or m (js "Unknown error") <> []
    /\ getConnectionStatus silent_failure
       = Some (inr {| status_isConnected := false;
                      status_lastError :=
                        Some (str_or m (js "Unknown error"));
                      status_retryCount :=
                        retryCount (connectionState silent_failure);
                      status_lastRetryTime := clock silent_failure |},
               silent_failure).
Proof.
  apply (status_after_failed_connection (network := silent_network)
           (net0 fresh_state)
           (gave_up (new_Error (js "Operation timed out")))).
  vm_compute. reflexivity.
Defined.

(** X27: a session answer without a session. *)
Lemma key_functions_need_a_session_witness :
  let message := js_utf8 "Необходима авторизация" in
  let refused (A : Type) (label : jsstring)
    : option ((Raised + A) * KeyWorld) :=
    Some (inl (new_Error message),
          key_after key0 (Z.max 0 40) 1 (connectionState (net_world key0))
            [GetSession; NetConsoleError label (new_Error message)]) in
  createApiKey (network := session_of None)
    (database := profiles_with (Some true)) (tools := counting_tools)
    (js "ci") None key0
  = refused _ (js "Error in createApiKey:")
  /\ getApiKeys (network := session_of None)
       (database := profiles_with (Some true)) key0
     = refused _ (js "Error in getApiKeys:")
  /\ deleteApiKey (network := session_of None)
       (database := profiles_with (Some true)) (js "k1") key0
     = refused _ (js "Error in deleteApiKey:")
  /\ getFilesWithApiKey (network := session_of None)
       (database := profiles_with (Some true)) (js "admin") key0
     = refused _ (js "Error in getFilesWithApiKey:").
Proof.
  apply (key_functions_need_a_session (network := session_of None)
           (database := profiles_with (Some true)) (tools := counting_tools)
           (js "ci") None (js "k1") (js "admin") key0 40
           {| session_error := None; session_user := None |}
           (js_utf8 "Необходима авторизация"));
    try reflexivity.
  right. repeat split.
Defined.

(** X28: a user whose profile has [is_admin] false. *)
Lemma key_functions_need_an_administrator_witness :
  let refused (A : Type) (label : jsstring)
    : option ((Raised + A) * KeyWorld) :=
    Some (inl (new_Error (js_utf8 "Недостаточно прав")),
          key_after key0 (Z.max 0 40 + Z.max 0 60) 2
            (connectionState (net_world key0))
            [GetSession; Operation;
             NetConsoleError label
               (new_Error (js_utf8 "Недостаточно прав"))]) in
  createApiKey (network := session_of (Some (js "u1")))
    (database := profiles_with (Some false)) (tools := counting_tools)
    (js "ci") None key0
  = refused _ (js "Error in createApiKey:")
  /\ getApiKeys (network := session_of (Some (js "u1")))
       (database := profiles_with (Some false)) key0
     = refused _ (js "Error in getApiKeys:")
  /\ deleteApiKey (network := session_of (Some (js "u1")))
       (database := profiles_with (Some false)) (js "k1") key0
     = refused _ (js "Error in deleteApiKey:")
  /\ getFilesWithApiKey (network := session_of (Some (js "u1")))
       (database := profiles_with (Some false)) (js "admin") key0
     = refused _ (js "Error in getFilesWithApiKey:").
Proof.
  apply (key_functions_need_an_administrator
           (network := session_of (Some (js "u1")))
           (database := profiles_with (Some false)) (tools := counting_tools)
           (js "ci") None (js "k1") (js "admin") key0 40
           {| session_error := None; session_user := Some (js "u1") |}
           (js "u1") 60
           {| data := Some {| is_admin := Some false |}; error := None |});
    reflexivity.
Defined.

(** X29: an administrator creates a key. *)
Lemma createApiKey_returns_a_stored_key_witness :
  let key := js "uuid-0;uuid-1;" in
  let w' :=
    {| net_world :=
         net_after (net0 online_state) 180 3 online_state
           [GetSession; Operation; Operation];
       drawn := 2 |} in
  key = randomUUID (KeyTools := counting_tools) (drawn key0)
        ++ randomUUID (KeyTools := counting_tools) (S (drawn key0))
  /\ drawn w' = S (S (drawn key0))
  /\ exists session user_id n1 row n2 stored,
       settles_as
         (session_promise (Network := session_of (Some (js "u1")))
            (calls (net_world key0)))
       = Fulfilled session
       /\ session_error session = None
       /\ session_user session = Some user_id
       /\ round_result (network := session_of (Some (js "u1")))
            (respond (Database := profiles_with (Some true))
               (profiles_is_admin user_id) n1)
            CONNECTION_TIMEOUT = inr (Some row)
       /\ is_admin row = Some true
       /\ round_result (network := session_of (Some (js "u1")))
            (respond (Database := profiles_with (Some true))
               (api_keys_insert
                  (SHA256_hex (KeyTools := counting_tools) key)
                  (js "ci") user_id (Some (js "2026-01-01T00:00:00.000Z")))
               n2)
            CONNECTION_TIMEOUT = inr stored
       /\ (calls (net_world key0) < n1 < n2)%nat
       /\ (n2 < calls (net_world w'))%nat.
Proof.
  apply (createApiKey_returns_a_stored_key
           (network := session_of (Some (js "u1")))
           (database := profiles_with (Some true)) (tools := counting_tools)
           (js "ci") (Some (js "2026-01-01T00:00:00.000Z")) key0).
  vm_compute. reflexivity.
Defined.
